(** * Translation of ent tables into atlas tables (dialect/sql/schema/atlas.go)

    A shallow embedding of [aTables], [aColumns], [aIndexes] and of the MySQL
    implementation of the [atBuilder] interface, with the properties of the
    schema-migration specification that concern them.

    Conventions of the embedding.
    - Go strings are [string] (sequences of bytes); [int64] values are [Z]
      (the code only compares and copies them, it never does arithmetic
      that could wrap).
    - A Go function returning [(T, error)] or [error] returns a [result].
    - The objects built by the translation are shared through pointers in
      the Go code (an index part points to its column, a foreign key to its
      tables and columns).  A pointer into the translated set is a position:
      a [*schema.Table] is the position of the table in [tables2], a
      [*schema.Column] is the position of the column in [Columns] of the
      table that owns it.  Both lists only grow by appending, so a position
      keeps denoting the same object.  The back references atlas keeps
      beside them (the indexes and foreign keys of a column, the table of an
      index) repeat the forward ones and are not represented.
    - Functions of the repository or of its dependencies whose source is not
      part of atlas.go ([mysql.ParseType], [compareVersions], [mariadb],
      [defaultSize], [scanTypeOr], [supportDefault], [indexParts],
      [pkRange]) are variables of the section that uses them. *)

From Stdlib Require Import ZArith Ascii String Bool Lia Sorted.
From stdpp Require Import base option list gmap strings.

Set Default Proof Using "Type".

(** ** Results and errors *)

(** The errors [aTables] can return: the five [fmt.Errorf] formats of
    atlas.go, each with the values it prints, and the errors that come from
    outside ([mysql.ParseType], [pkRange]), which are passed on untouched. *)
Inductive error : Type :=
  | ErrFkColumn (symbol column : string)
      (* "unexpected fk %q column: %q" *)
  | ErrFkRefTable (symbol table : string)
      (* "unexpected fk %q ref-table: %q" *)
  | ErrFkRefColumn (symbol column : string)
      (* "unexpected fk %q ref-column: %q" *)
  | ErrPrimaryKeyColumn (column : string)
      (* "unexpected primary-key column: %q" *)
  | ErrIndexColumn (index column : string)
      (* "unexpected index %q column: %q" *)
  | ErrExternal (msg : string).

Inductive result (A : Type) : Type :=
  | Ok (a : A)
  | Err (e : error).
Arguments Ok {A} a.
Arguments Err {A} e.

Definition bind {A B : Type} (r : result A) (k : A -> result B) : result B :=
  match r with
  | Ok a => k a
  | Err e => Err e
  end.

Notation "'do' x <- r ; k" := (bind r (fun x => k))
  (at level 10, x name, r at level 100, k at level 200).

Definition is_ok {A : Type} (r : result A) : bool :=
  match r with Ok _ => true | Err _ => false end.

(** A loop that stops at the first error: the results of [f] on the
    elements of [l] in order, or the first error [f] returns. *)
Fixpoint traverse {A B : Type} (f : A -> result B) (l : list A)
  : result (list B) :=
  match l with
  | [] => Ok []
  | a :: l' => do b <- f a; do bs <- traverse f l'; Ok (b :: bs)
  end.

(** ** The Go string functions the translation calls *)

Module strings.

(** [strings.HasPrefix(s, prefix)]. *)
Definition HasPrefix (s prefix : string) : bool := String.prefix prefix s.

Fixpoint contains (cutset : string) (a : ascii) : bool :=
  match cutset with
  | EmptyString => false
  | String b cutset' => Ascii.eqb a b || contains cutset' a
  end.

(** [strings.TrimLeft(s, cutset)]: removes from the front of [s] every
    leading character that occurs in [cutset] (a set of characters, not a
    prefix).  Go compares bytes when the cutset is ASCII, as is done here,
    and code points otherwise. *)
Fixpoint TrimLeft (s cutset : string) : string :=
  match s with
  | EmptyString => EmptyString
  | String a s' => if contains cutset a then TrimLeft s' cutset else s
  end.

(** [strings.ReplaceAll(s, "'", "''")], the one replacement atlas.go
    does: every single quote becomes two. *)
Fixpoint ReplaceAll_quote (s : string) : string :=
  match s with
  | EmptyString => EmptyString
  | String a s' =>
      if Ascii.eqb a "'"%char
      then String "'"%char (String "'"%char (ReplaceAll_quote s'))
      else String a (ReplaceAll_quote s')
  end.

Definition lower (a : ascii) : ascii :=
  let n := N_of_ascii a in
  if ((65 <=? n) && (n <=? 90))%N then ascii_of_N (n + 32) else a.

(** [strings.ToLower] on the letters A-Z; other bytes are kept. *)
Fixpoint ToLower (s : string) : string :=
  match s with
  | EmptyString => EmptyString
  | String a s' => String (lower a) (ToLower s')
  end.

End strings.

Module strconv.

Definition digit (a : ascii) : option Z :=
  let n := Z.of_N (N_of_ascii a) in
  if ((48 <=? n) && (n <=? 57))%Z then Some (n - 48)%Z else None.

(** The digits of [s] read in base 10 after [acc]; [None] when a
    character is not a decimal digit. *)
Fixpoint digits (s : string) (acc : Z) : option Z :=
  match s with
  | EmptyString => Some acc
  | String a s' =>
      match digit a with
      | Some d => digits s' (10 * acc + d)%Z
      | None => None
      end
  end.

Definition unsigned (s : string) : option Z :=
  match s with
  | EmptyString => None
  | _ => digits s 0%Z
  end.

(** [strconv.ParseInt(s, 10, 64)]: an optional sign and at least one
    decimal digit; [None] stands for a non-nil error, which is what the
    function returns on a syntax error and when the value does not fit in
    an int64. *)
Definition ParseInt (s : string) : option Z :=
  match s with
  | EmptyString => None
  | String a s' =>
      if Ascii.eqb a "+"%char then
        match unsigned s' with
        | Some n => if (n <? 2 ^ 63)%Z then Some n else None
        | None => None
        end
      else if Ascii.eqb a "-"%char then
        match unsigned s' with
        | Some n => if (n <=? 2 ^ 63)%Z then Some (- n)%Z else None
        | None => None
        end
      else
        match unsigned s with
        | Some n => if (n <? 2 ^ 63)%Z then Some n else None
        | None => None
        end
  end.

End strconv.

(** ** The ent side: [Table], [Column], [Index], [ForeignKey]

    The structs that atlas.go translates are declared in other files of
    the package.  Their fields are those listed in section 3 of the
    specification, under the names atlas.go and the generated
    migrate/schema.go give them. *)

(** Modelled from the spec: the enumeration [field.Type] of the abstract
    column types (bool, intN, uintN, float32/64, string, bytes, time, UUID,
    enum, JSON, other), declared in package schema/field. *)
Inductive field_Type : Type :=
  | TypeInvalid | TypeBool | TypeTime | TypeJSON | TypeUUID | TypeBytes
  | TypeEnum | TypeString | TypeOther
  | TypeInt8 | TypeInt16 | TypeInt32 | TypeInt | TypeInt64
  | TypeUint8 | TypeUint16 | TypeUint32 | TypeUint | TypeUint64
  | TypeFloat32 | TypeFloat64.

#[global] Instance field_Type_eq_dec : EqDecision field_Type.
Proof. solve_decision. Defined.

(** Modelled from the spec: the default value of a column (a literal or
    an expression), held by [Column.Default] as an [interface{}].  The
    translation only asks whether it is a Go string and what [fmt.Sprint]
    prints for it. *)
Inductive DefaultValue : Type :=
  | DefString (v : string)
  | DefOther (printed : string).

(** [fmt.Sprint] of a default value: a string prints as itself. *)
Definition Sprint (d : DefaultValue) : string :=
  match d with
  | DefString v => v
  | DefOther printed => printed
  end.

(** Modelled from the spec: the struct [Column], declared outside
    atlas.go: name, abstract type, per-dialect [SchemaType] override, raw
    attribute string, size, the unique, increment and nullable flags,
    default value, enum values, collation, and the raw type string [typ]. *)
Record Column : Type := mkColumn {
  c_Name : string;
  c_Type : field_Type;
  c_SchemaType : gmap string string;
  c_Attr : string;
  c_Size : Z;
  c_Unique : bool;
  c_Increment : bool;
  c_Nullable : bool;
  c_Default : option DefaultValue;
  c_Enums : list string;
  c_Collation : string;
  c_typ : string
}.

(** Modelled from the spec: the struct [Index], declared outside
    atlas.go: name, unique flag and ordered columns (the prefix lengths of
    its parts are read through [indexParts]). *)
Record Index : Type := mkIndex {
  i_Name : string;
  i_Unique : bool;
  i_Columns : list Column
}.

(** Modelled from the spec: the struct [ForeignKey], declared outside
    atlas.go: symbol, local columns, referenced table, referenced columns
    and the two reference actions.  [RefTable] is a [*Table] in Go; the
    translation dereferences it for its [Name] only, which is what the
    field holds here. *)
Record ForeignKey : Type := mkForeignKey {
  fk_Symbol : string;
  fk_Columns : list Column;
  fk_RefTable : string;
  fk_RefColumns : list Column;
  fk_OnUpdate : string;
  fk_OnDelete : string
}.

(** Modelled from the spec: the struct [entsql.Annotation] of table-level
    hints, declared in package dialect/entsql: charset, collation, raw
    create options, check expression and named check expressions. *)
Record Annotation : Type := mkAnnotation {
  an_Charset : string;
  an_Collation : string;
  an_Options : string;
  an_Check : string;
  an_Checks : gmap string string
}.

(** Modelled from the spec: the struct [Table], declared outside
    atlas.go: name, ordered columns, indexes, primary key, foreign keys and
    the optional annotation. *)
Record Table : Type := mkTable {
  t_Name : string;
  t_Columns : list Column;
  t_Indexes : list Index;
  t_PrimaryKey : list Column;
  t_ForeignKeys : list ForeignKey;
  t_Annotation : option Annotation
}.

(** ** The atlas side: package [ariga.io/atlas/sql/schema]

    The package is a dependency of the repository.  Its types are given
    with the fields the translation sets, and its constructors and setters
    with the behaviour their documentation states: [Add...] appends,
    [Set...] overwrites, [SetCharset] and [SetCollation] replace the
    attribute of that kind or append one, [Table.Column] finds the first
    column of a name. *)

Module schema.

(** [schema.Type]: the column types the translation builds, and what
    [mysql.ParseType] may return besides them. *)
Inductive Type_ : Type :=
  | BoolType (T : string)
  | IntegerType (T : string) (Unsigned : bool)
  | BinaryType (T : string)
  | JSONType (T : string)
  | StringType (T : string) (Size : Z)
  | FloatType (T : string)
  | TimeType (T : string)
  | EnumType (T : string) (Values : list string)
  | UnsupportedType (T : string).

(** [schema.Attr]: the attributes of the packages schema and mysql that
    atlas.go attaches to tables, columns and index parts. *)
Inductive Attr : Type :=
  | Charset (V : string)
  | Collation (V : string)
  | Check (Name Expr : string)
  | CreateOptions (V : string)
  | AutoIncrement (V : Z)
  | SubPart (Len : Z).

Record RawExpr : Type := mkRawExpr { X : string }.

(** [schema.Column]; [c_Type] and [c_Null] are [Type.Type] and
    [Type.Null] of the Go struct, [c_Type = None] is the nil type. *)
Record Column : Type := mkColumn {
  c_Name : string;
  c_Type : option Type_;
  c_Null : bool;
  c_Default : option RawExpr;
  c_Attrs : list Attr
}.

Record IndexPart : Type := mkIndexPart {
  p_SeqNo : nat;
  p_C : nat;
  p_Attrs : list Attr
}.

Record Index : Type := mkIndex {
  i_Name : string;
  i_Unique : bool;
  i_Parts : list IndexPart
}.

Record ForeignKey : Type := mkForeignKey {
  fk_Symbol : string;
  fk_Table : option nat;
  fk_Columns : list nat;
  fk_RefTable : option nat;
  fk_RefColumns : list nat;
  fk_OnUpdate : string;
  fk_OnDelete : string
}.

Record Table : Type := mkTable {
  t_Name : string;
  t_Attrs : list Attr;
  t_Columns : list Column;
  t_Indexes : list Index;
  t_PrimaryKey : option Index;
  t_ForeignKeys : list ForeignKey
}.

Definition is_Charset (a : Attr) : bool :=
  match a with Charset _ => true | _ => false end.
Definition is_Collation (a : Attr) : bool :=
  match a with Collation _ => true | _ => false end.

(** [replaceOrAppend(attrs, v)]: [v] takes the place of the first
    attribute of its own kind, and is appended when there is none. *)
Fixpoint replaceOrAppend (same : Attr -> bool) (attrs : list Attr) (v : Attr)
  : list Attr :=
  match attrs with
  | [] => [v]
  | a :: attrs' =>
      if same a then v :: attrs' else a :: replaceOrAppend same attrs' v
  end.

Definition NewTable (name : string) : Table :=
  mkTable name [] [] [] None [].

Definition set_t_Attrs (t : Table) (attrs : list Attr) : Table :=
  mkTable (t_Name t) attrs (t_Columns t) (t_Indexes t) (t_PrimaryKey t)
    (t_ForeignKeys t).

Definition SetCharset (t : Table) (v : string) : Table :=
  set_t_Attrs t (replaceOrAppend is_Charset (t_Attrs t) (Charset v)).

Definition SetCollation (t : Table) (v : string) : Table :=
  set_t_Attrs t (replaceOrAppend is_Collation (t_Attrs t) (Collation v)).

Definition AddAttrs (t : Table) (attrs : list Attr) : Table :=
  set_t_Attrs t (t_Attrs t ++ attrs).

(** [AddChecks] appends the checks to the attribute list. *)
Definition AddChecks (t : Table) (checks : list Attr) : Table :=
  set_t_Attrs t (t_Attrs t ++ checks).

Definition AddColumns (t : Table) (columns : list Column) : Table :=
  mkTable (t_Name t) (t_Attrs t) (t_Columns t ++ columns) (t_Indexes t)
    (t_PrimaryKey t) (t_ForeignKeys t).

Definition AddIndexes (t : Table) (indexes : list Index) : Table :=
  mkTable (t_Name t) (t_Attrs t) (t_Columns t) (t_Indexes t ++ indexes)
    (t_PrimaryKey t) (t_ForeignKeys t).

Definition SetPrimaryKey (t : Table) (pk : Index) : Table :=
  mkTable (t_Name t) (t_Attrs t) (t_Columns t) (t_Indexes t) (Some pk)
    (t_ForeignKeys t).

Definition AddForeignKeys (t : Table) (fks : list ForeignKey) : Table :=
  mkTable (t_Name t) (t_Attrs t) (t_Columns t) (t_Indexes t)
    (t_PrimaryKey t) (t_ForeignKeys t ++ fks).

(** [t.Column(name)]: the first column of that name, as its position. *)
Definition Table_Column (t : Table) (name : string) : option nat :=
  fst <$> list_find (fun c => c_Name c = name) (t_Columns t).

Definition NewColumn (name : string) : Column :=
  mkColumn name None false None [].

Definition SetNull (c : Column) (b : bool) : Column :=
  mkColumn (c_Name c) (c_Type c) b (c_Default c) (c_Attrs c).

Definition SetType (c : Column) (t : option Type_) : Column :=
  mkColumn (c_Name c) t (c_Null c) (c_Default c) (c_Attrs c).

Definition SetDefault (c : Column) (x : RawExpr) : Column :=
  mkColumn (c_Name c) (c_Type c) (c_Null c) (Some x) (c_Attrs c).

Definition Column_SetCollation (c : Column) (v : string) : Column :=
  mkColumn (c_Name c) (c_Type c) (c_Null c) (c_Default c)
    (replaceOrAppend is_Collation (c_Attrs c) (Collation v)).

Definition Column_AddAttrs (c : Column) (attrs : list Attr) : Column :=
  mkColumn (c_Name c) (c_Type c) (c_Null c) (c_Default c)
    (c_Attrs c ++ attrs).

Definition NewIndex (name : string) : Index := mkIndex name false [].

Definition SetUnique (i : Index) (b : bool) : Index :=
  mkIndex (i_Name i) b (i_Parts i).

Definition NewUniqueIndex (name : string) : Index :=
  SetUnique (NewIndex name) true.

(** [AddParts]: each part gets the next sequence number. *)
Definition AddParts (i : Index) (parts : list IndexPart) : Index :=
  fold_left
    (fun i p =>
       mkIndex (i_Name i) (i_Unique i)
         (i_Parts i ++ [mkIndexPart (length (i_Parts i)) (p_C p) (p_Attrs p)]))
    parts i.

(** [Index.AddColumns]: one part per column. *)
Definition Index_AddColumns (i : Index) (columns : list nat) : Index :=
  AddParts i (map (fun c => mkIndexPart 0 c []) columns).

Definition NewPrimaryKey (columns : list nat) : Index :=
  Index_AddColumns (mkIndex "" false []) columns.

Definition NewForeignKey (symbol : string) : ForeignKey :=
  mkForeignKey symbol None [] None [] "" "".

Definition SetTable (fk : ForeignKey) (t : nat) : ForeignKey :=
  mkForeignKey (fk_Symbol fk) (Some t) (fk_Columns fk) (fk_RefTable fk)
    (fk_RefColumns fk) (fk_OnUpdate fk) (fk_OnDelete fk).

Definition SetOnUpdate (fk : ForeignKey) (o : string) : ForeignKey :=
  mkForeignKey (fk_Symbol fk) (fk_Table fk) (fk_Columns fk) (fk_RefTable fk)
    (fk_RefColumns fk) o (fk_OnDelete fk).

Definition SetOnDelete (fk : ForeignKey) (o : string) : ForeignKey :=
  mkForeignKey (fk_Symbol fk) (fk_Table fk) (fk_Columns fk) (fk_RefTable fk)
    (fk_RefColumns fk) (fk_OnUpdate fk) o.

Definition FK_AddColumns (fk : ForeignKey) (columns : list nat) : ForeignKey :=
  mkForeignKey (fk_Symbol fk) (fk_Table fk) (fk_Columns fk ++ columns)
    (fk_RefTable fk) (fk_RefColumns fk) (fk_OnUpdate fk) (fk_OnDelete fk).

Definition SetRefTable (fk : ForeignKey) (t : nat) : ForeignKey :=
  mkForeignKey (fk_Symbol fk) (fk_Table fk) (fk_Columns fk) (Some t)
    (fk_RefColumns fk) (fk_OnUpdate fk) (fk_OnDelete fk).

Definition AddRefColumns (fk : ForeignKey) (columns : list nat) : ForeignKey :=
  mkForeignKey (fk_Symbol fk) (fk_Table fk) (fk_Columns fk) (fk_RefTable fk)
    (fk_RefColumns fk ++ columns) (fk_OnUpdate fk) (fk_OnDelete fk).

End schema.

(** ** The [atBuilder] interface *)

(** The methods take pointers in Go and update the objects in place; here
    each method returns the object it updates.  [atUniqueC] receives the
    column being built as a pointer only: the position the column takes in
    the table when [aColumns] appends it. *)
Record atBuilder : Type := mkBuilder {
  atTable : Table -> schema.Table -> schema.Table;
  atTypeC : Column -> schema.Column -> result schema.Column;
  atUniqueC : Table -> Column -> schema.Table -> nat -> schema.Table;
  atIncrementC : schema.Table -> schema.Column -> schema.Column;
  atIncrementT : schema.Table -> Z -> schema.Table;
  atIndex : Index -> schema.Table -> schema.Index -> result schema.Index
}.

(** Modelled from the spec: the struct [Migrate], declared outside
    atlas.go; [universalID] is the universal-ids flag, the one field
    [aTables] reads. *)
Record Migrate : Type := mkMigrate { universalID : bool }.

(** Modelled from the spec: the struct [MySQL] of the dialect, declared
    outside atlas.go; it holds the version string of the connected
    server. *)
Record MySQL : Type := mkMySQL { version : string }.

(** Modelled from the spec: the constant [dialect.MySQL], the dialect
    identifier that keys the MySQL entry of [Column.SchemaType]. *)
Definition dialect_MySQL : string := "mysql".

(** Constants of [math]. *)
Definition MaxUint8 : Z := 255.
Definition MaxUint16 : Z := 65535.
Definition MaxUint32 : Z := 4294967295.

(** Type names of package [ariga.io/atlas/sql/mysql]. *)
Module mysql.
Definition TypeTinyInt : string := "tinyint".
Definition TypeSmallInt : string := "smallint".
Definition TypeInt : string := "int".
Definition TypeBigInt : string := "bigint".
Definition TypeTinyBlob : string := "tinyblob".
Definition TypeBlob : string := "blob".
Definition TypeMediumBlob : string := "mediumblob".
Definition TypeLongBlob : string := "longblob".
Definition TypeJSON : string := "json".
Definition TypeVarchar : string := "varchar".
Definition TypeMediumText : string := "mediumtext".
Definition TypeLongText : string := "longtext".
Definition TypeDouble : string := "double".
Definition TypeTimestamp : string := "timestamp".
Definition TypeEnum : string := "enum".
Definition TypeChar : string := "char".
End mysql.

(** Insertion of a name into a list sorted by the byte order of Go strings;
    [sort_strings] is [sort.Strings]. *)
Fixpoint insert_sorted (s : string) (l : list string) : list string :=
  match l with
  | [] => [s]
  | x :: l' => if String.leb s x then s :: l else x :: insert_sorted s l'
  end.

Definition sort_strings (l : list string) : list string :=
  foldr insert_sorted [] l.

(** ** A concrete environment

    Instances of the functions that atlas.go calls and does not define, on
    which the definitions below can be run.  The properties are proved for
    every instance; these serve the examples. *)
Module Sample.

(** A parser for a few MySQL type names; the empty string is refused. *)
Definition ParseType (s : string) : result schema.Type_ :=
  if String.eqb s "" then Err (ErrExternal "empty type")
  else if String.eqb s "bigint" then Ok (schema.IntegerType "bigint" false)
  else if String.eqb s "longblob" then Ok (schema.BinaryType "longblob")
  else if String.eqb s "json" then Ok (schema.JSONType "json")
  else if String.eqb s "point" then Ok (schema.UnsupportedType "point")
  else Err (ErrExternal s).

(** The numeric fields of a dotted version, up to the first character
    that is neither a digit nor a dot. *)
Fixpoint fields (s : string) (cur : Z) : list Z :=
  match s with
  | EmptyString => [cur]
  | String a s' =>
      match strconv.digit a with
      | Some d => fields s' (10 * cur + d)%Z
      | None => if Ascii.eqb a "."%char then cur :: fields s' 0%Z else [cur]
      end
  end.

Fixpoint compareFields (l1 l2 : list Z) : Z :=
  match l1, l2 with
  | [], _ => if existsb (Z.ltb 0) l2 then -1 else 0
  | _ :: _, [] => if existsb (Z.ltb 0) l1 then 1 else 0
  | x :: l1', y :: l2' =>
      if (x <? y)%Z then -1 else if (y <? x)%Z then 1
      else compareFields l1' l2'
  end.

Definition compareVersions (v1 v2 : string) : Z :=
  compareFields (fields v1 0%Z) (fields v2 0%Z).

Definition mariadb (d : MySQL) : string * bool :=
  match String.index 0 "MariaDB" (version d) with
  | Some idx => (String.substring 0 (idx - 1) (version d), true)
  | None => ("", false)
  end.

Definition defaultSize (d : MySQL) (c : Column) : Z := 255.

Definition scanTypeOr (c : Column) (t : string) : string :=
  if String.eqb (c_typ c) "" then t else strings.ToLower (c_typ c).

Definition supportDefault (c : Column) : bool :=
  match c_Type c with
  | TypeString | TypeEnum => (c_Size c <? 2 ^ 16)%Z
  | TypeJSON | TypeBytes | TypeOther | TypeInvalid => false
  | _ => true
  end.

Definition indexParts (idx : Index) : gmap string Z := empty.

(** The connection counts the queries it has answered; the range of a
    table is refused when the table is called "locked". *)
Definition pkRange (conn : nat) (t : Table) : result Z * nat :=
  if String.eqb (t_Name t) "locked"
  then (Err (ErrExternal "insert into ent_types"), S conn)
  else (Ok (Z.shiftl (Z.of_nat conn) 32), S conn).

Definition column (name : string) (t : field_Type) : Column :=
  mkColumn name t empty "" 0 false false false None [] "" "".

Definition mysql57 : MySQL := mkMySQL "5.7.26".
Definition mysql8 : MySQL := mkMySQL "8.0.19".
Definition maria10 : MySQL := mkMySQL "10.5.8-MariaDB".

(** The tables of the migration of examples/traversal: cities, and
    streets with a foreign key to cities. *)
Definition id : Column :=
  mkColumn "id" TypeInt empty "" 0 false true false None [] "" "".
Definition name : Column := column "name" TypeString.
Definition city_streets : Column :=
  mkColumn "city_streets" TypeInt empty "" 0 false false true None [] "" "".

Definition CitiesTable : Table :=
  mkTable "cities" [id; name] [] [id] [] None.

Definition StreetsTable : Table :=
  mkTable "streets" [id; name; city_streets]
    [mkIndex "street_name_city_streets" true [name; city_streets]]
    [id]
    [mkForeignKey "streets_cities_streets" [city_streets] "cities" [id]
       "" "SET NULL"]
    None.

Definition Tables : list Table := [CitiesTable; StreetsTable].

(** A table whose range the sample connection refuses, and whose second
    column has a type the sample parser refuses too. *)
Definition LockedTable : Table :=
  mkTable "locked" [id; column "shape" TypeOther] [] [id] [] None.

(** A unique column with a string default, and a table that declares the
    unique index of that column itself. *)
Definition nickname : Column :=
  mkColumn "nickname" TypeString empty "" 0 true false false
    (Some (DefString "O'Neil")) [] "" "".

Definition PetsTable : Table :=
  mkTable "pets" [id; nickname] [mkIndex "nickname" true [nickname]] [id] []
    (Some (mkAnnotation "" "utf8mb4_unicode_ci" "" "" empty)).

(** A unique column [c], and a table whose unique index named "c" covers
    two other columns. *)
Definition c : Column :=
  mkColumn "c" TypeInt empty "" 0 true false false None [] "" "".
Definition PairTable : Table :=
  mkTable "pairs" [c; column "a" TypeInt; column "b" TypeInt]
    [mkIndex "c" true [column "a" TypeInt; column "b" TypeInt]] [] [] None.

Definition blob100 : Column :=
  mkColumn "data" TypeBytes empty "" 100 false false false None [] "" "".
Definition blob_huge : Column :=
  mkColumn "data" TypeBytes empty "" (2 ^ 32) false false false None [] "" "".
Definition doc : Column := column "doc" TypeJSON.
Definition created_at : Column :=
  mkColumn "created_at" TypeTime empty "" 0 false false false
    (Some (DefOther "CURRENT_TIMESTAMP")) [] "" "".

(** The tables of examples/traversal/ent/migrate/schema.go, with the
    referenced tables set as its [init] sets them.  The foreign keys of
    groups and pets refer to users, which comes after them in [Tables]. *)
Module Traversal.

Definition int_column (name : string) : Column := column name TypeInt.
Definition nullable_int (name : string) : Column :=
  mkColumn name TypeInt empty "" 0 false false true None [] "" "".

Definition GroupsColumns : list Column :=
  [id; column "name" TypeString; nullable_int "group_admin"].
Definition GroupsTable : Table :=
  mkTable "groups" GroupsColumns [] [id]
    [mkForeignKey "groups_users_admin" [nullable_int "group_admin"] "users"
       [id] "" "SET NULL"]
    None.

Definition PetsColumns : list Column :=
  [id; column "name" TypeString; nullable_int "user_pets"].
Definition PetsTable : Table :=
  mkTable "pets" PetsColumns [] [id]
    [mkForeignKey "pets_users_pets" [nullable_int "user_pets"] "users"
       [id] "" "SET NULL"]
    None.

Definition UsersColumns : list Column :=
  [id; int_column "age"; column "name" TypeString].
Definition UsersTable : Table := mkTable "users" UsersColumns [] [id] [] None.

Definition GroupUsersColumns : list Column :=
  [int_column "group_id"; int_column "user_id"].
Definition GroupUsersTable : Table :=
  mkTable "group_users" GroupUsersColumns [] GroupUsersColumns
    [mkForeignKey "group_users_group_id" [int_column "group_id"] "groups"
       [id] "" "CASCADE";
     mkForeignKey "group_users_user_id" [int_column "user_id"] "users"
       [id] "" "CASCADE"]
    None.

Definition PetFriendsColumns : list Column :=
  [int_column "pet_id"; int_column "friend_id"].
Definition PetFriendsTable : Table :=
  mkTable "pet_friends" PetFriendsColumns [] PetFriendsColumns
    [mkForeignKey "pet_friends_pet_id" [int_column "pet_id"] "pets"
       [id] "" "CASCADE";
     mkForeignKey "pet_friends_friend_id" [int_column "friend_id"] "pets"
       [id] "" "CASCADE"]
    None.

Definition UserFriendsColumns : list Column :=
  [int_column "user_id"; int_column "friend_id"].
Definition UserFriendsTable : Table :=
  mkTable "user_friends" UserFriendsColumns [] UserFriendsColumns
    [mkForeignKey "user_friends_user_id" [int_column "user_id"] "users"
       [id] "" "CASCADE";
     mkForeignKey "user_friends_friend_id" [int_column "friend_id"] "users"
       [id] "" "CASCADE"]
    None.

Definition Tables : list Table :=
  [GroupsTable; PetsTable; UsersTable; GroupUsersTable; PetFriendsTable;
   UserFriendsTable].

End Traversal.

(** Columns for the examples of the type mapper: a column with an
    override, a string column of 100000 characters, a UUID column that
    asks for a collation of its own, a column of another type. *)
Definition overridden (t : field_Type) (override : string) : Column :=
  mkColumn "id" t {[ "mysql" := override ]} "" 0 false false true None [] "" "".
Definition long_text : Column :=
  mkColumn "body" TypeString empty "" 100000 false false false None [] "" "".
Definition uuid : Column :=
  mkColumn "uuid" TypeUUID empty "" 0 false true false None []
    "utf8mb4_general_ci" "".
Definition point : Column :=
  mkColumn "at" TypeOther empty "" 0 false false false None [] "" "point".
Definition counter : Column :=
  mkColumn "hits" TypeInt empty "" 0 false false false (Some (DefOther "0"))
    [] "" "".

(** An annotation with create options, a check and three named checks. *)
Definition checked : Annotation :=
  mkAnnotation "latin1" "" "ENGINE = INNODB" "price > 0"
    {[ "b_positive" := "b > 0"; "a_positive" := "a > 0"; "c_small" := "c < 9" ]}.
Definition CheckedTable : Table :=
  mkTable "checked" [id] [] [id] [] (Some checked).

End Sample.

Section Translation.

(** *** What atlas.go calls and does not define *)

(** [mysql.ParseType]. *)
Variable ParseType : string -> result schema.Type_.
(** [compareVersions(v1, v2)]: -1, 0 or 1. *)
Variable compareVersions : string -> string -> Z.
(** [d.mariadb()]: the version and whether the server is MariaDB. *)
Variable mariadb : MySQL -> string * bool.
(** [d.defaultSize(c)]. *)
Variable defaultSize : MySQL -> Column -> Z.
(** [c.scanTypeOr(t)]. *)
Variable scanTypeOr : Column -> string -> string.
(** [c.supportDefault()]. *)
Variable supportDefault : Column -> bool.
(** [indexParts(idx)]: the prefix length of the parts that have one. *)
Variable indexParts : Index -> gmap string Z.
(** [m.pkRange(ctx, m.sqlDialect, t)] queries the database; [Conn] is the
    state of the connection (and of the migration) the query reads and
    may change. *)
Variable Conn : Type.
Variable pkRange : Conn -> Table -> result Z * Conn.

(** *** The MySQL builder *)

Definition MySQL_atTable (d : MySQL) (t1 : Table) (t2 : schema.Table)
  : schema.Table :=
  let t2 := schema.SetCollation (schema.SetCharset t2 "utf8mb4") "utf8mb4_bin" in
  match t_Annotation t1 with
  | None => t2
  | Some an =>
      let t2 :=
        if String.eqb (an_Charset an) "" then t2
        else schema.SetCharset t2 (an_Charset an) in
      let t2 :=
        if String.eqb (an_Collation an) "" then t2
        else schema.SetCollation t2 (an_Collation an) in
      let t2 :=
        if String.eqb (an_Options an) "" then t2
        else schema.AddAttrs t2 [schema.CreateOptions (an_Options an)] in
      let t2 :=
        if String.eqb (an_Check an) "" then t2
        else schema.AddChecks t2 [schema.Check "" (an_Check an)] in
      let names := sort_strings (fst <$> map_to_list (an_Checks an)) in
      fold_left
        (fun t2 name =>
           schema.AddChecks t2
             [schema.Check name (default "" (an_Checks an !! name))])
        names t2
  end.

(** The tier of a bytes column, [None] when no case of the switch
    matches and [t] stays nil. *)
Definition bytes_type (size : Z) : option schema.Type_ :=
  if (size <=? MaxUint8)%Z then Some (schema.BinaryType mysql.TypeTinyBlob)
  else if (size <=? MaxUint16)%Z then Some (schema.BinaryType mysql.TypeBlob)
  else if (size <? 2 ^ 24)%Z then Some (schema.BinaryType mysql.TypeMediumBlob)
  else if (size <=? MaxUint32)%Z then Some (schema.BinaryType mysql.TypeLongBlob)
  else None.

Definition string_type (c1 : Column) (size : Z) : schema.Type_ :=
  if String.eqb (c_typ c1) "tinytext" || String.eqb (c_typ c1) "text"
  then schema.StringType (c_typ c1) 0
  else if (size <=? MaxUint16)%Z then schema.StringType mysql.TypeVarchar size
  else if (size =? 2 ^ 24 - 1)%Z then schema.StringType mysql.TypeMediumText 0
  else schema.StringType mysql.TypeLongText 0.

Definition MySQL_atTypeC (d : MySQL) (c1 : Column) (c2 : schema.Column)
  : result schema.Column :=
  let override := default "" (c_SchemaType c1 !! dialect_MySQL) in
  if negb (String.eqb override "") then
    do t <- ParseType (strings.ToLower override);
    Ok (schema.SetType c2 (Some t))
  else
    match c_Type c1 with
    | TypeBool =>
        Ok (schema.SetType c2 (Some (schema.BoolType "boolean")))
    | TypeInt8 =>
        Ok (schema.SetType c2 (Some (schema.IntegerType mysql.TypeTinyInt false)))
    | TypeUint8 =>
        Ok (schema.SetType c2 (Some (schema.IntegerType mysql.TypeTinyInt true)))
    | TypeInt16 =>
        Ok (schema.SetType c2 (Some (schema.IntegerType mysql.TypeSmallInt false)))
    | TypeUint16 =>
        Ok (schema.SetType c2 (Some (schema.IntegerType mysql.TypeSmallInt true)))
    | TypeInt32 =>
        Ok (schema.SetType c2 (Some (schema.IntegerType mysql.TypeInt false)))
    | TypeUint32 =>
        Ok (schema.SetType c2 (Some (schema.IntegerType mysql.TypeInt true)))
    | TypeInt | TypeInt64 =>
        Ok (schema.SetType c2 (Some (schema.IntegerType mysql.TypeBigInt false)))
    | TypeUint | TypeUint64 =>
        Ok (schema.SetType c2 (Some (schema.IntegerType mysql.TypeBigInt true)))
    | TypeBytes =>
        let size := if (c_Size c1 >? 0)%Z then c_Size c1 else MaxUint16 in
        Ok (schema.SetType c2 (bytes_type size))
    | TypeJSON =>
        let t :=
          if (compareVersions (version d) "5.7.8" =? -1)%Z
          then schema.BinaryType mysql.TypeLongBlob
          else schema.JSONType mysql.TypeJSON in
        Ok (schema.SetType c2 (Some t))
    | TypeString =>
        let size :=
          if (c_Size c1 =? 0)%Z then defaultSize d c1 else c_Size c1 in
        Ok (schema.SetType c2 (Some (string_type c1 size)))
    | TypeFloat32 | TypeFloat64 =>
        Ok (schema.SetType c2
              (Some (schema.FloatType (scanTypeOr c1 mysql.TypeDouble))))
    | TypeTime =>
        let t := schema.TimeType (scanTypeOr c1 mysql.TypeTimestamp) in
        let c2 :=
          if snd (mariadb d)
             || ((compareVersions (version d) "8.0.2" =? -1)%Z
                 && bool_decide (c_Default c1 = None))
          then schema.SetNull c2 (String.eqb (c_Attr c1) "")
          else c2 in
        Ok (schema.SetType c2 (Some t))
    | TypeEnum =>
        Ok (schema.SetType c2
              (Some (schema.EnumType mysql.TypeEnum (c_Enums c1))))
    | TypeUUID =>
        let c2 := schema.Column_SetCollation c2 "utf8mb4_bin" in
        Ok (schema.SetType c2 (Some (schema.StringType mysql.TypeChar 36)))
    | TypeInvalid | TypeOther =>
        (* [t, err := mysql.ParseType(c1.typ)] declares a [t] of its own
           in the case; the assignment after the switch stores the outer
           [t], which is still nil. *)
        do t <- ParseType (c_typ c1);
        Ok (schema.SetType (schema.SetType c2 (Some t)) None)
    end.

Definition MySQL_atImplicitIndexName (d : MySQL) (idx : Index) (c1 : Column)
  : bool :=
  if String.eqb (i_Name idx) (c_Name c1) then true
  else if negb (strings.HasPrefix (i_Name idx) (c_Name c1 +:+ "_")) then false
  else
    match strconv.ParseInt (strings.TrimLeft (i_Name idx) (c_Name c1 +:+ "_")) with
    | Some i => (i >? 1)%Z
    | None => false
    end.

Definition MySQL_atUniqueC (d : MySQL) (t1 : Table) (c1 : Column)
    (t2 : schema.Table) (c2 : nat) : schema.Table :=
  if existsb (fun idx => i_Unique idx && MySQL_atImplicitIndexName d idx c1)
       (t_Indexes t1)
  then t2
  else
    schema.AddIndexes t2
      [schema.Index_AddColumns (schema.NewUniqueIndex (c_Name c1)) [c2]].

Definition MySQL_atIncrementC (d : MySQL) (t : schema.Table)
    (c : schema.Column) : schema.Column :=
  schema.Column_AddAttrs c [schema.AutoIncrement 0].

Definition MySQL_atIncrementT (d : MySQL) (t : schema.Table) (v : Z)
  : schema.Table :=
  schema.AddAttrs t [schema.AutoIncrement v].

Fixpoint MySQL_atIndex_loop (prefix : gmap string Z) (name : string)
    (cs : list Column) (t2 : schema.Table) (idx2 : schema.Index)
  : result schema.Index :=
  match cs with
  | [] => Ok idx2
  | c1 :: cs' =>
      match schema.Table_Column t2 (c_Name c1) with
      | None => Err (ErrIndexColumn name (c_Name c1))
      | Some c2 =>
          let part :=
            match prefix !! c_Name c1 with
            | Some v => schema.mkIndexPart 0 c2 [schema.SubPart v]
            | None => schema.mkIndexPart 0 c2 []
            end in
          MySQL_atIndex_loop prefix name cs' t2 (schema.AddParts idx2 [part])
      end
  end.

Definition MySQL_atIndex (d : MySQL) (idx1 : Index) (t2 : schema.Table)
    (idx2 : schema.Index) : result schema.Index :=
  MySQL_atIndex_loop (indexParts idx1) (i_Name idx1) (i_Columns idx1) t2 idx2.

(** [*MySQL] implements [atBuilder]. *)
Definition MySQL_builder (d : MySQL) : atBuilder :=
  mkBuilder (MySQL_atTable d) (MySQL_atTypeC d) (MySQL_atUniqueC d)
    (MySQL_atIncrementC d) (MySQL_atIncrementT d) (MySQL_atIndex d).

(** *** [aColumns], [aIndexes] and [aTables] *)

(** The default of a column, lines 95-103 of atlas.go: nothing unless
    the column has a default the database supports; the printed value,
    wrapped in single quotes with the embedded ones doubled when it is a
    Go string and the column is neither a UUID nor a time. *)
Definition aDefault (c1 : Column) (c2 : schema.Column) : schema.Column :=
  match c_Default c1 with
  | Some dv =>
      if supportDefault c1 then
        let x := Sprint dv in
        let x :=
          match dv with
          | DefString v =>
              if bool_decide (c_Type c1 <> TypeUUID)
                 && bool_decide (c_Type c1 <> TypeTime)
              then "'" +:+ strings.ReplaceAll_quote v +:+ "'"
              else x
          | DefOther _ => x
          end in
        schema.SetDefault c2 (schema.mkRawExpr x)
      else c2
  | None => c2
  end.

(** One iteration of the loop of [aColumns]. *)
Definition aColumn (b : atBuilder) (t1 : Table) (c1 : Column)
    (t2 : schema.Table) : result schema.Table :=
  let c2 := schema.SetNull (schema.NewColumn (c_Name c1)) (c_Nullable c1) in
  let c2 :=
    if String.eqb (c_Collation c1) "" then c2
    else schema.Column_SetCollation c2 (c_Collation c1) in
  do c2 <- atTypeC b c1 c2;
  let c2 := aDefault c1 c2 in
  let t2 :=
    if c_Unique c1
    then atUniqueC b t1 c1 t2 (length (schema.t_Columns t2))
    else t2 in
  let c2 := if c_Increment c1 then atIncrementC b t2 c2 else c2 in
  Ok (schema.AddColumns t2 [c2]).

Fixpoint aColumns_loop (b : atBuilder) (t1 : Table) (cs : list Column)
    (t2 : schema.Table) : result schema.Table :=
  match cs with
  | [] => Ok t2
  | c1 :: cs' =>
      do t2 <- aColumn b t1 c1 t2;
      aColumns_loop b t1 cs' t2
  end.

Definition aColumns (b : atBuilder) (t1 : Table) (t2 : schema.Table)
  : result schema.Table :=
  aColumns_loop b t1 (t_Columns t1) t2.

(** The first loop of [aIndexes]: the columns of the primary key. *)
Fixpoint aPrimaryKey (cs : list Column) (t2 : schema.Table) (pk : list nat)
  : result (list nat) :=
  match cs with
  | [] => Ok pk
  | c1 :: cs' =>
      match schema.Table_Column t2 (c_Name c1) with
      | None => Err (ErrPrimaryKeyColumn (c_Name c1))
      | Some c2 => aPrimaryKey cs' t2 (pk ++ [c2])
      end
  end.

(** The second loop of [aIndexes]: the explicit indexes. *)
Fixpoint aIndexes_loop (b : atBuilder) (idxs : list Index)
    (t2 : schema.Table) : result schema.Table :=
  match idxs with
  | [] => Ok t2
  | idx1 :: idxs' =>
      let idx2 := schema.SetUnique (schema.NewIndex (i_Name idx1)) (i_Unique idx1) in
      do idx2 <- atIndex b idx1 t2 idx2;
      aIndexes_loop b idxs' (schema.AddIndexes t2 [idx2])
  end.

Definition aIndexes (b : atBuilder) (t1 : Table) (t2 : schema.Table)
  : result schema.Table :=
  do pk <- aPrimaryKey (t_PrimaryKey t1) t2 [];
  let t2 := schema.SetPrimaryKey t2 (schema.NewPrimaryKey pk) in
  aIndexes_loop b (t_Indexes t1) t2.

(** One iteration of the first loop of [aTables]: the table built from
    [t1], and the connection after the query of its primary-key range. *)
Definition aTable (m : Migrate) (b : atBuilder) (t1 : Table) (conn : Conn)
  : result schema.Table * Conn :=
  let t2 := atTable b t1 (schema.NewTable (t_Name t1)) in
  let '(r, conn) :=
    if universalID m then
      match pkRange conn t1 with
      | (Ok r, conn') => (Ok (atIncrementT b t2 r), conn')
      | (Err e, conn') => (Err e, conn')
      end
    else (Ok t2, conn) in
  (do t2 <- r; do t2 <- aColumns b t1 t2; aIndexes b t1 t2, conn).

(** The first loop of [aTables]. *)
Fixpoint aTables_build (m : Migrate) (b : atBuilder) (tables1 : list Table)
    (conn : Conn) : result (list schema.Table) * Conn :=
  match tables1 with
  | [] => (Ok [], conn)
  | t1 :: rest =>
      match aTable m b t1 conn with
      | (Err e, conn) => (Err e, conn)
      | (Ok t2, conn) =>
          match aTables_build m b rest conn with
          | (Err e, conn) => (Err e, conn)
          | (Ok tables2, conn) => (Ok (t2 :: tables2), conn)
          end
      end
  end.

(** The local columns of a foreign key, looked up in its table. *)
Fixpoint fkColumns (symbol : string) (cs : list Column) (t2 : schema.Table)
    (fk2 : schema.ForeignKey) : result schema.ForeignKey :=
  match cs with
  | [] => Ok fk2
  | c1 :: cs' =>
      match schema.Table_Column t2 (c_Name c1) with
      | None => Err (ErrFkColumn symbol (c_Name c1))
      | Some c2 => fkColumns symbol cs' t2 (schema.FK_AddColumns fk2 [c2])
      end
  end.

(** The referenced columns, looked up in the referenced table. *)
Fixpoint fkRefColumns (symbol : string) (cs : list Column)
    (refT : schema.Table) (fk2 : schema.ForeignKey)
  : result schema.ForeignKey :=
  match cs with
  | [] => Ok fk2
  | c1 :: cs' =>
      match schema.Table_Column refT (c_Name c1) with
      | None => Err (ErrFkRefColumn symbol (c_Name c1))
      | Some c2 => fkRefColumns symbol cs' refT (schema.AddRefColumns fk2 [c2])
      end
  end.

(** The body of the loop over [t1.ForeignKeys]: the foreign key [fk2]
    built from [fk1], for the table at position [i] of [tables2]. *)
Definition aForeignKey (tables2 : list schema.Table) (i : nat)
    (t2 : schema.Table) (fk1 : ForeignKey) : result schema.ForeignKey :=
  let fk2 :=
    schema.SetOnDelete
      (schema.SetOnUpdate
         (schema.SetTable (schema.NewForeignKey (fk_Symbol fk1)) i)
         (fk_OnUpdate fk1))
      (fk_OnDelete fk1) in
  do fk2 <- fkColumns (fk_Symbol fk1) (fk_Columns fk1) t2 fk2;
  match list_find (fun t => schema.t_Name t = fk_RefTable fk1) tables2 with
  | None => Err (ErrFkRefTable (fk_Symbol fk1) (fk_RefTable fk1))
  | Some (j, refT) =>
      let fk2 := schema.SetRefTable fk2 j in
      fkRefColumns (fk_Symbol fk1) (fk_RefColumns fk1) refT fk2
  end.

(** The loop over the foreign keys of the table at position [i]; each
    foreign key is added to that table of [tables2] in place.  [i] is a
    position of [tables2] ([tables2] is as long as [tables1]); outside
    it the Go code would stop on the index expression [tables2[i]], a case
    [aTables] never reaches (lemma [aTables_link_inv]). *)
Fixpoint aForeignKeys (fks : list ForeignKey) (i : nat)
    (tables2 : list schema.Table) : result (list schema.Table) :=
  match fks with
  | [] => Ok tables2
  | fk1 :: fks' =>
      match tables2 !! i with
      | None => Err (ErrExternal "index out of range")
      | Some t2 =>
          do fk2 <- aForeignKey tables2 i t2 fk1;
          aForeignKeys fks' i (<[i := schema.AddForeignKeys t2 [fk2]]> tables2)
      end
  end.

(** The second loop of [aTables], from the table at position [i] on. *)
Fixpoint aTables_link (tables1 : list Table) (i : nat)
    (tables2 : list schema.Table) : result (list schema.Table) :=
  match tables1 with
  | [] => Ok tables2
  | t1 :: rest =>
      do tables2 <- aForeignKeys (t_ForeignKeys t1) i tables2;
      aTables_link rest (S i) tables2
  end.

Definition aTables (m : Migrate) (b : atBuilder) (tables1 : list Table)
    (conn : Conn) : result (list schema.Table) * Conn :=
  match aTables_build m b tables1 conn with
  | (Err e, conn) => (Err e, conn)
  | (Ok tables2, conn) => (aTables_link tables1 0 tables2, conn)
  end.

(** *** Vocabulary of the properties *)

(** The column has no [SchemaType] entry for MySQL (a nil map, no entry,
    or an empty one), so that [atTypeC] infers the type from [c1.Type]
    instead of parsing the override. *)
Definition inferred (c1 : Column) : Prop :=
  default "" (c_SchemaType c1 !! dialect_MySQL) = "".

(** The values of the [Charset] and of the [Collation] attributes of a
    table, in the order of [Attrs]. *)
Definition charsets (t : schema.Table) : list string :=
  omap (fun a => match a with schema.Charset v => Some v | _ => None end)
    (schema.t_Attrs t).

Definition collations (t : schema.Table) : list string :=
  omap (fun a => match a with schema.Collation v => Some v | _ => None end)
    (schema.t_Attrs t).

(** The column [aColumns] hands to [atTypeC]: named and nullable as
    [c1], with the collation of [c1] when it has one. *)
Definition column_new (c1 : Column) : schema.Column :=
  let c2 := schema.SetNull (schema.NewColumn (c_Name c1)) (c_Nullable c1) in
  if String.eqb (c_Collation c1) "" then c2
  else schema.Column_SetCollation c2 (c_Collation c1).

(** What [aColumns] does to the column after [atTypeC], under the MySQL
    builder: the default, then the auto-increment marker. *)
Definition column_finish (c1 : Column) (c2 : schema.Column) : schema.Column :=
  let c2 := aDefault c1 c2 in
  if c_Increment c1 then schema.Column_AddAttrs c2 [schema.AutoIncrement 0]
  else c2.

(** The translation of a column under the MySQL builder. *)
Definition column_MySQL (d : MySQL) (c1 : Column) : result schema.Column :=
  do c2 <- MySQL_atTypeC d c1 (column_new c1);
  Ok (column_finish c1 c2).

(** The implicit index of a unique column: unique, named after the
    column, with the column at position [pos] as its only part. *)
Definition implicit_index (c1 : Column) (pos : nat) : schema.Index :=
  schema.mkIndex (c_Name c1) true [schema.mkIndexPart 0 pos []].

(** Some explicit unique index of [t1] has a name that MySQL would give
    to the implicit index of [c1]: the test of [atUniqueC]. *)
Definition explicit_unique (d : MySQL) (t1 : Table) (c1 : Column) : bool :=
  existsb (fun idx => i_Unique idx && MySQL_atImplicitIndexName d idx c1)
    (t_Indexes t1).

(** The implicit indexes of the columns [cs], the first of which is at
    position [pos] of its table. *)
Fixpoint implicit_indexes (d : MySQL) (t1 : Table) (cs : list Column)
    (pos : nat) : list schema.Index :=
  match cs with
  | [] => []
  | c1 :: cs' =>
      (if c_Unique c1 && negb (explicit_unique d t1 c1)
       then [implicit_index c1 pos] else [])
      ++ implicit_indexes d t1 cs' (S pos)
  end.

(** The charset and the collation [atTable] gives a MySQL table. *)
Definition charset_of (t1 : Table) : string :=
  match t_Annotation t1 with
  | Some an => if String.eqb (an_Charset an) "" then "utf8mb4" else an_Charset an
  | None => "utf8mb4"
  end.

Definition collation_of (t1 : Table) : string :=
  match t_Annotation t1 with
  | Some an =>
      if String.eqb (an_Collation an) "" then "utf8mb4_bin" else an_Collation an
  | None => "utf8mb4_bin"
  end.

(** Two table sets of the same shape: the same names and the same columns
    at the same positions.  The second pass reads nothing else of the
    tables, and changes nothing but their foreign keys. *)
Definition same_shape (ts ts' : list schema.Table) : Prop :=
  Forall2 (fun t t' => schema.t_Name t = schema.t_Name t' /\
                       schema.t_Columns t = schema.t_Columns t') ts ts'.

(** The position of the column of [t2] named as [c1], or the error made
    by [errorf] from the name when [t2] has no such column. *)
Definition lookup_column (errorf : string -> error) (t2 : schema.Table)
    (c1 : Column) : result nat :=
  match schema.Table_Column t2 (c_Name c1) with
  | Some c2 => Ok c2
  | None => Err (errorf (c_Name c1))
  end.

(** The foreign key [fk1] resolves in the table set [built], for the
    table [t2] that owns it: [t2] has a column for every local column,
    [built] has a table of the referenced name, and the first such table
    has a column for every referenced column. *)
Definition fk_resolves (built : list schema.Table) (t2 : schema.Table)
    (fk1 : ForeignKey) : Prop :=
  Forall (fun c1 => is_Some (schema.Table_Column t2 (c_Name c1)))
    (fk_Columns fk1) /\
  exists j refT,
    list_find (fun t => schema.t_Name t = fk_RefTable fk1) built = Some (j, refT) /\
    Forall (fun c1 => is_Some (schema.Table_Column refT (c_Name c1)))
      (fk_RefColumns fk1).

(** [fk2] is [fk1] resolved: the same symbol and actions, the owning
    table at position [i], the local columns at the positions of their
    names in [t2], the referenced table at the position [j] of the first
    table of that name in [built], the referenced columns at the positions
    of their names in that table. *)
Definition fk_resolved (built : list schema.Table) (i : nat)
    (t2 : schema.Table) (fk1 : ForeignKey) (fk2 : schema.ForeignKey) : Prop :=
  schema.fk_Symbol fk2 = fk_Symbol fk1 /\
  schema.fk_OnUpdate fk2 = fk_OnUpdate fk1 /\
  schema.fk_OnDelete fk2 = fk_OnDelete fk1 /\
  schema.fk_Table fk2 = Some i /\
  Forall2 (fun c1 p => schema.Table_Column t2 (c_Name c1) = Some p)
    (fk_Columns fk1) (schema.fk_Columns fk2) /\
  exists j refT,
    list_find (fun t => schema.t_Name t = fk_RefTable fk1) built = Some (j, refT) /\
    schema.fk_RefTable fk2 = Some j /\
    Forall2 (fun c1 p => schema.Table_Column refT (c_Name c1) = Some p)
      (fk_RefColumns fk1) (schema.fk_RefColumns fk2).

(** [c1] is the first column of [cs] that [t2] does not have. *)
Definition first_missing (t2 : schema.Table) (cs : list Column) (c1 : Column)
  : Prop :=
  exists pre post,
    cs = pre ++ c1 :: post /\
    Forall (fun c => is_Some (schema.Table_Column t2 (c_Name c))) pre /\
    schema.Table_Column t2 (c_Name c1) = None.

(** The part of an explicit index for the column [c1], under the MySQL
    builder: the position of the column in [t2], and its prefix length when
    [prefix] has one for it. *)
Definition index_part (prefix : gmap string Z) (name : string)
    (t2 : schema.Table) (c1 : Column) : result schema.IndexPart :=
  do c2 <- lookup_column (ErrIndexColumn name) t2 c1;
  Ok (schema.mkIndexPart 0 c2
        (match prefix !! c_Name c1 with
         | Some v => [schema.SubPart v]
         | None => []
         end)).

(** The translation of the explicit index [idx1] under the MySQL builder,
    for the table [t2]. *)
Definition index_MySQL (d : MySQL) (t2 : schema.Table) (idx1 : Index)
  : result schema.Index :=
  MySQL_atIndex d idx1 t2
    (schema.SetUnique (schema.NewIndex (i_Name idx1)) (i_Unique idx1)).

(** The attribute [atIncrementT] adds to a table when [universalID] is
    set and the query of the range answers [r]. *)
Definition range_attrs (m : Migrate) (t1 : Table) (conn : Conn)
  : list schema.Attr :=
  if universalID m then
    match fst (pkRange conn t1) with
    | Ok r => [schema.AutoIncrement r]
    | Err _ => []
    end
  else [].

(** The first loop of [aTables] on one table, under the MySQL builder, as
    a sequence of steps each of which may fail: the range of the table when
    [universalID] is set, the columns, the primary key, the explicit
    indexes. *)
Definition table_MySQL (m : Migrate) (d : MySQL) (t1 : Table) (conn : Conn)
  : result schema.Table :=
  do _ <- (if universalID m
           then do _ <- fst (pkRange conn t1); Ok tt else Ok tt);
  let attrs :=
    schema.t_Attrs (MySQL_atTable d t1 (schema.NewTable (t_Name t1)))
    ++ range_attrs m t1 conn in
  do cols <- traverse (column_MySQL d) (t_Columns t1);
  let implicit := implicit_indexes d t1 (t_Columns t1) 0 in
  let t2 := schema.mkTable (t_Name t1) attrs cols implicit None [] in
  do pk <- traverse (lookup_column ErrPrimaryKeyColumn t2) (t_PrimaryKey t1);
  do idxs2 <- traverse (index_MySQL d t2) (t_Indexes t1);
  Ok (schema.mkTable (t_Name t1) attrs cols (implicit ++ idxs2)
        (Some (schema.NewPrimaryKey pk)) []).

(** [ds] is a decimal numeral of value [n]: one or more of the digits
    0-9. *)
Definition decimal (ds : string) (n : Z) : Prop :=
  ds <> "" /\ strconv.digits ds 0 = Some n.

(** The name [n] follows the naming of implicit indexes for the column
    name [c], as [atImplicitIndexName] recognises it for certain: [c]
    itself, or [c], an underscore and a decimal numeral from 2 to 2^63-1
    whose first digit does not occur in [c]. *)
Definition implicit_name (n c : string) : Prop :=
  n = c \/
  exists a ds k,
    n = (c +:+ "_") +:+ String a ds /\ decimal (String a ds) k /\
    (2 <= k < 2 ^ 63)%Z /\ strings.contains c a = false.

(** The naming of the specification: [c] itself, or [c], an underscore
    and a decimal numeral that is at least 2. *)
Definition spec_implicit_name (n c : string) : Prop :=
  n = c \/
  exists ds k, n = (c +:+ "_") +:+ ds /\ decimal ds k /\ (2 <= k)%Z.

(** The index covers exactly the column [c1]. *)
Definition covers_exactly (idx : Index) (c1 : Column) : Prop :=
  c_Name <$> i_Columns idx = [c_Name c1].

(** The condition of the specification for adding no implicit index: an
    explicit unique index that covers exactly the column and whose name
    follows the naming of implicit indexes. *)
Definition spec_suppressed (t1 : Table) (c1 : Column) : Prop :=
  exists idx,
    In idx (t_Indexes t1) /\ i_Unique idx = true /\
    covers_exactly idx c1 /\ spec_implicit_name (i_Name idx) (c_Name c1).

(** [pkRange] with a log: the connection carries the names of the tables
    whose range has been queried, in the order of the queries. *)
Definition logged_pkRange (cl : Conn * list string) (t : Table)
  : result Z * (Conn * list string) :=
  let '(r, conn') := pkRange (fst cl) t in
  (r, (conn', snd cl ++ [t_Name t])).

(** The MySQL entry of the [SchemaType] of a column, empty when there is
    none. *)
Definition override (c1 : Column) : string :=
  default "" (c_SchemaType c1 !! dialect_MySQL).

(** The condition under which [atTypeC] sets the nullability of a time
    column: the server is MariaDB, or it is older than 8.0.2 and the column
    has no default. *)
Definition implicit_timestamp (d : MySQL) (c1 : Column) : Prop :=
  snd (mariadb d) = true \/
  (compareVersions (version d) "8.0.2" = (-1)%Z /\ c_Default c1 = None).

(** Undoing the doubling of single quotes: two single quotes in a row
    become one. *)
Fixpoint unquote (s : string) : string :=
  match s with
  | EmptyString => EmptyString
  | String a s' =>
      match s' with
      | String b s'' =>
          if Ascii.eqb a "'" && Ascii.eqb b "'"
          then String "'" (unquote s'')
          else String a (unquote s')
      | EmptyString => s
      end
  end.

(** The table [t1] has a column named as [c]. *)
Definition has_column (t1 : Table) (c : Column) : Prop :=
  In (c_Name c) (c_Name <$> t_Columns t1).

(** The table [t1] of the set [tables1] can be translated for MySQL: the
    type of every column translates; the columns of the primary key, of
    the indexes and of the foreign keys are columns of the table by name;
    every foreign key refers to the name of a table of the set, and its
    referenced columns are columns of the first table of that name. *)
Definition wf_table (d : MySQL) (tables1 : list Table) (t1 : Table) : Prop :=
  Forall (fun c1 => is_ok (MySQL_atTypeC d c1 (column_new c1)) = true)
    (t_Columns t1) /\
  Forall (has_column t1) (t_PrimaryKey t1) /\
  Forall (fun idx => Forall (has_column t1) (i_Columns idx)) (t_Indexes t1) /\
  Forall
    (fun fk =>
       Forall (has_column t1) (fk_Columns fk) /\
       exists j refT,
         list_find (fun t => t_Name t = fk_RefTable fk) tables1 = Some (j, refT) /\
         Forall (has_column refT) (fk_RefColumns fk))
    (t_ForeignKeys t1).

Definition wf_input (d : MySQL) (tables1 : list Table) : Prop :=
  Forall (wf_table d tables1) tables1.

(** The table [t2] has the name of [t1] and columns of the same names at
    the same positions. *)
Definition same_names (t1 : Table) (t2 : schema.Table) : Prop :=
  schema.t_Name t2 = t_Name t1 /\
  schema.c_Name <$> schema.t_Columns t2 = c_Name <$> t_Columns t1.

(** The connection after the queries of the ranges of [tables], in
    order, from [conn]. *)
Definition conn_after (tables : list Table) (conn : Conn) : Conn :=
  fold_left (fun c t => snd (pkRange c t)) tables conn.

(** [c1] is the first column of [cs] that is no column of [t1] by name. *)
Definition first_unknown (t1 : Table) (cs : list Column) (c1 : Column)
  : Prop :=
  exists pre post,
    cs = pre ++ c1 :: post /\ Forall (has_column t1) pre /\
    ~ has_column t1 c1.

(** The position [p] is the position of a column of [t2] named [name]. *)
Definition column_at (t2 : schema.Table) (name : string) (p : nat) : Prop :=
  exists c2, schema.t_Columns t2 !! p = Some c2 /\ schema.c_Name c2 = name.

(** *** The MySQL type mapper *)

Lemma atTypeC_inferred d c1 c2 :
  inferred c1 ->
  MySQL_atTypeC d c1 c2 =
  match c_Type c1 with
  | TypeBytes =>
      Ok (schema.SetType c2
            (bytes_type (if (c_Size c1 >? 0)%Z then c_Size c1 else MaxUint16)))
  | TypeJSON =>
      Ok (schema.SetType c2
            (Some (if (compareVersions (version d) "5.7.8" =? -1)%Z
                   then schema.BinaryType mysql.TypeLongBlob
                   else schema.JSONType mysql.TypeJSON)))
  | TypeTime =>
      Ok (schema.SetType
            (if snd (mariadb d)
                || ((compareVersions (version d) "8.0.2" =? -1)%Z
                    && bool_decide (c_Default c1 = None))
             then schema.SetNull c2 (String.eqb (c_Attr c1) "")
             else c2)
            (Some (schema.TimeType (scanTypeOr c1 mysql.TypeTimestamp))))
  | _ => MySQL_atTypeC d c1 c2
  end.
Proof.
  intros Hinf. unfold MySQL_atTypeC. red in Hinf. rewrite Hinf. simpl.
  destruct (c_Type c1); reflexivity.
Qed.

(** C5. A bytes column whose type is inferred gets the blob type of its
    size tier: tinyblob up to 2^8-1, blob up to 2^16-1, mediumblob below
    2^24, longblob up to 2^32-1; blob when [Size] is zero or negative. *)
Theorem C5_bytes_size_tiers d c1 c2 :
  c_Type c1 = TypeBytes ->
  inferred c1 ->
  exists t,
    MySQL_atTypeC d c1 c2 = Ok (schema.SetType c2 t) /\
    ((0 < c_Size c1 <= 2 ^ 8 - 1)%Z -> t = Some (schema.BinaryType "tinyblob")) /\
    ((2 ^ 8 - 1 < c_Size c1 <= 2 ^ 16 - 1)%Z -> t = Some (schema.BinaryType "blob")) /\
    ((2 ^ 16 - 1 < c_Size c1 < 2 ^ 24)%Z -> t = Some (schema.BinaryType "mediumblob")) /\
    ((2 ^ 24 <= c_Size c1 <= 2 ^ 32 - 1)%Z -> t = Some (schema.BinaryType "longblob")) /\
    ((c_Size c1 <= 0)%Z -> t = Some (schema.BinaryType "blob")).
Proof.
  intros Hty Hinf. rewrite (atTypeC_inferred d c1 c2 Hinf), Hty.
  eexists. split; [reflexivity|].
  unfold bytes_type, MaxUint8, MaxUint16, MaxUint32, mysql.TypeTinyBlob,
    mysql.TypeBlob, mysql.TypeMediumBlob, mysql.TypeLongBlob.
  repeat split; intros Hsz;
    repeat (case_match; try reflexivity; try lia).
Qed.

(** C7. A JSON column whose type is inferred gets the native json type,
    and longblob when the server version compares less than 5.7.8. *)
Theorem C7_json_by_version d c1 c2 :
  c_Type c1 = TypeJSON ->
  inferred c1 ->
  (compareVersions (version d) "5.7.8" = (-1)%Z ->
   MySQL_atTypeC d c1 c2 =
   Ok (schema.SetType c2 (Some (schema.BinaryType "longblob")))) /\
  (compareVersions (version d) "5.7.8" <> (-1)%Z ->
   MySQL_atTypeC d c1 c2 =
   Ok (schema.SetType c2 (Some (schema.JSONType "json")))).
Proof.
  intros Hty Hinf. rewrite (atTypeC_inferred d c1 c2 Hinf), Hty.
  split; intros Hv.
  - rewrite Hv. reflexivity.
  - apply Z.eqb_neq in Hv. rewrite Hv. reflexivity.
Qed.

(** C9. A bytes column whose [Size] exceeds 2^32-1 is accepted: the
    mapper returns no error and leaves the type of the column nil. *)
Theorem C9_oversized_bytes_nil_type d c1 c2 :
  c_Type c1 = TypeBytes ->
  inferred c1 ->
  (2 ^ 32 - 1 < c_Size c1)%Z ->
  exists c2',
    MySQL_atTypeC d c1 c2 = Ok c2' /\
    schema.c_Type c2' = None /\
    c2' = schema.SetType c2 None.
Proof.
  intros Hty Hinf Hsz. rewrite (atTypeC_inferred d c1 c2 Hinf), Hty.
  eexists. split; [reflexivity|].
  unfold bytes_type, MaxUint8, MaxUint16, MaxUint32.
  repeat (case_match; try lia). split; reflexivity.
Qed.

(** The time column on a MySQL server that is not MariaDB: the path of
    the condition that looks at the default of the column.  Before 8.0.2
    and without a default the column is made nullable exactly when its
    [Attr] is empty; with a default, or from 8.0.2 on, [Null] is kept. *)
Lemma atTypeC_time_mysql d c1 c2 :
  c_Type c1 = TypeTime ->
  inferred c1 ->
  snd (mariadb d) = false ->
  exists c2',
    MySQL_atTypeC d c1 c2 = Ok c2' /\
    schema.c_Null c2' =
      (if (compareVersions (version d) "8.0.2" =? -1)%Z
          && bool_decide (c_Default c1 = None)
       then String.eqb (c_Attr c1) ""
       else schema.c_Null c2).
Proof.
  intros Hty Hinf Hm. rewrite (atTypeC_inferred d c1 c2 Hinf), Hty, Hm.
  eexists. split; [reflexivity|]. simpl.
  destruct (_ && _); reflexivity.
Qed.

(** C3, on MariaDB.  The condition of [atTypeC] reads
    [maria || (older than 8.0.2 && no default)]: on MariaDB the default
    of the column is not looked at, and a time column that has a default
    and an empty [Attr] is made nullable all the same. *)
Theorem C3_mariadb_ignores_default d c1 c2 dv :
  c_Type c1 = TypeTime ->
  inferred c1 ->
  snd (mariadb d) = true ->
  c_Default c1 = Some dv ->
  c_Attr c1 = "" ->
  schema.c_Null c2 = false ->
  exists c2',
    MySQL_atTypeC d c1 c2 = Ok c2' /\ schema.c_Null c2' = true.
Proof.
  intros Hty Hinf Hm Hdef Hattr Hnull.
  rewrite (atTypeC_inferred d c1 c2 Hinf), Hty, Hm, Hattr.
  eexists. split; reflexivity.
Qed.

(** *** [atTable] *)

Lemma charsets_app t attrs :
  charsets (schema.set_t_Attrs t (schema.t_Attrs t ++ attrs)) =
  charsets t ++
  omap (fun a => match a with schema.Charset v => Some v | _ => None end) attrs.
Proof. unfold charsets. simpl. apply omap_app. Qed.

Lemma collations_app t attrs :
  collations (schema.set_t_Attrs t (schema.t_Attrs t ++ attrs)) =
  collations t ++
  omap (fun a => match a with schema.Collation v => Some v | _ => None end) attrs.
Proof. unfold collations. simpl. apply omap_app. Qed.

Lemma atTable_checks_attrs (checks : gmap string string) names t :
  charsets
    (fold_left
       (fun t2 name =>
          schema.AddChecks t2 [schema.Check name (default "" (checks !! name))])
       names t) = charsets t /\
  collations
    (fold_left
       (fun t2 name =>
          schema.AddChecks t2 [schema.Check name (default "" (checks !! name))])
       names t) = collations t.
Proof.
  revert t. induction names as [|name names IH]; intros t; simpl; [done|].
  destruct (IH (schema.AddChecks t
                  [schema.Check name (default "" (checks !! name))])) as [-> ->].
  unfold schema.AddChecks. rewrite charsets_app, collations_app. simpl.
  by rewrite !app_nil_r.
Qed.

(** The table [atTable] makes of a new table has one [Charset] and one
    [Collation] attribute: the defaults, each replaced by the value of
    the annotation when that value is not empty. *)
Lemma atTable_charset_collation d t1 name :
  charsets (MySQL_atTable d t1 (schema.NewTable name)) = [charset_of t1] /\
  collations (MySQL_atTable d t1 (schema.NewTable name)) = [collation_of t1].
Proof.
  unfold MySQL_atTable, charset_of, collation_of.
  destruct (t_Annotation t1) as [an|]; [|done].
  match goal with
  | |- charsets (fold_left ?f ?l ?t) = _ /\ _ =>
      destruct (atTable_checks_attrs (an_Checks an) l t) as [-> ->]
  end.
  destruct (String.eqb (an_Charset an) ""), (String.eqb (an_Collation an) ""),
    (String.eqb (an_Options an) ""), (String.eqb (an_Check an) ""); done.
Qed.

(** *** Loops that stop at the first error *)

Lemma traverse_Ok {A B : Type} (f : A -> result B) l l' :
  traverse f l = Ok l' <-> Forall2 (fun a b => f a = Ok b) l l'.
Proof.
  revert l'. induction l as [|a l IH]; intros l'; simpl.
  - split; [intros [= <-]; constructor | by inversion 1].
  - destruct (f a) as [b|e] eqn:Hfa; simpl.
    + destruct (traverse f l) as [bs|e]; simpl.
      * split.
        -- intros [= <-]. constructor; [done|]. by apply IH.
        -- inversion 1 as [|? b' ? bs' Hb Hbs]; subst.
           apply IH in Hbs. congruence.
      * split; [discriminate|].
        inversion 1 as [|? b' ? bs' Hb Hbs]; subst.
        apply IH in Hbs. discriminate.
    + split; [discriminate|]. inversion 1; congruence.
Qed.

(** [traverse] fails exactly with the error of the first element on
    which [f] fails. *)
Lemma traverse_Err {A B : Type} (f : A -> result B) l e :
  traverse f l = Err e <->
  exists pre a post,
    l = pre ++ a :: post /\ Forall (fun x => is_ok (f x) = true) pre /\
    f a = Err e.
Proof.
  induction l as [|a l IH]; simpl.
  - split; [discriminate|]. intros (pre & x & post & H & _).
    by destruct pre.
  - destruct (f a) as [b|e'] eqn:Hfa; simpl.
    + destruct (traverse f l) as [bs|e'] eqn:Htr; simpl.
      * split; [discriminate|].
        intros (pre & y & post & Heq & Hpre & Hy).
        destruct pre as [|x pre]; simplify_eq/=; [congruence|].
        inversion Hpre; subst.
        assert (Ok bs = Err e :> result (list B)) as Habs
          by (apply IH; eauto 6).
        discriminate.
      * split.
        -- intros [= ->]. destruct IH as [IH _].
           destruct (IH eq_refl) as (pre & y & post & -> & Hpre & Hy).
           exists (a :: pre), y, post. split_and!; [done| |done].
           constructor; [by rewrite Hfa|done].
        -- intros (pre & y & post & Heq & Hpre & Hy).
           destruct pre as [|x pre]; simplify_eq/=; [congruence|].
           inversion Hpre; subst.
           assert (Err e' = Err e :> result (list B)) as [= ->]
             by (apply IH; eauto 6).
           done.
    + split.
      * intros [= ->]. exists [], a, l. split_and!; [done|constructor|done].
      * intros (pre & y & post & Heq & Hpre & Hy).
        destruct pre as [|x pre]; simplify_eq/=.
        -- congruence.
        -- inversion Hpre as [|? ? Hx]; subst. by rewrite Hfa in Hx.
Qed.

(** *** [aColumns] under the MySQL builder *)

Lemma aColumn_MySQL d t1 c1 t2 :
  aColumn (MySQL_builder d) t1 c1 t2 =
  do c2 <- column_MySQL d c1;
  Ok (schema.mkTable (schema.t_Name t2) (schema.t_Attrs t2)
        (schema.t_Columns t2 ++ [c2])
        (schema.t_Indexes t2
           ++ implicit_indexes d t1 [c1] (length (schema.t_Columns t2)))
        (schema.t_PrimaryKey t2) (schema.t_ForeignKeys t2)).
Proof.
  unfold aColumn, column_MySQL, column_new, column_finish. simpl atTypeC.
  destruct (MySQL_atTypeC d c1 _) as [c2|e]; [|reflexivity].
  simpl. unfold MySQL_atUniqueC, MySQL_atIncrementC, explicit_unique.
  destruct (c_Unique c1); simpl.
  - destruct (existsb _ _); simpl;
      destruct t2; simpl; rewrite ?app_nil_r; reflexivity.
  - destruct t2; simpl; rewrite ?app_nil_r; reflexivity.
Qed.

(** The loop of [aColumns] appends one translated column per column of
    [cs], in the order of [cs], and the implicit indexes of the unique
    ones; nothing else of the table changes.  It fails with the error of
    the first column that [atTypeC] refuses. *)
Lemma aColumns_loop_MySQL d t1 cs : forall t2,
  aColumns_loop (MySQL_builder d) t1 cs t2 =
  do cols <- traverse (column_MySQL d) cs;
  Ok (schema.mkTable (schema.t_Name t2) (schema.t_Attrs t2)
        (schema.t_Columns t2 ++ cols)
        (schema.t_Indexes t2
           ++ implicit_indexes d t1 cs (length (schema.t_Columns t2)))
        (schema.t_PrimaryKey t2) (schema.t_ForeignKeys t2)).
Proof.
  induction cs as [|c1 cs IH]; intros t2.
  - simpl. destruct t2; simpl. by rewrite !app_nil_r.
  - cbn [aColumns_loop traverse]. rewrite aColumn_MySQL.
    destruct (column_MySQL d c1) as [c2|e]; [|reflexivity].
    cbn [bind]. rewrite IH.
    destruct (traverse (column_MySQL d) cs) as [cols|e]; [|reflexivity].
    cbn [bind schema.t_Name schema.t_Attrs schema.t_Columns schema.t_Indexes
           schema.t_PrimaryKey schema.t_ForeignKeys].
    rewrite length_app, <- !app_assoc. cbn [length].
    replace (length (schema.t_Columns t2) + 1) with
      (S (length (schema.t_Columns t2))) by lia.
    cbn [implicit_indexes]. rewrite app_nil_r. reflexivity.
Qed.

(** [atTypeC] sets the type, and for some types the nullability or the
    collation; it keeps the name and the default of the column. *)
Lemma atTypeC_MySQL_keeps d c1 c0 c2 :
  MySQL_atTypeC d c1 c0 = Ok c2 ->
  schema.c_Name c2 = schema.c_Name c0 /\
  schema.c_Default c2 = schema.c_Default c0.
Proof.
  unfold MySQL_atTypeC. destruct (negb _).
  - destruct (ParseType _); simpl; [|discriminate]. by intros [= <-].
  - destruct (c_Type c1); simpl;
      try (intros [= <-]; simpl; try done; by repeat case_match).
    all: destruct (ParseType _); simpl; [|discriminate]; by intros [= <-].
Qed.

Lemma column_new_fields c1 :
  schema.c_Name (column_new c1) = c_Name c1 /\
  schema.c_Null (column_new c1) = c_Nullable c1 /\
  schema.c_Default (column_new c1) = None.
Proof. unfold column_new. destruct (String.eqb _ _); done. Qed.

Lemma column_MySQL_name d c1 c2 :
  column_MySQL d c1 = Ok c2 -> schema.c_Name c2 = c_Name c1.
Proof.
  unfold column_MySQL.
  destruct (MySQL_atTypeC d c1 (column_new c1)) as [c2'|] eqn:Hty;
    [|discriminate].
  intros [= <-].
  apply atTypeC_MySQL_keeps in Hty as [Hn _].
  destruct (column_new_fields c1) as [Hn0 _]. rewrite Hn0 in Hn.
  unfold column_finish, aDefault.
  repeat case_match; simpl; done.
Qed.

Lemma columns_MySQL_names d cs cols :
  traverse (column_MySQL d) cs = Ok cols ->
  schema.c_Name <$> cols = c_Name <$> cs.
Proof.
  rewrite traverse_Ok.
  induction 1 as [|c1 c2 cs cols H _ IH]; [done|].
  rewrite !fmap_cons. f_equal; [by eapply column_MySQL_name | exact IH].
Qed.

(** *** The second pass: foreign keys *)

Lemma same_shape_refl ts : same_shape ts ts.
Proof. apply Forall_Forall2_diag, Forall_forall. done. Qed.

Lemma same_shape_trans ts1 ts2 ts3 :
  same_shape ts1 ts2 -> same_shape ts2 ts3 -> same_shape ts1 ts3.
Proof.
  unfold same_shape. intros H12. revert ts3.
  induction H12 as [|a b l1 l2 [Hn Hc] _ IH]; intros ts3 H23.
  - inversion H23; constructor.
  - inversion H23 as [|? c ? l3 [Hn' Hc'] Hrest]; subst.
    constructor; [split; congruence|]. by apply IH.
Qed.

Lemma same_shape_insert ts i t fks :
  ts !! i = Some t ->
  same_shape ts (<[i := schema.AddForeignKeys t fks]> ts).
Proof.
  intros Hi. unfold same_shape. apply Forall2_same_length_lookup_2.
  - by rewrite length_insert.
  - intros k a b Ha Hb. destruct (decide (i = k)) as [->|Hne].
    + rewrite list_lookup_insert_eq in Hb by (by eapply lookup_lt_Some).
      by simplify_eq.
    + rewrite list_lookup_insert_ne in Hb by done. by simplify_eq.
Qed.

Lemma same_shape_find name ts ts' :
  same_shape ts ts' ->
  match list_find (fun t => schema.t_Name t = name) ts with
  | Some (j, refT) =>
      exists refT',
        list_find (fun t => schema.t_Name t = name) ts' = Some (j, refT') /\
        schema.t_Columns refT = schema.t_Columns refT'
  | None => list_find (fun t => schema.t_Name t = name) ts' = None
  end.
Proof.
  induction 1 as [|t t' ts ts' [Hn Hc] _ IH]; [done|].
  cbn [list_find]. rewrite <- Hn.
  destruct (decide (schema.t_Name t = name)) as [_|_]; [by eexists|].
  destruct (list_find _ ts) as [[j refT]|]; simpl.
  - destruct IH as (refT' & -> & Hcols). by eexists.
  - by rewrite IH.
Qed.

Lemma fkColumns_columns symbol cs t2 t2' : forall fk2,
  schema.t_Columns t2 = schema.t_Columns t2' ->
  fkColumns symbol cs t2 fk2 = fkColumns symbol cs t2' fk2.
Proof.
  induction cs as [|c1 cs IH]; intros fk2 Hc; [done|].
  simpl. unfold schema.Table_Column. rewrite <- Hc.
  destruct (fst <$> list_find _ _); [by apply IH|done].
Qed.

Lemma fkRefColumns_columns symbol cs t2 t2' : forall fk2,
  schema.t_Columns t2 = schema.t_Columns t2' ->
  fkRefColumns symbol cs t2 fk2 = fkRefColumns symbol cs t2' fk2.
Proof.
  induction cs as [|c1 cs IH]; intros fk2 Hc; [done|].
  simpl. unfold schema.Table_Column. rewrite <- Hc.
  destruct (fst <$> list_find _ _); [by apply IH|done].
Qed.

(** The foreign key built from [fk1] depends on the shape of the table
    set only. *)
Lemma aForeignKey_shape ts ts' i t2 t2' fk1 :
  same_shape ts ts' ->
  schema.t_Columns t2 = schema.t_Columns t2' ->
  aForeignKey ts i t2 fk1 = aForeignKey ts' i t2' fk1.
Proof.
  intros Hs Hc. unfold aForeignKey.
  rewrite (fkColumns_columns _ _ t2 t2' _ Hc).
  destruct (fkColumns _ _ t2' _) as [fk2|e]; [|done]. simpl.
  pose proof (same_shape_find (fk_RefTable fk1) ts ts' Hs) as Hf.
  destruct (list_find _ ts) as [[j refT]|].
  - destruct Hf as (refT' & -> & Hcols). by apply fkRefColumns_columns.
  - by rewrite Hf.
Qed.

Lemma traverse_ext {A B : Type} (f g : A -> result B) l :
  (forall a, f a = g a) -> traverse f l = traverse g l.
Proof. intros H. induction l as [|a l IH]; simpl; [done|]. by rewrite H, IH. Qed.

(** The loop over the foreign keys of the table at position [i] resolves
    each of them against the set as it was when the loop started, and
    appends them to the table, in order; it stops at the first one that
    does not resolve. *)
Lemma aForeignKeys_traverse fks : forall i ts t2,
  ts !! i = Some t2 ->
  aForeignKeys fks i ts =
  do fk2s <- traverse (aForeignKey ts i t2) fks;
  Ok (<[i := schema.AddForeignKeys t2 fk2s]> ts).
Proof.
  induction fks as [|fk1 fks IH]; intros i ts t2 Hi.
  - simpl. f_equal. symmetry. apply list_insert_id.
    rewrite Hi. f_equal. destruct t2; unfold schema.AddForeignKeys; simpl.
    by rewrite app_nil_r.
  - cbn [aForeignKeys traverse]. rewrite Hi.
    destruct (aForeignKey ts i t2 fk1) as [fk2|e]; [|done]. cbn [bind].
    assert (Hlt : i < length ts) by (by eapply lookup_lt_Some).
    rewrite (IH i _ (schema.AddForeignKeys t2 [fk2]))
      by (by apply list_lookup_insert_eq).
    rewrite (traverse_ext _ (aForeignKey ts i t2)).
    2:{ intros fk. symmetry. apply aForeignKey_shape.
        - by apply same_shape_insert.
        - done. }
    destruct (traverse _ fks) as [fk2s|e]; [|done]. cbn [bind].
    rewrite list_insert_insert_eq. do 2 f_equal.
    destruct t2; unfold schema.AddForeignKeys; simpl. by rewrite <- app_assoc.
Qed.

(** The second loop of [aTables], started at position [i] on a set that
    has the shape of [built] and still holds the tables of [built] from [i]
    on.  Every table gets its foreign keys, resolved against [built], in
    order; the loop fails with the error of the first table one of whose
    foreign keys does not resolve. *)
Lemma aTables_link_inv built : forall tables1 i state,
  same_shape built state ->
  i + length tables1 = length built ->
  (forall k, i <= k -> state !! k = built !! k) ->
  match aTables_link tables1 i state with
  | Ok out =>
      same_shape built out /\
      (forall k, k < i -> out !! k = state !! k) /\
      (forall k t1, tables1 !! k = Some t1 ->
         exists b fk2s,
           built !! (i + k) = Some b /\
           traverse (aForeignKey built (i + k) b) (t_ForeignKeys t1) = Ok fk2s /\
           out !! (i + k) = Some (schema.AddForeignKeys b fk2s))
  | Err e =>
      exists k t1 b,
        tables1 !! k = Some t1 /\ built !! (i + k) = Some b /\
        traverse (aForeignKey built (i + k) b) (t_ForeignKeys t1) = Err e /\
        (forall k' t1', k' < k -> tables1 !! k' = Some t1' ->
           exists b', built !! (i + k') = Some b' /\
             is_ok (traverse (aForeignKey built (i + k') b') (t_ForeignKeys t1'))
             = true)
  end.
Proof.
  induction tables1 as [|t1 rest IH]; intros i state Hshape Hlen Hrest.
  - simpl. split_and!; [done|done|]. intros k t1 Hk. by destruct k.
  - cbn [aTables_link]. cbn [length] in Hlen.
    destruct (lookup_lt_is_Some_2 built i) as [b Hb]; [lia|].
    assert (Hsb : state !! i = Some b) by (rewrite Hrest; [done|lia]).
    rewrite (aForeignKeys_traverse _ _ _ _ Hsb).
    rewrite (traverse_ext _ (aForeignKey built i b))
      by (intros fk; symmetry; by apply aForeignKey_shape).
    destruct (traverse (aForeignKey built i b) (t_ForeignKeys t1))
      as [fk2s|e] eqn:Htr; cbn [bind].
    + set (state' := <[i := schema.AddForeignKeys b fk2s]> state).
      assert (Hshape' : same_shape built state').
      { eapply same_shape_trans; [exact Hshape|]. by apply same_shape_insert. }
      assert (Hrest' : forall k, S i <= k -> state' !! k = built !! k).
      { intros k Hk. unfold state'. rewrite list_lookup_insert_ne by lia.
        apply Hrest. lia. }
      specialize (IH (S i) state' Hshape' ltac:(lia) Hrest').
      destruct (aTables_link rest (S i) state') as [out|e].
      * destruct IH as (Hso & Hlow & Hhigh). split_and!; [done| |].
        -- intros k Hk. rewrite Hlow by lia. unfold state'.
           by rewrite list_lookup_insert_ne by lia.
        -- intros [|k] t Hk; simpl in Hk.
           ++ simplify_eq. rewrite Nat.add_0_r. exists b, fk2s.
              split_and!; [done|done|]. rewrite Hlow by lia. unfold state'.
              apply list_lookup_insert_eq. by eapply lookup_lt_Some.
           ++ destruct (Hhigh k t Hk) as (b' & fk2s' & ? & ? & ?).
              replace (i + S k) with (S i + k) by lia. eauto.
      * destruct IH as (k & t & b' & Hk & Hb' & Herr & Hbefore).
        exists (S k), t, b'. replace (i + S k) with (S i + k) by lia.
        split_and!; [done|done|done|].
        intros [|k'] t' Hlt Hk'; simpl in Hk'.
        -- simplify_eq. rewrite Nat.add_0_r. exists b. by rewrite Htr.
        -- replace (i + S k') with (S i + k') by lia.
           apply (Hbefore k' t'); [lia|done].
    + exists 0, t1, b. rewrite Nat.add_0_r. split_and!; [done|done|done|].
      intros k' t' Hlt. lia.
Qed.

(** *** One foreign key *)

Lemma fkColumns_traverse symbol cs t2 : forall fk2,
  fkColumns symbol cs t2 fk2 =
  do ps <- traverse (lookup_column (ErrFkColumn symbol) t2) cs;
  Ok (schema.FK_AddColumns fk2 ps).
Proof.
  induction cs as [|c1 cs IH]; intros fk2.
  - simpl. destruct fk2; unfold schema.FK_AddColumns; simpl.
    by rewrite app_nil_r.
  - cbn [fkColumns traverse]. unfold lookup_column at 1.
    destruct (schema.Table_Column t2 (c_Name c1)) as [p|]; [|done].
    cbn [bind]. rewrite IH. destruct (traverse _ cs) as [ps|e]; [|done].
    cbn [bind]. destruct fk2; unfold schema.FK_AddColumns; simpl.
    by rewrite <- app_assoc.
Qed.

Lemma fkRefColumns_traverse symbol cs refT : forall fk2,
  fkRefColumns symbol cs refT fk2 =
  do ps <- traverse (lookup_column (ErrFkRefColumn symbol) refT) cs;
  Ok (schema.AddRefColumns fk2 ps).
Proof.
  induction cs as [|c1 cs IH]; intros fk2.
  - simpl. destruct fk2; unfold schema.AddRefColumns; simpl.
    by rewrite app_nil_r.
  - cbn [fkRefColumns traverse]. unfold lookup_column at 1.
    destruct (schema.Table_Column refT (c_Name c1)) as [p|]; [|done].
    cbn [bind]. rewrite IH. destruct (traverse _ cs) as [ps|e]; [|done].
    cbn [bind]. destruct fk2; unfold schema.AddRefColumns; simpl.
    by rewrite <- app_assoc.
Qed.

(** [aForeignKey] as three lookups in a row. *)
Lemma aForeignKey_eq built i t2 fk1 :
  aForeignKey built i t2 fk1 =
  do ps <- traverse (lookup_column (ErrFkColumn (fk_Symbol fk1)) t2)
             (fk_Columns fk1);
  match list_find (fun t => schema.t_Name t = fk_RefTable fk1) built with
  | None => Err (ErrFkRefTable (fk_Symbol fk1) (fk_RefTable fk1))
  | Some (j, refT) =>
      do rs <- traverse (lookup_column (ErrFkRefColumn (fk_Symbol fk1)) refT)
                 (fk_RefColumns fk1);
      Ok (schema.mkForeignKey (fk_Symbol fk1) (Some i) ps (Some j) rs
            (fk_OnUpdate fk1) (fk_OnDelete fk1))
  end.
Proof.
  unfold aForeignKey. rewrite fkColumns_traverse.
  destruct (traverse _ (fk_Columns fk1)) as [ps|e]; [|done]. cbn [bind].
  destruct (list_find _ built) as [[j refT]|]; [|done].
  rewrite fkRefColumns_traverse.
  destruct (traverse _ (fk_RefColumns fk1)) as [rs|e]; done.
Qed.

Lemma lookup_columns_Ok errorf t2 cs ps :
  traverse (lookup_column errorf t2) cs = Ok ps <->
  Forall2 (fun c1 p => schema.Table_Column t2 (c_Name c1) = Some p) cs ps.
Proof.
  rewrite traverse_Ok.
  split; intros H; (eapply Forall2_impl; [exact H|]); intros c1 p;
    unfold lookup_column;
    destruct (schema.Table_Column t2 (c_Name c1)); congruence.
Qed.

Lemma lookup_column_is_ok errorf t2 c1 :
  is_ok (lookup_column errorf t2 c1) = true <->
  is_Some (schema.Table_Column t2 (c_Name c1)).
Proof.
  unfold lookup_column. destruct (schema.Table_Column t2 (c_Name c1)); simpl.
  - split; [by eexists|done].
  - split; [done|]. by intros [? ?].
Qed.

Lemma lookup_columns_all errorf t2 cs :
  Forall (fun c1 => is_Some (schema.Table_Column t2 (c_Name c1))) cs ->
  exists ps, traverse (lookup_column errorf t2) cs = Ok ps.
Proof.
  induction 1 as [|c1 cs [p Hp] _ [ps IH]]; [by exists []|].
  exists (p :: ps). cbn [traverse]. unfold lookup_column at 1.
  by rewrite Hp, IH.
Qed.

Lemma lookup_columns_first_missing errorf t2 cs c1 :
  first_missing t2 cs c1 ->
  traverse (lookup_column errorf t2) cs = Err (errorf (c_Name c1)).
Proof.
  intros (pre & post & -> & Hpre & Hc1). apply traverse_Err.
  exists pre, c1, post. split_and!; [done| |].
  - eapply Forall_impl; [exact Hpre|]. intros c. apply lookup_column_is_ok.
  - unfold lookup_column. by rewrite Hc1.
Qed.

Lemma lookup_columns_Err errorf t2 cs e :
  traverse (lookup_column errorf t2) cs = Err e ->
  exists c1, first_missing t2 cs c1 /\ e = errorf (c_Name c1).
Proof.
  intros (pre & c1 & post & -> & Hpre & Hc1)%traverse_Err.
  unfold lookup_column in Hc1.
  destruct (schema.Table_Column t2 (c_Name c1)) eqn:Hl; [done|].
  exists c1. split; [|congruence]. exists pre, post. split_and!; [done| |done].
  eapply Forall_impl; [exact Hpre|]. intros c. apply lookup_column_is_ok.
Qed.

Lemma aForeignKey_Ok built i t2 fk1 fk2 :
  aForeignKey built i t2 fk1 = Ok fk2 -> fk_resolved built i t2 fk1 fk2.
Proof.
  rewrite aForeignKey_eq.
  destruct (traverse _ (fk_Columns fk1)) as [ps|e] eqn:Hps; [|done].
  cbn [bind].
  destruct (list_find _ built) as [[j refT]|] eqn:Hfind; [|done].
  destruct (traverse _ (fk_RefColumns fk1)) as [rs|e] eqn:Hrs; [|done].
  intros [= <-]. apply lookup_columns_Ok in Hps, Hrs.
  repeat split; try done. by exists j, refT.
Qed.

Lemma aForeignKey_is_ok built i t2 fk1 :
  is_ok (aForeignKey built i t2 fk1) = true <-> fk_resolves built t2 fk1.
Proof.
  rewrite aForeignKey_eq. split.
  - destruct (traverse _ (fk_Columns fk1)) as [ps|e] eqn:Hps; [|done].
    cbn [bind].
    destruct (list_find _ built) as [[j refT]|] eqn:Hfind; [|done].
    destruct (traverse _ (fk_RefColumns fk1)) as [rs|e] eqn:Hrs; [|done].
    intros _. apply lookup_columns_Ok in Hps, Hrs. split.
    + eapply Forall2_Forall_l; [exact Hps|]. apply Forall_forall.
      intros p _ c1 Hc. by eexists.
    + exists j, refT. split; [done|].
      eapply Forall2_Forall_l; [exact Hrs|]. apply Forall_forall.
      intros p _ c1 Hc. by eexists.
  - intros [Hloc (j & refT & Hfind & Href)].
    destruct (lookup_columns_all (ErrFkColumn (fk_Symbol fk1)) _ _ Hloc)
      as [ps ->].
    cbn [bind]. rewrite Hfind.
    destruct (lookup_columns_all (ErrFkRefColumn (fk_Symbol fk1)) _ _ Href)
      as [rs ->].
    done.
Qed.

(** The error of a foreign key that does not resolve carries the symbol of
    the foreign key and the name of the first thing not found: a local
    column, else the referenced table, else a referenced column. *)
Lemma aForeignKey_Err built i t2 fk1 e :
  aForeignKey built i t2 fk1 = Err e ->
  (exists c1,
     first_missing t2 (fk_Columns fk1) c1 /\
     e = ErrFkColumn (fk_Symbol fk1) (c_Name c1)) \/
  (Forall (fun t => schema.t_Name t <> fk_RefTable fk1) built /\
   e = ErrFkRefTable (fk_Symbol fk1) (fk_RefTable fk1)) \/
  (exists j refT c1,
     list_find (fun t => schema.t_Name t = fk_RefTable fk1) built
     = Some (j, refT) /\
     first_missing refT (fk_RefColumns fk1) c1 /\
     e = ErrFkRefColumn (fk_Symbol fk1) (c_Name c1)).
Proof.
  rewrite aForeignKey_eq.
  destruct (traverse _ (fk_Columns fk1)) as [ps|e'] eqn:Hps; cbn [bind].
  - destruct (list_find _ built) as [[j refT]|] eqn:Hfind.
    + destruct (traverse _ (fk_RefColumns fk1)) as [rs|e''] eqn:Hrs;
        cbn [bind]; [done|].
      intros [= ->]. right. right.
      apply lookup_columns_Err in Hrs as (c1 & Hmiss & ->).
      by exists j, refT, c1.
    + intros [= <-]. right. left. split; [|done].
      exact (proj1 (list_find_None _ _) Hfind).
  - intros [= ->]. left. by apply lookup_columns_Err in Hps.
Qed.

(** *** [aTables] and the foreign keys *)

Lemma aTables_build_Ok m b : forall tables1 conn built conn',
  aTables_build m b tables1 conn = (Ok built, conn') ->
  Forall2 (fun t1 t2 => exists c c', aTable m b t1 c = (Ok t2, c'))
    tables1 built.
Proof.
  induction tables1 as [|t1 rest IH]; intros conn built conn' H.
  - simpl in H. injection H as <- <-. constructor.
  - cbn [aTables_build] in H.
    destruct (aTable m b t1 conn) as [[t2|e] c1] eqn:Ht; [|done].
    destruct (aTables_build m b rest c1) as [[ts|e] c2] eqn:Hr; [|done].
    injection H as <- <-. constructor; [by eauto|]. by eapply IH.
Qed.

Lemma aTables_build_length m b tables1 conn built conn' :
  aTables_build m b tables1 conn = (Ok built, conn') ->
  length built = length tables1.
Proof. intros H%aTables_build_Ok. symmetry. by eapply Forall2_length. Qed.

(** The second loop fails with the error of the first foreign key, in
    the order of the tables and of their foreign keys, that does not
    resolve. *)
Lemma aTables_link_first built tables1 i j t1 t2 fk1 e :
  length built = length tables1 ->
  tables1 !! i = Some t1 -> built !! i = Some t2 ->
  t_ForeignKeys t1 !! j = Some fk1 ->
  (forall i' j' t1' t2' fk1',
     tables1 !! i' = Some t1' -> built !! i' = Some t2' ->
     t_ForeignKeys t1' !! j' = Some fk1' ->
     i' < i \/ (i' = i /\ j' < j) -> fk_resolves built t2' fk1') ->
  aForeignKey built i t2 fk1 = Err e ->
  aTables_link tables1 0 built = Err e.
Proof.
  intros Hlen Ht1 Ht2 Hfk Hbefore Herr.
  assert (Htr : traverse (aForeignKey built i t2) (t_ForeignKeys t1) = Err e).
  { apply traverse_Err.
    exists (take j (t_ForeignKeys t1)), fk1, (drop (S j) (t_ForeignKeys t1)).
    split_and!; [|apply Forall_lookup_2|done].
    - rewrite <- (take_drop_middle _ _ _ Hfk) at 1. done.
    - intros j' fk' [Hj' Hlt]%lookup_take_Some.
      apply aForeignKey_is_ok. eapply (Hbefore i j'); eauto. }
  pose proof (aTables_link_inv built tables1 0 built (same_shape_refl _)
                ltac:(simpl; lia) (fun k _ => eq_refl)) as Hinv.
  destruct (aTables_link tables1 0 built) as [out|e'].
  - destruct Hinv as (_ & _ & Hall).
    destruct (Hall i t1 Ht1) as (b' & fk2s & Hb' & Hok & _).
    simpl in Hb', Hok. simplify_eq. congruence.
  - destruct Hinv as (k & t & b' & Hk & Hb' & Herr' & Hprev).
    simpl in Hb', Herr'.
    destruct (lt_eq_lt_dec k i) as [[Hlt | ->] | Hgt].
    + exfalso.
      apply traverse_Err in Herr' as (pre & fk & post & Hsplit & _ & Hfail).
      assert (Hres : fk_resolves built b' fk).
      { eapply (Hbefore k (length pre)); eauto.
        rewrite Hsplit. by apply list_lookup_middle. }
      apply (aForeignKey_is_ok built k) in Hres. by rewrite Hfail in Hres.
    + simplify_eq. congruence.
    + exfalso. destruct (Hprev i t1 Hgt Ht1) as (b'' & Hb'' & Hok).
      cbn [Nat.add] in Hb'', Hok. simplify_eq. by rewrite Htr in Hok.
Qed.

(** C1. Once the tables are built, a foreign key that does not resolve
    makes [aTables] fail: (1) whenever a local column, the referenced table
    or a referenced column of some foreign key is not found; (2) with the
    error of the first such foreign key, which carries its symbol and the
    name of the first thing not found: a local column, else the referenced
    table, else a referenced column.  (3) Every error [aTables] returns
    then is of that kind: it names a foreign key of the input and a table
    or column that is indeed not found.  (4) When [aTables] succeeds every
    foreign key of the input is in its output table, resolved, in order:
    none is dropped. *)
Theorem C1_dangling_foreign_key_fails m b tables1 conn built conn' :
  aTables_build m b tables1 conn = (Ok built, conn') ->
  (forall i t1 t2 fk1,
     tables1 !! i = Some t1 -> built !! i = Some t2 ->
     In fk1 (t_ForeignKeys t1) ->
     Exists (fun c1 => schema.Table_Column t2 (c_Name c1) = None)
       (fk_Columns fk1)
     \/ Forall (fun t => schema.t_Name t <> fk_RefTable fk1) built
     \/ (exists j refT,
           list_find (fun t => schema.t_Name t = fk_RefTable fk1) built
           = Some (j, refT) /\
           Exists (fun c1 => schema.Table_Column refT (c_Name c1) = None)
             (fk_RefColumns fk1)) ->
     exists e, aTables m b tables1 conn = (Err e, conn')) /\
  (forall i j t1 t2 fk1,
     tables1 !! i = Some t1 -> built !! i = Some t2 ->
     t_ForeignKeys t1 !! j = Some fk1 ->
     (forall i' j' t1' t2' fk1',
        tables1 !! i' = Some t1' -> built !! i' = Some t2' ->
        t_ForeignKeys t1' !! j' = Some fk1' ->
        i' < i \/ (i' = i /\ j' < j) -> fk_resolves built t2' fk1') ->
     (forall c1,
        first_missing t2 (fk_Columns fk1) c1 ->
        aTables m b tables1 conn =
        (Err (ErrFkColumn (fk_Symbol fk1) (c_Name c1)), conn')) /\
     (Forall (fun c1 => is_Some (schema.Table_Column t2 (c_Name c1)))
        (fk_Columns fk1) ->
      Forall (fun t => schema.t_Name t <> fk_RefTable fk1) built ->
      aTables m b tables1 conn =
      (Err (ErrFkRefTable (fk_Symbol fk1) (fk_RefTable fk1)), conn')) /\
     (forall j' refT c1,
        Forall (fun c1 => is_Some (schema.Table_Column t2 (c_Name c1)))
          (fk_Columns fk1) ->
        list_find (fun t => schema.t_Name t = fk_RefTable fk1) built
        = Some (j', refT) ->
        first_missing refT (fk_RefColumns fk1) c1 ->
        aTables m b tables1 conn =
        (Err (ErrFkRefColumn (fk_Symbol fk1) (c_Name c1)), conn'))) /\
  (forall e,
     aTables m b tables1 conn = (Err e, conn') ->
     exists i t1 t2 fk1,
       tables1 !! i = Some t1 /\ built !! i = Some t2 /\
       In fk1 (t_ForeignKeys t1) /\
       ((exists c1,
           first_missing t2 (fk_Columns fk1) c1 /\
           e = ErrFkColumn (fk_Symbol fk1) (c_Name c1)) \/
        (Forall (fun t => schema.t_Name t <> fk_RefTable fk1) built /\
         e = ErrFkRefTable (fk_Symbol fk1) (fk_RefTable fk1)) \/
        (exists j refT c1,
           list_find (fun t => schema.t_Name t = fk_RefTable fk1) built
           = Some (j, refT) /\
           first_missing refT (fk_RefColumns fk1) c1 /\
           e = ErrFkRefColumn (fk_Symbol fk1) (c_Name c1)))) /\
  (forall out,
     aTables m b tables1 conn = (Ok out, conn') ->
     length out = length tables1 /\
     forall i t1 t2,
       tables1 !! i = Some t1 -> built !! i = Some t2 ->
       exists fk2s,
         out !! i = Some (schema.AddForeignKeys t2 fk2s) /\
         Forall2 (fk_resolved built i t2) (t_ForeignKeys t1) fk2s).
Proof.
  intros Hbuild. pose proof (aTables_build_length _ _ _ _ _ _ Hbuild) as Hlen.
  unfold aTables. rewrite Hbuild.
  pose proof (aTables_link_inv built tables1 0 built (same_shape_refl _)
                ltac:(simpl; lia) (fun k _ => eq_refl)) as Hinv.
  split_and!.
  - intros i t1 t2 fk1 Ht1 Ht2 Hin Hdangling.
    destruct (aTables_link tables1 0 built) as [out|e]; [|by eexists].
    exfalso. destruct Hinv as (_ & _ & Hall).
    destruct (Hall i t1 Ht1) as (b' & fk2s & Hb' & Hok & _).
    simpl in Hb', Hok. simplify_eq.
    apply traverse_Ok in Hok.
    apply list_elem_of_In, list_elem_of_lookup in Hin as [j Hj].
    destruct (Forall2_lookup_l _ _ _ _ _ Hok Hj) as (fk2 & _ & Hfk2).
    assert (Hres : fk_resolves built t2 fk1)
      by (apply (aForeignKey_is_ok built i); by rewrite Hfk2).
    destruct Hres as [Hloc (j' & refT & Hfind & Href)].
    destruct Hdangling as [Hex|[Hnone|(j'' & refT' & Hfind' & Hex)]].
    + apply Exists_exists in Hex as (c1 & Hc1 & Hmiss).
      rewrite Forall_forall in Hloc. destruct (Hloc c1 Hc1) as [p Hp].
      congruence.
    + pose proof (proj2 (list_find_None _ _) Hnone) as Hn. congruence.
    + rewrite Hfind in Hfind'. simplify_eq.
      apply Exists_exists in Hex as (c1 & Hc1 & Hmiss).
      rewrite Forall_forall in Href. destruct (Href c1 Hc1) as [p Hp].
      congruence.
  - intros i j t1 t2 fk1 Ht1 Ht2 Hfk Hbefore.
    pose proof (fun e => aTables_link_first built tables1 i j t1 t2 fk1 e
                            Hlen Ht1 Ht2 Hfk Hbefore) as Hfirst.
    split_and!.
    + intros c1 Hmiss. rewrite (Hfirst (ErrFkColumn (fk_Symbol fk1) (c_Name c1))).
      * done.
      * rewrite aForeignKey_eq.
        by rewrite (lookup_columns_first_missing _ _ _ _ Hmiss).
    + intros Hloc Hnone.
      rewrite (Hfirst (ErrFkRefTable (fk_Symbol fk1) (fk_RefTable fk1))).
      * done.
      * rewrite aForeignKey_eq.
        destruct (lookup_columns_all (ErrFkColumn (fk_Symbol fk1)) _ _ Hloc)
          as [ps ->].
        cbn [bind]. by rewrite (proj2 (list_find_None _ _) Hnone).
    + intros j' refT c1 Hloc Hfind Hmiss.
      rewrite (Hfirst (ErrFkRefColumn (fk_Symbol fk1) (c_Name c1))).
      * done.
      * rewrite aForeignKey_eq.
        destruct (lookup_columns_all (ErrFkColumn (fk_Symbol fk1)) _ _ Hloc)
          as [ps ->].
        cbn [bind]. rewrite Hfind.
        by rewrite (lookup_columns_first_missing _ _ _ _ Hmiss).
  - intros e He.
    destruct (aTables_link tables1 0 built) as [out|e']; [done|].
    injection He as ->.
    destruct Hinv as (k & t1 & t2 & Hk & Ht2 & Herr & _). simpl in Ht2, Herr.
    apply traverse_Err in Herr as (pre & fk1 & post & Hsplit & _ & Hfail).
    exists k, t1, t2, fk1. split_and!; [done|done| |].
    + rewrite Hsplit. apply in_or_app. right. by left.
    + by eapply aForeignKey_Err.
  - intros out Hout.
    destruct (aTables_link tables1 0 built) as [out'|e]; [|done].
    injection Hout as ->. destruct Hinv as (Hshape & _ & Hall). split.
    + rewrite <- Hlen. symmetry. by eapply Forall2_length.
    + intros i t1 t2 Ht1 Ht2.
      destruct (Hall i t1 Ht1) as (b' & fk2s & Hb' & Hok & Hout).
      simpl in Hb', Hok, Hout. simplify_eq. exists fk2s. split; [done|].
      apply traverse_Ok in Hok. eapply Forall2_impl; [exact Hok|].
      intros fk1 fk2. apply aForeignKey_Ok.
Qed.

(** *** [aIndexes] and one table under the MySQL builder *)

Lemma aPrimaryKey_traverse cs t2 : forall pk,
  aPrimaryKey cs t2 pk =
  do ps <- traverse (lookup_column ErrPrimaryKeyColumn t2) cs;
  Ok (pk ++ ps).
Proof.
  induction cs as [|c1 cs IH]; intros pk.
  - simpl. by rewrite app_nil_r.
  - cbn [aPrimaryKey traverse]. unfold lookup_column at 1.
    destruct (schema.Table_Column t2 (c_Name c1)) as [p|]; [|done].
    cbn [bind]. rewrite IH. destruct (traverse _ cs) as [ps|e]; [|done].
    cbn [bind]. by rewrite <- app_assoc.
Qed.

Lemma atIndex_loop_traverse prefix name cs t2 : forall idx2,
  MySQL_atIndex_loop prefix name cs t2 idx2 =
  do parts <- traverse (index_part prefix name t2) cs;
  Ok (schema.AddParts idx2 parts).
Proof.
  induction cs as [|c1 cs IH]; intros idx2; [done|].
  cbn [MySQL_atIndex_loop traverse]. unfold index_part at 1, lookup_column.
  destruct (schema.Table_Column t2 (c_Name c1)) as [p|]; [|done].
  cbn [bind]. rewrite IH. destruct (traverse _ cs) as [parts|e]; [|done].
  cbn [bind]. by destruct (prefix !! c_Name c1).
Qed.

Lemma lookup_column_columns errorf t2 t2' c1 :
  schema.t_Columns t2 = schema.t_Columns t2' ->
  lookup_column errorf t2 c1 = lookup_column errorf t2' c1.
Proof. intros H. unfold lookup_column, schema.Table_Column. by rewrite H. Qed.

(** The index built by [atIndex] depends on the columns of the table
    only. *)
Lemma index_MySQL_columns d t2 t2' idx1 :
  schema.t_Columns t2 = schema.t_Columns t2' ->
  index_MySQL d t2 idx1 = index_MySQL d t2' idx1.
Proof.
  intros H. unfold index_MySQL, MySQL_atIndex.
  rewrite !atIndex_loop_traverse.
  rewrite (traverse_ext (index_part _ _ t2) (index_part (indexParts idx1)
                                               (i_Name idx1) t2')); [done|].
  intros c1. unfold index_part.
  by rewrite (lookup_column_columns _ t2 t2' c1 H).
Qed.

Lemma aIndexes_loop_MySQL d idxs : forall t2,
  aIndexes_loop (MySQL_builder d) idxs t2 =
  do idxs2 <- traverse (index_MySQL d t2) idxs;
  Ok (schema.AddIndexes t2 idxs2).
Proof.
  induction idxs as [|idx1 idxs IH]; intros t2.
  - simpl. destruct t2; unfold schema.AddIndexes; simpl. by rewrite app_nil_r.
  - cbn [aIndexes_loop traverse]. simpl atIndex. fold (index_MySQL d t2 idx1).
    destruct (index_MySQL d t2 idx1) as [idx2|e]; [|done]. cbn [bind].
    rewrite IH.
    rewrite (traverse_ext _ (index_MySQL d t2))
      by (intros idx; by apply index_MySQL_columns).
    destruct (traverse _ idxs) as [idxs2|e]; [|done]. cbn [bind].
    destruct t2; unfold schema.AddIndexes; simpl. by rewrite <- app_assoc.
Qed.

(** [aIndexes] under the MySQL builder: the primary key, then the explicit
    indexes after the indexes the table already has; the error of the
    primary key comes before the error of an index. *)
Lemma aIndexes_MySQL d t1 t2 :
  aIndexes (MySQL_builder d) t1 t2 =
  do pk <- traverse (lookup_column ErrPrimaryKeyColumn t2) (t_PrimaryKey t1);
  do idxs2 <- traverse (index_MySQL d t2) (t_Indexes t1);
  Ok (schema.mkTable (schema.t_Name t2) (schema.t_Attrs t2)
        (schema.t_Columns t2) (schema.t_Indexes t2 ++ idxs2)
        (Some (schema.NewPrimaryKey pk)) (schema.t_ForeignKeys t2)).
Proof.
  unfold aIndexes. rewrite aPrimaryKey_traverse.
  destruct (traverse _ (t_PrimaryKey t1)) as [pk|e]; [|done]. cbn [bind].
  rewrite aIndexes_loop_MySQL.
  rewrite (traverse_ext _ (index_MySQL d t2))
    by (intros idx; by apply index_MySQL_columns).
  destruct (traverse _ (t_Indexes t1)) as [idxs2|e]; done.
Qed.

Lemma atTable_checks_fields (checks : gmap string string) names : forall t,
  fold_left
    (fun t2 name =>
       schema.AddChecks t2 [schema.Check name (default "" (checks !! name))])
    names t =
  schema.set_t_Attrs t
    (schema.t_Attrs
       (fold_left
          (fun t2 name =>
             schema.AddChecks t2
               [schema.Check name (default "" (checks !! name))])
          names t)).
Proof.
  induction names as [|name names IH]; intros t; simpl.
  - by destruct t.
  - rewrite IH at 1. by destruct t.
Qed.

(** [atTable] changes the attributes of the table only. *)
Lemma atTable_MySQL_fields d t1 t :
  MySQL_atTable d t1 t =
  schema.set_t_Attrs t (schema.t_Attrs (MySQL_atTable d t1 t)).
Proof.
  unfold MySQL_atTable. destruct (t_Annotation t1) as [an|].
  - rewrite atTable_checks_fields at 1.
    destruct (String.eqb (an_Charset an) ""), (String.eqb (an_Collation an) ""),
      (String.eqb (an_Options an) ""), (String.eqb (an_Check an) "");
      by destruct t.
  - by destruct t.
Qed.

Lemma aTable_MySQL m d t1 conn :
  aTable m (MySQL_builder d) t1 conn =
  (table_MySQL m d t1 conn,
   if universalID m then snd (pkRange conn t1) else conn).
Proof.
  unfold aTable, table_MySQL, range_attrs. simpl atTable. simpl atIncrementT.
  rewrite (atTable_MySQL_fields d t1 (schema.NewTable (t_Name t1))).
  set (attrs := schema.t_Attrs
                  (schema.set_t_Attrs (schema.NewTable (t_Name t1))
                     (schema.t_Attrs (MySQL_atTable d t1
                                        (schema.NewTable (t_Name t1)))))).
  assert (Hattrs : attrs = schema.t_Attrs (MySQL_atTable d t1
                                             (schema.NewTable (t_Name t1))))
    by done.
  destruct (universalID m).
  - destruct (pkRange conn t1) as [[r|e] conn']; simpl; [|done].
    f_equal. unfold aColumns. rewrite aColumns_loop_MySQL.
    destruct (traverse (column_MySQL d) (t_Columns t1)) as [cols|e]; [|done].
    cbn [bind]. by rewrite aIndexes_MySQL.
  - simpl. f_equal. unfold aColumns. rewrite aColumns_loop_MySQL.
    destruct (traverse (column_MySQL d) (t_Columns t1)) as [cols|e]; [|done].
    cbn [bind]. rewrite aIndexes_MySQL. simpl. by rewrite app_nil_r.
Qed.

Lemma replaceOrAppend_Forall (P : schema.Attr -> Prop) same attrs v :
  Forall P attrs -> P v -> Forall P (schema.replaceOrAppend same attrs v).
Proof.
  intros Hattrs Hv. induction Hattrs as [|a attrs Ha Hrest IH]; simpl.
  - by constructor.
  - destruct (same a); by constructor.
Qed.

(** The attributes of a column after [atTypeC] are collations, when they
    were before. *)
Lemma atTypeC_MySQL_attrs d c1 c0 c2 :
  MySQL_atTypeC d c1 c0 = Ok c2 ->
  Forall (fun a => schema.is_Collation a = true) (schema.c_Attrs c0) ->
  Forall (fun a => schema.is_Collation a = true) (schema.c_Attrs c2).
Proof.
  unfold MySQL_atTypeC. intros H H0. destruct (negb _).
  - destruct (ParseType _); simpl in H; [|discriminate]. by simplify_eq.
  - destruct (c_Type c1); simpl in H;
      try (destruct (ParseType _); simpl in H; [|discriminate]);
      simplify_eq; simpl; try done;
      try (by apply replaceOrAppend_Forall); by repeat case_match.
Qed.

(** Under the MySQL builder a translated column carries the
    auto-increment marker exactly when the column is an [Increment]
    column. *)
Lemma column_MySQL_increment d c1 c2 :
  column_MySQL d c1 = Ok c2 ->
  In (schema.AutoIncrement 0) (schema.c_Attrs c2) <-> c_Increment c1 = true.
Proof.
  unfold column_MySQL.
  destruct (MySQL_atTypeC d c1 (column_new c1)) as [c2'|] eqn:Hty;
    [|discriminate].
  intros [= <-].
  assert (Hcol : Forall (fun a => schema.is_Collation a = true)
                   (schema.c_Attrs (aDefault c1 c2'))).
  { assert (schema.c_Attrs (aDefault c1 c2') = schema.c_Attrs c2') as ->
      by (unfold aDefault; by repeat case_match).
    eapply atTypeC_MySQL_attrs; [exact Hty|].
    unfold column_new. destruct (String.eqb _ _); simpl; by repeat constructor. }
  unfold column_finish. destruct (c_Increment c1); simpl.
  - split; [done|]. intros _. apply in_or_app. right. by left.
  - split; [|done]. intros Hin. rewrite Forall_forall in Hcol.
    apply list_elem_of_In, Hcol in Hin. done.
Qed.

(** What a table built by the first loop looks like, under the MySQL
    builder. *)
Lemma table_MySQL_Ok m d t1 conn t2 :
  table_MySQL m d t1 conn = Ok t2 ->
  schema.t_Name t2 = t_Name t1 /\
  (exists r,
     schema.t_Attrs t2 =
     schema.t_Attrs (MySQL_atTable d t1 (schema.NewTable (t_Name t1))) ++ r /\
     if universalID m then exists v, r = [schema.AutoIncrement v] else r = []) /\
  traverse (column_MySQL d) (t_Columns t1) = Ok (schema.t_Columns t2) /\
  (exists pk,
     schema.t_PrimaryKey t2 = Some (schema.NewPrimaryKey pk) /\
     traverse (lookup_column ErrPrimaryKeyColumn t2) (t_PrimaryKey t1) = Ok pk) /\
  (exists idxs2,
     schema.t_Indexes t2 = implicit_indexes d t1 (t_Columns t1) 0 ++ idxs2 /\
     traverse (index_MySQL d t2) (t_Indexes t1) = Ok idxs2) /\
  schema.t_ForeignKeys t2 = [].
Proof.
  unfold table_MySQL, range_attrs. intros H.
  assert (Hr : exists r,
             (if universalID m
              then match fst (pkRange conn t1) with
                   | Ok r => [schema.AutoIncrement r]
                   | Err _ => []
                   end
              else []) = r /\
             if universalID m then exists v, r = [schema.AutoIncrement v]
             else r = []).
  { destruct (universalID m); [|by eexists].
    destruct (fst (pkRange conn t1)); [|done]. eexists; split; [done|by eexists]. }
  destruct Hr as (r & Hr & Hform). rewrite Hr in H.
  destruct (if universalID m then _ else _) as [[]|]; [|done]. cbn [bind] in H.
  destruct (traverse (column_MySQL d) (t_Columns t1)) as [cols|] eqn:Hcols;
    [|done].
  cbn [bind] in H.
  destruct (traverse (lookup_column ErrPrimaryKeyColumn _) _) as [pk|] eqn:Hpk;
    [|done].
  cbn [bind] in H.
  destruct (traverse (index_MySQL d _) _) as [idxs2|] eqn:Hidx; [|done].
  injection H as <-. simpl. split_and!; [done|by exists r|done| | |done].
  - exists pk. split; [done|]. rewrite <- Hpk. apply traverse_ext.
    intros c1. by apply lookup_column_columns.
  - exists idxs2. split; [done|]. rewrite <- Hidx. apply traverse_ext.
    intros idx. by apply index_MySQL_columns.
Qed.

Lemma fk_resolved_shape built out i t2 t2' fk1 fk2 :
  same_shape built out ->
  schema.t_Columns t2 = schema.t_Columns t2' ->
  fk_resolved built i t2 fk1 fk2 -> fk_resolved out i t2' fk1 fk2.
Proof.
  intros Hshape Hcols (Hs & Hu & Hd & Ht & Hloc & j & refT & Hfind & Hj & Href).
  split_and!; try done.
  - eapply Forall2_impl; [exact Hloc|]. intros c1 p.
    unfold schema.Table_Column. by rewrite Hcols.
  - pose proof (same_shape_find (fk_RefTable fk1) built out Hshape) as Hf.
    rewrite Hfind in Hf. destruct Hf as (refT' & Hfind' & Hc).
    exists j, refT'. split_and!; try done.
    eapply Forall2_impl; [exact Href|]. intros c1 p.
    unfold schema.Table_Column. by rewrite Hc.
Qed.

(** The output of [aTables]: the tables of the first loop, each with the
    foreign keys of its input table resolved against the whole set. *)
Lemma aTables_Ok_inv m b tables1 conn out conn' :
  aTables m b tables1 conn = (Ok out, conn') ->
  exists built,
    aTables_build m b tables1 conn = (Ok built, conn') /\
    length out = length tables1 /\
    same_shape built out /\
    forall i t1, tables1 !! i = Some t1 ->
      exists t2 fk2s,
        built !! i = Some t2 /\
        out !! i = Some (schema.AddForeignKeys t2 fk2s) /\
        Forall2 (fk_resolved built i t2) (t_ForeignKeys t1) fk2s.
Proof.
  unfold aTables.
  destruct (aTables_build m b tables1 conn) as [[built|e] c] eqn:Hbuild;
    [|done].
  intros [= Hlink <-]. exists built. split; [done|].
  pose proof (aTables_build_length _ _ _ _ _ _ Hbuild) as Hlen.
  pose proof (aTables_link_inv built tables1 0 built (same_shape_refl _)
                ltac:(simpl; lia) (fun k _ => eq_refl)) as Hinv.
  rewrite Hlink in Hinv. destruct Hinv as (Hshape & _ & Hall).
  split_and!; [|done|].
  - rewrite <- Hlen. symmetry. by eapply Forall2_length.
  - intros i t1 Ht1.
    destruct (Hall i t1 Ht1) as (t2 & fk2s & Ht2 & Hok & Hout).
    simpl in Ht2, Hok, Hout. exists t2, fk2s. split_and!; [done|done|].
    apply traverse_Ok in Hok. eapply Forall2_impl; [exact Hok|].
    intros fk1 fk2. apply aForeignKey_Ok.
Qed.

(** Each table of the output of [aTables], under the MySQL builder: the
    table of the first loop with the resolved foreign keys added. *)
Lemma aTables_MySQL_Ok_table m d tables1 conn out conn' i t1 t2 :
  aTables m (MySQL_builder d) tables1 conn = (Ok out, conn') ->
  tables1 !! i = Some t1 -> out !! i = Some t2 ->
  exists t2b fk2s c,
    table_MySQL m d t1 c = Ok t2b /\
    t2 = schema.AddForeignKeys t2b fk2s /\
    Forall2 (fk_resolved out i t2) (t_ForeignKeys t1) fk2s.
Proof.
  intros (built & Hbuild & Hlen & Hshape & Hall)%aTables_Ok_inv Ht1 Ht2.
  destruct (Hall i t1 Ht1) as (t2b & fk2s & Hb & Hout & Hres).
  rewrite Ht2 in Hout. injection Hout as ->.
  apply aTables_build_Ok in Hbuild.
  destruct (Forall2_lookup_lr _ _ _ _ _ _ Hbuild Ht1 Hb) as (c & c' & Htab).
  rewrite aTable_MySQL in Htab. injection Htab as Htab _.
  exists t2b, fk2s, c. split_and!; [done|done|].
  eapply Forall2_impl; [exact Hres|]. intros fk1 fk2.
  by apply fk_resolved_shape.
Qed.

(** C4. [aTables] under the MySQL builder.  A table that cannot be built
    fails the translation before any foreign key is looked at.  When the
    translation succeeds, every output table has, in this order: the
    attributes of [atTable], then the range of the table; one column per
    input column, in the input order, with the auto-increment marker on the
    [Increment] columns; the implicit unique indexes of its columns, in
    column order, before the explicit indexes, in index order; a primary
    key over its own columns; and the foreign keys of the input table,
    resolved by table name in the whole output set. *)
Theorem C4_translation_order m d tables1 conn :
  (forall e conn',
     aTables_build m (MySQL_builder d) tables1 conn = (Err e, conn') ->
     aTables m (MySQL_builder d) tables1 conn = (Err e, conn')) /\
  (forall out conn',
     aTables m (MySQL_builder d) tables1 conn = (Ok out, conn') ->
     length out = length tables1 /\
     forall i t1 t2,
       tables1 !! i = Some t1 -> out !! i = Some t2 ->
       schema.t_Name t2 = t_Name t1 /\
       (exists r,
          schema.t_Attrs t2 =
          schema.t_Attrs (MySQL_atTable d t1 (schema.NewTable (t_Name t1)))
          ++ r /\
          if universalID m then exists v, r = [schema.AutoIncrement v]
          else r = []) /\
       schema.c_Name <$> schema.t_Columns t2 = c_Name <$> t_Columns t1 /\
       Forall2
         (fun c1 c2 =>
            column_MySQL d c1 = Ok c2 /\
            (In (schema.AutoIncrement 0) (schema.c_Attrs c2) <->
             c_Increment c1 = true))
         (t_Columns t1) (schema.t_Columns t2) /\
       (exists idxs2,
          schema.t_Indexes t2 =
          implicit_indexes d t1 (t_Columns t1) 0 ++ idxs2 /\
          Forall2 (fun idx1 idx2 => index_MySQL d t2 idx1 = Ok idx2)
            (t_Indexes t1) idxs2) /\
       (exists pk,
          schema.t_PrimaryKey t2 = Some (schema.NewPrimaryKey pk) /\
          Forall2 (fun c1 p => schema.Table_Column t2 (c_Name c1) = Some p)
            (t_PrimaryKey t1) pk) /\
       Forall2 (fk_resolved out i t2) (t_ForeignKeys t1)
         (schema.t_ForeignKeys t2)).
Proof.
  split.
  - intros e conn' H. unfold aTables. by rewrite H.
  - intros out conn' Hout. split.
    + by destruct (aTables_Ok_inv _ _ _ _ _ _ Hout) as (_ & _ & ? & _).
    + intros i t1 t2 Ht1 Ht2.
      destruct (aTables_MySQL_Ok_table _ _ _ _ _ _ _ _ _ Hout Ht1 Ht2)
        as (t2b & fk2s & c & Htab & Ht2b & Hfks).
      destruct (table_MySQL_Ok _ _ _ _ _ Htab)
        as (Hname & Hattrs & Hcols & (pk & Hpk & Hpks) & (idxs2 & Hidx & Hidxs)
            & Hnofk).
      subst t2. unfold schema.AddForeignKeys in *.
      cbn [schema.t_Name schema.t_Attrs schema.t_Columns schema.t_Indexes
           schema.t_PrimaryKey schema.t_ForeignKeys] in *.
      split_and!; [done|done| | | | |].
      * by apply (columns_MySQL_names d).
      * apply traverse_Ok in Hcols. eapply Forall2_impl; [exact Hcols|].
        intros c1 c2 Hc. split; [done|]. by apply (column_MySQL_increment d).
      * exists idxs2. split; [done|]. apply traverse_Ok.
        rewrite <- Hidxs. apply traverse_ext. intros idx.
        by apply index_MySQL_columns.
      * exists pk. split; [done|].
        apply (lookup_columns_Ok ErrPrimaryKeyColumn).
        rewrite <- Hpks. apply traverse_ext. intros c1.
        by apply lookup_column_columns.
      * by rewrite Hnofk.
Qed.

(** C10. Every table translated for MySQL has exactly one charset and one
    collation attribute: "utf8mb4" and "utf8mb4_bin" when the table has no
    annotation; with an annotation, each is the value of the annotation
    when that value is not empty, and the default otherwise. *)
Theorem C10_mysql_charset_collation m d tables1 conn out conn' i t1 t2 :
  aTables m (MySQL_builder d) tables1 conn = (Ok out, conn') ->
  tables1 !! i = Some t1 -> out !! i = Some t2 ->
  (t_Annotation t1 = None ->
   charsets t2 = ["utf8mb4"] /\ collations t2 = ["utf8mb4_bin"]) /\
  (forall an, t_Annotation t1 = Some an ->
     charsets t2 =
       [if String.eqb (an_Charset an) "" then "utf8mb4" else an_Charset an] /\
     collations t2 =
       [if String.eqb (an_Collation an) "" then "utf8mb4_bin"
        else an_Collation an]).
Proof.
  intros Hout Ht1 Ht2.
  destruct (aTables_MySQL_Ok_table _ _ _ _ _ _ _ _ _ Hout Ht1 Ht2)
    as (t2b & fk2s & c & Htab & -> & _).
  destruct (table_MySQL_Ok _ _ _ _ _ Htab) as (_ & (r & Hattrs & Hr) & _).
  destruct (atTable_charset_collation d t1 (t_Name t1)) as [Hcs Hcl].
  assert (Hboth : charsets (schema.AddForeignKeys t2b fk2s) = [charset_of t1] /\
                  collations (schema.AddForeignKeys t2b fk2s) = [collation_of t1]).
  { unfold charsets, collations in *. simpl. rewrite Hattrs, !omap_app, Hcs, Hcl.
    destruct (universalID m); [destruct Hr as [v ->]|subst r]; done. }
  unfold charset_of, collation_of in Hboth.
  split.
  - intros Hnone. by rewrite Hnone in Hboth.
  - intros an Han. by rewrite Han in Hboth.
Qed.

(** *** The default of a column *)

(** The replacement character by character: a single quote becomes two,
    every other character stays. *)
Lemma ReplaceAll_quote_chars v :
  list_ascii_of_string (strings.ReplaceAll_quote v) =
  flat_map (fun a => if Ascii.eqb a "'" then ["'"; "'"]%char else [a])
    (list_ascii_of_string v).
Proof.
  induction v as [|a v IH]; simpl; [done|].
  destruct (Ascii.eqb a "'"); simpl; by rewrite IH.
Qed.

Lemma column_MySQL_default d c1 c2 :
  column_MySQL d c1 = Ok c2 ->
  schema.c_Default c2 = schema.c_Default (aDefault c1 (column_new c1)).
Proof.
  unfold column_MySQL.
  destruct (MySQL_atTypeC d c1 (column_new c1)) as [c2'|] eqn:Hty;
    [|discriminate].
  intros [= <-]. apply atTypeC_MySQL_keeps in Hty as [_ Hd].
  assert (schema.c_Default (column_finish c1 c2') =
          schema.c_Default (aDefault c1 c2')) as ->
    by (unfold column_finish; by destruct (c_Increment c1)).
  unfold aDefault. destruct (c_Default c1) as [dv|]; [|done].
  by destruct (supportDefault c1).
Qed.

(** C6. In the output of [aTables] under the MySQL builder, the default
    of a column that has a default the database supports is: for a Go
    string on a column that is neither a UUID nor a time, the string in
    single quotes with every single quote of it doubled; on a UUID or a
    time column, what [fmt.Sprint] prints, without quotes added. *)
Theorem C6_default_rendering m d tables1 conn out conn' i t1 t2 k c1 c2 dv :
  aTables m (MySQL_builder d) tables1 conn = (Ok out, conn') ->
  tables1 !! i = Some t1 -> out !! i = Some t2 ->
  t_Columns t1 !! k = Some c1 -> schema.t_Columns t2 !! k = Some c2 ->
  c_Default c1 = Some dv -> supportDefault c1 = true ->
  (forall v, dv = DefString v ->
     c_Type c1 <> TypeUUID -> c_Type c1 <> TypeTime ->
     schema.c_Default c2 =
     Some (schema.mkRawExpr ("'" +:+ strings.ReplaceAll_quote v +:+ "'"))) /\
  (c_Type c1 = TypeUUID \/ c_Type c1 = TypeTime ->
   schema.c_Default c2 = Some (schema.mkRawExpr (Sprint dv))).
Proof.
  intros Hout Ht1 Ht2 Hc1 Hc2 Hdv Hsup.
  destruct (aTables_MySQL_Ok_table _ _ _ _ _ _ _ _ _ Hout Ht1 Ht2)
    as (t2b & fk2s & c & Htab & -> & _).
  destruct (table_MySQL_Ok _ _ _ _ _ Htab) as (_ & _ & Hcols & _).
  apply traverse_Ok in Hcols. simpl in Hc2.
  pose proof (Forall2_lookup_lr _ _ _ _ _ _ Hcols Hc1 Hc2) as Hcol.
  rewrite (column_MySQL_default d c1 c2 Hcol).
  unfold aDefault. rewrite Hdv, Hsup. split.
  - intros v -> Hu Ht. simpl.
    by rewrite !bool_decide_eq_true_2.
  - intros Hty. destruct dv as [v|printed]; [|done]. simpl.
    destruct Hty as [-> | ->]; done.
Qed.

(** *** Implicit unique indexes *)

Lemma prefix_append p s : String.prefix p (p +:+ s) = true.
Proof.
  induction p as [|a p IH]; simpl; [by destruct s|].
  destruct (ascii_dec a a); [done|congruence].
Qed.

Lemma contains_app a c1 c2 :
  strings.contains (c1 +:+ c2) a =
  strings.contains c1 a || strings.contains c2 a.
Proof.
  induction c1 as [|b c1 IH]; simpl; [done|].
  rewrite IH. by rewrite orb_assoc.
Qed.

(** [TrimLeft] removes a prefix made of characters of the cutset, and
    goes on. *)
Lemma TrimLeft_app p s cutset :
  (forall a, strings.contains p a = true -> strings.contains cutset a = true) ->
  strings.TrimLeft (p +:+ s) cutset = strings.TrimLeft s cutset.
Proof.
  induction p as [|b p IH]; intros Hp; simpl; [done|].
  rewrite (Hp b) by (simpl; by rewrite Ascii.eqb_refl).
  apply IH. intros a Ha. apply Hp. simpl. rewrite Ha. by rewrite orb_true_r.
Qed.

Lemma digit_not_sign a n :
  strconv.digit a = Some n ->
  Ascii.eqb a "+" = false /\ Ascii.eqb a "-" = false /\ Ascii.eqb a "_" = false.
Proof.
  destruct a as [[] [] [] [] [] [] [] []]; vm_compute; done.
Qed.

(** A name that follows the naming of implicit indexes is recognised. *)
Lemma atImplicitIndexName_implicit_name d idx c1 :
  implicit_name (i_Name idx) (c_Name c1) ->
  MySQL_atImplicitIndexName d idx c1 = true.
Proof.
  unfold MySQL_atImplicitIndexName.
  intros [-> | (a & ds & k & -> & [_ Hdigits] & Hk & Hfresh)].
  - by rewrite String.eqb_refl.
  - destruct (String.eqb _ _); [done|].
    unfold strings.HasPrefix. rewrite prefix_append. simpl negb. cbv iota.
    rewrite TrimLeft_app by done.
    assert (Hd : exists n, strconv.digit a = Some n).
    { simpl in Hdigits. destruct (strconv.digit a); [by eexists|done]. }
    destruct Hd as [n Hn].
    destruct (digit_not_sign a n Hn) as (Hplus & Hminus & Hunder).
    cbn [strings.TrimLeft]. rewrite contains_app, Hfresh. simpl.
    rewrite Hunder. simpl. unfold strconv.ParseInt.
    rewrite Hplus, Hminus. unfold strconv.unsigned.
    cbn [strconv.digits] in Hdigits |- *. rewrite Hdigits.
    destruct (Z.ltb_spec k (2 ^ 63)); [|lia].
    apply Z.gtb_lt. lia.
Qed.

(** A name that neither is the column name nor starts with the column
    name and an underscore is not recognised. *)
Lemma atImplicitIndexName_other d idx c1 :
  i_Name idx <> c_Name c1 ->
  strings.HasPrefix (i_Name idx) (c_Name c1 +:+ "_") = false ->
  MySQL_atImplicitIndexName d idx c1 = false.
Proof.
  intros Hne Hpre. unfold MySQL_atImplicitIndexName.
  apply String.eqb_neq in Hne. by rewrite Hne, Hpre.
Qed.

(** C2, as the code has it.  For a column marked [Unique], one iteration
    of [aColumns] under the MySQL builder: (1) adds no index when the table
    has an explicit unique index, whatever columns it covers, whose name
    follows the naming of implicit indexes for the column; (2) adds exactly
    one index, unique, named after the column, whose only part is the
    column just appended, when no explicit unique index has the name of the
    column or a name that starts with it and an underscore. *)
Theorem C2_implicit_unique_index d t1 c1 t2 t2' :
  c_Unique c1 = true ->
  aColumn (MySQL_builder d) t1 c1 t2 = Ok t2' ->
  ((exists idx,
      In idx (t_Indexes t1) /\ i_Unique idx = true /\
      implicit_name (i_Name idx) (c_Name c1)) ->
   schema.t_Indexes t2' = schema.t_Indexes t2) /\
  ((forall idx,
      In idx (t_Indexes t1) -> i_Unique idx = true ->
      i_Name idx <> c_Name c1 /\
      strings.HasPrefix (i_Name idx) (c_Name c1 +:+ "_") = false) ->
   exists c2,
     schema.t_Columns t2' = schema.t_Columns t2 ++ [c2] /\
     schema.c_Name c2 = c_Name c1 /\
     schema.t_Indexes t2' =
     schema.t_Indexes t2 ++
     [schema.mkIndex (c_Name c1) true
        [schema.mkIndexPart 0 (length (schema.t_Columns t2)) []]]).
Proof.
  intros Hu. rewrite aColumn_MySQL.
  destruct (column_MySQL d c1) as [c2|e] eqn:Hc2; [|discriminate].
  intros [= <-]. simpl. rewrite Hu, app_nil_r. simpl. split.
  - intros (idx & Hin & Hidxu & Hname).
    assert (explicit_unique d t1 c1 = true) as ->.
    { apply existsb_exists. exists idx. split; [done|].
      by rewrite Hidxu, atImplicitIndexName_implicit_name. }
    simpl. by rewrite app_nil_r.
  - intros Hnone.
    assert (explicit_unique d t1 c1 = false) as ->.
    { apply not_true_is_false. intros (idx & Hin & Hidx)%existsb_exists.
      apply andb_prop in Hidx as [Hidxu Hrec].
      destruct (Hnone idx Hin Hidxu) as [Hne Hpre].
      by rewrite atImplicitIndexName_other in Hrec. }
    simpl. exists c2. split_and!; [done| |done].
    by apply (column_MySQL_name d).
Qed.

(** *** The query of the primary-key range *)

Lemma aTables_build_app m b pre : forall rest conn,
  aTables_build m b (pre ++ rest) conn =
  match aTables_build m b pre conn with
  | (Err e, c) => (Err e, c)
  | (Ok built, c) =>
      match aTables_build m b rest c with
      | (Err e, c') => (Err e, c')
      | (Ok built', c') => (Ok (built ++ built'), c')
      end
  end.
Proof.
  induction pre as [|t1 pre IH]; intros rest conn.
  - simpl. by destruct (aTables_build m b rest conn) as [[?|?] ?].
  - cbn [app aTables_build].
    destruct (aTable m b t1 conn) as [[t2|e] c]; [|done].
    rewrite IH. destruct (aTables_build m b pre c) as [[built|e] c']; [|done].
    by destruct (aTables_build m b rest c') as [[built'|e] c''].
Qed.

(** With [universalID] set, a table whose range query fails is not
    translated any further: the error of the query is the result. *)
Lemma aTable_range_error m b t1 conn e conn' :
  universalID m = true ->
  pkRange conn t1 = (Err e, conn') ->
  aTable m b t1 conn = (Err e, conn').
Proof. intros Hu Hq. unfold aTable. by rewrite Hu, Hq. Qed.

Lemma aTables_range_error m b pre t1 post conn built conn1 e conn2 :
  universalID m = true ->
  aTables_build m b pre conn = (Ok built, conn1) ->
  pkRange conn1 t1 = (Err e, conn2) ->
  aTables m b (pre ++ t1 :: post) conn = (Err e, conn2).
Proof.
  intros Hu Hpre Hq. unfold aTables. rewrite aTables_build_app, Hpre.
  cbn [aTables_build]. by rewrite (aTable_range_error _ _ _ _ _ _ Hu Hq).
Qed.

(** With [universalID] set, the first loop asks for the range of every
    table it builds; the connection it returns is the one left by the last
    query. *)
Lemma aTable_range_query m b t1 conn :
  universalID m = true ->
  snd (aTable m b t1 conn) = snd (pkRange conn t1).
Proof.
  intros Hu. unfold aTable. rewrite Hu.
  by destruct (pkRange conn t1) as [[r|e] c].
Qed.

(** ** Further properties of the translation *)

(** *** The type mapper, case by case *)

(** X1. Without an override, a column of a known type always gets through
    [atTypeC]; the only one left without a type is the bytes column whose
    size exceeds 2^32-1. *)
Theorem X1_known_types_translate d c1 c2 :
  inferred c1 -> c_Type c1 <> TypeInvalid -> c_Type c1 <> TypeOther ->
  exists c2',
    MySQL_atTypeC d c1 c2 = Ok c2' /\
    (schema.c_Type c2' = None <->
     c_Type c1 = TypeBytes /\ (MaxUint32 < c_Size c1)%Z).
Proof.
  intros Hinf Hinv Hoth. unfold MySQL_atTypeC. red in Hinf. rewrite Hinf.
  simpl. destruct (c_Type c1) eqn:Hty; try done;
    (eexists; split; [reflexivity|]); simpl;
    try (split; [discriminate | by intros [? _]]).
  unfold bytes_type, MaxUint8, MaxUint16, MaxUint32.
  repeat case_match; split; try discriminate; try (intros [_ ?]; lia);
    intros _; split; [done|lia].
Qed.

(** X2. Without an override, a column of type other or invalid is handed
    to [mysql.ParseType] with its raw type: a parse error is returned; a
    parsed type is dropped and the column is left without a type. *)
Theorem X2_unknown_type_loses_parsed_type d c1 c2 :
  inferred c1 -> c_Type c1 = TypeOther \/ c_Type c1 = TypeInvalid ->
  MySQL_atTypeC d c1 c2 =
  match ParseType (c_typ c1) with
  | Ok _ => Ok (schema.SetType c2 None)
  | Err e => Err e
  end.
Proof.
  intros Hinf Hty. unfold MySQL_atTypeC. red in Hinf. rewrite Hinf. simpl.
  destruct Hty as [-> | ->]; by destruct (ParseType (c_typ c1)).
Qed.

Lemma atTypeC_override d c1 c2 :
  ~ inferred c1 ->
  MySQL_atTypeC d c1 c2 =
  do t <- ParseType (strings.ToLower (override c1));
  Ok (schema.SetType c2 (Some t)).
Proof.
  intros Hov. unfold MySQL_atTypeC, override.
  fold (inferred c1) in *.
  destruct (String.eqb_spec (default "" (c_SchemaType c1 !! dialect_MySQL)) "")
    as [Heq|Hne]; [done|]. reflexivity.
Qed.

(** X3. An override for MySQL decides the type alone: the column gets the
    type parsed from the override in lower case, and nothing else of the
    column is touched; the type, size, default and attribute of the input
    column and the version of the server play no part, nor does the case of
    the letters of the override. *)
Theorem X3_override_short_circuits d c1 c2 :
  ~ inferred c1 ->
  MySQL_atTypeC d c1 c2 =
    (do t <- ParseType (strings.ToLower (override c1));
     Ok (schema.SetType c2 (Some t))) /\
  forall d' c1',
    ~ inferred c1' ->
    strings.ToLower (override c1') = strings.ToLower (override c1) ->
    MySQL_atTypeC d' c1' c2 = MySQL_atTypeC d c1 c2.
Proof.
  intros Hov. split; [by apply atTypeC_override|].
  intros d' c1' Hov' Heq. rewrite !atTypeC_override by done. by rewrite Heq.
Qed.

(** X4. The tiers of a string column without an override, for the size of
    the column or, when that is 0, the default size of the dialect: the raw
    types tinytext and text are kept as they are; otherwise a size up to
    2^16-1 gives a varchar of that size, the size 2^24-1 and no other gives
    mediumtext, and every other size above 2^16-1 gives longtext. *)
Theorem X4_string_tiers d c1 c2 :
  c_Type c1 = TypeString -> inferred c1 ->
  exists t,
    MySQL_atTypeC d c1 c2 = Ok (schema.SetType c2 (Some t)) /\
    (c_typ c1 = "tinytext" \/ c_typ c1 = "text" ->
     t = schema.StringType (c_typ c1) 0) /\
    (c_typ c1 <> "tinytext" -> c_typ c1 <> "text" ->
     forall size,
       size = (if (c_Size c1 =? 0)%Z then defaultSize d c1 else c_Size c1) ->
       ((size <= 2 ^ 16 - 1)%Z -> t = schema.StringType "varchar" size) /\
       (size = (2 ^ 24 - 1)%Z -> t = schema.StringType "mediumtext" 0) /\
       ((2 ^ 16 - 1 < size)%Z -> size <> (2 ^ 24 - 1)%Z ->
        t = schema.StringType "longtext" 0)).
Proof.
  intros Hty Hinf. unfold MySQL_atTypeC. red in Hinf. rewrite Hinf, Hty. simpl.
  eexists. split; [reflexivity|]. unfold string_type, MaxUint16. split.
  - intros [-> | ->]; reflexivity.
  - intros H1%String.eqb_neq H2%String.eqb_neq size ->. rewrite H1, H2. simpl.
    split_and!; intros; repeat case_match; try reflexivity; lia.
Qed.

(** *** The column after [atTypeC] *)

Lemma atTypeC_MySQL_null d c1 c0 c2 :
  MySQL_atTypeC d c1 c0 = Ok c2 ->
  (inferred c1 -> c_Type c1 = TypeTime -> implicit_timestamp d c1 ->
   schema.c_Null c2 = String.eqb (c_Attr c1) "") /\
  (~ inferred c1 \/ c_Type c1 <> TypeTime \/ ~ implicit_timestamp d c1 ->
   schema.c_Null c2 = schema.c_Null c0).
Proof.
  intros H. destruct (String.eqb_spec (override c1) "") as [Hinf|Hov].
  - change (inferred c1) in Hinf.
    destruct (decide (c_Type c1 = TypeTime)) as [Hty|Hty].
    + rewrite (atTypeC_inferred d c1 c0 Hinf), Hty in H. injection H as <-.
      unfold implicit_timestamp. split.
      * intros _ _ [Hm | [Hv Hd]].
        -- by rewrite Hm.
        -- rewrite Hv, (bool_decide_eq_true_2 _ Hd). simpl.
           by rewrite orb_true_r.
      * intros [?|[?|Hno]]; [done|done|].
        destruct (mariadb d).2 eqn:Hm; [by destruct Hno; left|].
        destruct (Z.eqb_spec (compareVersions (version d) "8.0.2") (-1))
          as [Hv|Hv]; [|done].
        destruct (decide (c_Default c1 = None)) as [Hd|Hd].
        -- destruct Hno. by right.
        -- simpl. by rewrite bool_decide_eq_false_2.
    + split; [done|]. intros _. revert H. unfold MySQL_atTypeC.
      unfold inferred in Hinf. rewrite Hinf. simpl.
      destruct (c_Type c1); try done; simpl;
        try (destruct (ParseType _); simpl; [|discriminate]);
        by intros [= <-].
  - assert (Hn : ~ inferred c1) by done.
    split; [done|]. intros _. rewrite atTypeC_override in H by done.
    destruct (ParseType _); simpl in H; [|discriminate]. by injection H as <-.
Qed.

Lemma column_finish_fields c1 c2 :
  schema.c_Name (column_finish c1 c2) = schema.c_Name c2 /\
  schema.c_Type (column_finish c1 c2) = schema.c_Type c2 /\
  schema.c_Null (column_finish c1 c2) = schema.c_Null c2 /\
  schema.c_Attrs (column_finish c1 c2) =
  schema.c_Attrs c2
  ++ (if c_Increment c1 then [schema.AutoIncrement 0] else []).
Proof.
  unfold column_finish, aDefault.
  destruct (c_Increment c1), (c_Default c1) as [[]|], (supportDefault c1);
    simpl; by rewrite ?app_nil_r.
Qed.

(** X5. [aColumns] under the MySQL builder keeps the nullability the
    column declares, with one exception: a time column without an override,
    on MariaDB or on a server older than 8.0.2 when the column has no
    default, is nullable exactly when its [Attr] is empty. *)
Theorem X5_nullability d c1 c2 :
  column_MySQL d c1 = Ok c2 ->
  (inferred c1 -> c_Type c1 = TypeTime -> implicit_timestamp d c1 ->
   schema.c_Null c2 = String.eqb (c_Attr c1) "") /\
  (~ inferred c1 \/ c_Type c1 <> TypeTime \/ ~ implicit_timestamp d c1 ->
   schema.c_Null c2 = c_Nullable c1).
Proof.
  unfold column_MySQL.
  destruct (MySQL_atTypeC d c1 (column_new c1)) as [c2'|] eqn:Hty;
    [|discriminate].
  intros [= <-]. destruct (column_finish_fields c1 c2') as (_ & _ & -> & _).
  destruct (atTypeC_MySQL_null _ _ _ _ Hty) as [Hforced Hkept].
  destruct (column_new_fields c1) as (_ & Hnull & _).
  split; [done|]. intros H. by rewrite Hkept.
Qed.

Lemma atTypeC_MySQL_attrs_eq d c1 c0 c2 :
  MySQL_atTypeC d c1 c0 = Ok c2 ->
  (inferred c1 -> c_Type c1 = TypeUUID ->
   schema.c_Attrs c2 =
   schema.replaceOrAppend schema.is_Collation (schema.c_Attrs c0)
     (schema.Collation "utf8mb4_bin")) /\
  (~ inferred c1 \/ c_Type c1 <> TypeUUID ->
   schema.c_Attrs c2 = schema.c_Attrs c0).
Proof.
  intros H. destruct (String.eqb_spec (override c1) "") as [Hinf|Hov].
  - change (inferred c1) in Hinf. revert H. unfold MySQL_atTypeC.
    pose proof Hinf as Hinf'. unfold inferred in Hinf'. rewrite Hinf'. simpl.
    destruct (c_Type c1); simpl;
      try (destruct (ParseType _); simpl; [|discriminate]);
      intros [= <-]; simpl;
      (split; [try done|]); try (intros [?|?]; done);
      try (intros; by repeat case_match).
  - assert (Hn : ~ inferred c1) by done.
    split; [done|]. intros _. rewrite atTypeC_override in H by done.
    destruct (ParseType _); simpl in H; [|discriminate]. by injection H as <-.
Qed.

(** X6. The attributes of a column translated under the MySQL builder:
    at most one collation, then the auto-increment marker of an [Increment]
    column, and nothing else.  A UUID column without an override has the
    collation utf8mb4_bin, whatever collation the column asks for; any
    other column has its own collation when that is not empty. *)
Theorem X6_column_attributes d c1 c2 :
  column_MySQL d c1 = Ok c2 ->
  exists coll,
    schema.c_Attrs c2 =
    coll ++ (if c_Increment c1 then [schema.AutoIncrement 0] else []) /\
    (inferred c1 -> c_Type c1 = TypeUUID ->
     coll = [schema.Collation "utf8mb4_bin"]) /\
    (~ inferred c1 \/ c_Type c1 <> TypeUUID ->
     coll = if String.eqb (c_Collation c1) "" then []
            else [schema.Collation (c_Collation c1)]).
Proof.
  unfold column_MySQL.
  destruct (MySQL_atTypeC d c1 (column_new c1)) as [c2'|] eqn:Hty;
    [|discriminate].
  intros [= <-]. destruct (column_finish_fields c1 c2') as (_ & _ & _ & ->).
  exists (schema.c_Attrs c2'). split; [done|].
  destruct (atTypeC_MySQL_attrs_eq _ _ _ _ Hty) as [Huuid Hother].
  split.
  - intros Hinf Hu. rewrite (Huuid Hinf Hu). unfold column_new.
    by destruct (String.eqb (c_Collation c1) "").
  - intros H. rewrite (Hother H). unfold column_new.
    by destruct (String.eqb (c_Collation c1) "").
Qed.

(** X7. A column translated under the MySQL builder has no default
    exactly when the input column has none or the database does not
    support one for it; a supported default that is not a Go string is
    printed as it is, whatever the type of the column. *)
Theorem X7_default_absent_or_printed d c1 c2 :
  column_MySQL d c1 = Ok c2 ->
  (schema.c_Default c2 = None <->
   c_Default c1 = None \/ supportDefault c1 = false) /\
  (forall printed,
     c_Default c1 = Some (DefOther printed) -> supportDefault c1 = true ->
     schema.c_Default c2 = Some (schema.mkRawExpr printed)).
Proof.
  intros Hc. rewrite (column_MySQL_default d c1 c2 Hc). unfold aDefault.
  destruct (column_new_fields c1) as (_ & _ & Hnone).
  destruct (c_Default c1) as [dv|], (supportDefault c1) eqn:Hs; simpl.
  - split; [split; [discriminate|by intros [?|?]]|].
    by intros printed [= ->] _.
  - split; [split; [by right|done]|]. by intros printed _ ?.
  - split; [split; [by left|done]|]. by intros printed ?.
  - split; [split; [by left|done]|]. by intros printed ?.
Qed.

(** *** The attributes of a table *)

Lemma insert_sorted_perm s l : Permutation (insert_sorted s l) (s :: l).
Proof.
  induction l as [|x l IH]; simpl; [done|].
  destruct (String.leb s x); [done|].
  rewrite IH. apply perm_swap.
Qed.

Lemma sort_strings_perm l : Permutation (sort_strings l) l.
Proof.
  induction l as [|x l IH]; simpl; [done|].
  unfold sort_strings in *. simpl. rewrite insert_sorted_perm.
  by constructor.
Qed.

Lemma insert_sorted_Sorted s l :
  Sorted (fun a b => String.leb a b = true) l ->
  Sorted (fun a b => String.leb a b = true) (insert_sorted s l).
Proof.
  induction 1 as [|x l Hl IH Hhd]; simpl.
  - repeat constructor.
  - destruct (String.leb s x) eqn:Hsx.
    + constructor; [by constructor|by constructor].
    + constructor; [exact IH|].
      assert (Hxs : String.leb x s = true).
      { destruct (String.leb_total s x) as [H|H]; [congruence|done]. }
      destruct Hhd as [|y l' Hxy]; simpl.
      * by constructor.
      * destruct (String.leb s y); by constructor.
Qed.

Lemma sort_strings_Sorted l :
  Sorted (fun a b => String.leb a b = true) (sort_strings l).
Proof.
  induction l as [|x l IH]; simpl; [constructor|].
  by apply insert_sorted_Sorted.
Qed.

Lemma atTable_checks_append (checks : gmap string string) names : forall t,
  schema.t_Attrs
    (fold_left
       (fun t2 name =>
          schema.AddChecks t2 [schema.Check name (default "" (checks !! name))])
       names t) =
  schema.t_Attrs t
  ++ map (fun n => schema.Check n (default "" (checks !! n))) names.
Proof.
  induction names as [|n names IH]; intros t; simpl.
  - by rewrite app_nil_r.
  - rewrite IH. simpl. by rewrite <- app_assoc.
Qed.

(** X8. The attributes [atTable] gives a new table, in order: the charset
    and the collation; with an annotation, its create options and its
    unnamed check when they are not empty, then one check for every entry
    of [Checks], each once, in the ascending order of the names, whatever
    the iteration order of the map. *)
Theorem X8_atTable_attributes d t1 name :
  (t_Annotation t1 = None ->
   schema.t_Attrs (MySQL_atTable d t1 (schema.NewTable name)) =
   [schema.Charset "utf8mb4"; schema.Collation "utf8mb4_bin"]) /\
  (forall an, t_Annotation t1 = Some an ->
     exists checks : list (string * string),
       schema.t_Attrs (MySQL_atTable d t1 (schema.NewTable name)) =
       [schema.Charset (charset_of t1); schema.Collation (collation_of t1)]
       ++ (if String.eqb (an_Options an) "" then []
           else [schema.CreateOptions (an_Options an)])
       ++ (if String.eqb (an_Check an) "" then []
           else [schema.Check "" (an_Check an)])
       ++ map (fun ne => schema.Check (fst ne) (snd ne)) checks /\
       Sorted (fun a b => String.leb a b = true) (map fst checks) /\
       NoDup (map fst checks) /\
       forall n e, In (n, e) checks <-> an_Checks an !! n = Some e).
Proof.
  split.
  - intros Hnone. unfold MySQL_atTable. by rewrite Hnone.
  - intros an Han.
    set (names := sort_strings (fst <$> map_to_list (an_Checks an))).
    assert (Hperm : Permutation names (fst <$> map_to_list (an_Checks an)))
      by apply sort_strings_perm.
    exists (map (fun n => (n, default "" (an_Checks an !! n))) names).
    assert (Hfst : map fst (map (fun n => (n, default "" (an_Checks an !! n)))
                              names) = names).
    { rewrite map_map. simpl. apply map_id. }
    rewrite Hfst. split_and!.
    + unfold MySQL_atTable, charset_of, collation_of. rewrite Han.
      fold names. rewrite atTable_checks_append, map_map. simpl.
      destruct (String.eqb (an_Charset an) ""),
        (String.eqb (an_Collation an) ""), (String.eqb (an_Options an) ""),
        (String.eqb (an_Check an) ""); reflexivity.
    + apply sort_strings_Sorted.
    + rewrite Hperm. apply NoDup_fst_map_to_list.
    + intros n e. rewrite in_map_iff. split.
      * intros (n' & [= -> <-] & Hin).
        apply list_elem_of_In in Hin. rewrite Hperm in Hin.
        apply list_elem_of_fmap in Hin as ([n'' e'] & -> & Hin).
        apply elem_of_map_to_list in Hin. simpl. by rewrite Hin.
      * intros Hne. exists n. split; [by rewrite Hne|].
        apply list_elem_of_In. rewrite Hperm. apply list_elem_of_fmap.
        exists (n, e). split; [done|]. by apply elem_of_map_to_list.
Qed.

(** *** The names of implicit indexes *)

Lemma append_neq_l (c x : string) : x <> "" -> c +:+ x <> c.
Proof.
  intros Hx. induction c as [|a c IH]; [exact Hx|].
  change (String a (c +:+ x) <> String a c).
  intros [= H]. by apply IH.
Qed.

Lemma append_assoc (a b c : string) : (a +:+ b) +:+ c = a +:+ (b +:+ c).
Proof.
  induction a as [|x a IH]; [reflexivity|].
  change (String x ((a +:+ b) +:+ c) = String x (a +:+ (b +:+ c))).
  by f_equal.
Qed.

Lemma TrimLeft_all s cutset :
  (forall a, strings.contains s a = true -> strings.contains cutset a = true) ->
  strings.TrimLeft s cutset = "".
Proof.
  induction s as [|b s IH]; intros Hs; simpl; [done|].
  rewrite (Hs b) by (simpl; by rewrite Ascii.eqb_refl).
  apply IH. intros a Ha. apply Hs. simpl. rewrite Ha. by rewrite orb_true_r.
Qed.

Lemma contains_self_app c x a :
  strings.contains c a = true -> strings.contains (c +:+ x) a = true.
Proof. intros H. by rewrite contains_app, H. Qed.

(** X9. [atImplicitIndexName] strips the column name and the underscore
    with [strings.TrimLeft], which removes every leading character that
    occurs in them.  A name made of the column name, an underscore and a
    suffix whose characters all occur in the column name or are
    underscores is stripped to nothing and is not recognised, even when
    the suffix is a number that is at least 2. *)
Theorem X9_suffix_of_name_characters d idx c1 s :
  i_Name idx = (c_Name c1 +:+ "_") +:+ s ->
  (forall a, strings.contains s a = true ->
             strings.contains (c_Name c1 +:+ "_") a = true) ->
  MySQL_atImplicitIndexName d idx c1 = false.
Proof.
  intros Hname Hs. unfold MySQL_atImplicitIndexName. rewrite Hname.
  destruct (String.eqb_spec ((c_Name c1 +:+ "_") +:+ s) (c_Name c1))
    as [Heq|_].
  { exfalso. rewrite append_assoc in Heq. revert Heq. by apply append_neq_l. }
  unfold strings.HasPrefix. rewrite prefix_append. simpl negb. cbv iota.
  rewrite TrimLeft_app by done. by rewrite TrimLeft_all.
Qed.


(** *** Indexes and the primary key *)

(** [t.Column(name)] answers the position of a column of that name, the
    first one. *)
Lemma Table_Column_Some t2 name p :
  schema.Table_Column t2 name = Some p ->
  column_at t2 name p /\
  forall q c, q < p -> schema.t_Columns t2 !! q = Some c ->
              schema.c_Name c <> name.
Proof.
  unfold schema.Table_Column, column_at.
  destruct (list_find _ _) as [[p' c2]|] eqn:Hfind; [|done].
  intros [= <-]. apply list_find_Some in Hfind as (Hl & Hn & Hfirst).
  split; [by exists c2|]. intros q c Hq Hc. by eapply Hfirst.
Qed.

Lemma Table_Column_is_Some t2 name :
  is_Some (schema.Table_Column t2 name) <->
  In name (schema.c_Name <$> schema.t_Columns t2).
Proof.
  unfold schema.Table_Column. rewrite <- list_elem_of_In, list_elem_of_fmap.
  split.
  - intros [p Hp]. destruct (list_find _ _) as [[p' c2]|] eqn:Hfind; [|done].
    apply list_find_Some in Hfind as (Hl & Hn & _).
    exists c2. split; [done|]. by eapply list_elem_of_lookup_2.
  - intros (c2 & -> & Hin).
    destruct (list_find_elem_of (fun c => schema.c_Name c = schema.c_Name c2)
                (schema.t_Columns t2) c2 Hin eq_refl) as [[p c] ->].
    by eexists.
Qed.

Lemma AddParts_fields ps : forall i,
  schema.i_Name (schema.AddParts i ps) = schema.i_Name i /\
  schema.i_Unique (schema.AddParts i ps) = schema.i_Unique i /\
  schema.i_Parts (schema.AddParts i ps) =
  schema.i_Parts i
  ++ imap (fun k p => schema.mkIndexPart (length (schema.i_Parts i) + k)
                        (schema.p_C p) (schema.p_Attrs p)) ps.
Proof.
  unfold schema.AddParts.
  induction ps as [|p ps IH]; intros i; simpl.
  - by rewrite app_nil_r.
  - destruct (IH (schema.mkIndex (schema.i_Name i) (schema.i_Unique i)
                    (schema.i_Parts i
                       ++ [schema.mkIndexPart (length (schema.i_Parts i))
                             (schema.p_C p) (schema.p_Attrs p)])))
      as (-> & -> & ->).
    simpl. split_and!; [done|done|].
    rewrite <- app_assoc. simpl. rewrite Nat.add_0_r. do 2 f_equal.
    apply imap_ext. intros k q _. simpl. rewrite length_app. simpl.
    f_equal. lia.
Qed.

Lemma atIndex_Ok_parts d idx1 t2 idx2 idx2' :
  MySQL_atIndex d idx1 t2 idx2 = Ok idx2' ->
  schema.i_Name idx2' = schema.i_Name idx2 /\
  schema.i_Unique idx2' = schema.i_Unique idx2 /\
  exists parts,
    schema.i_Parts idx2' = schema.i_Parts idx2 ++ parts /\
    Forall2
      (fun c1 p =>
         column_at t2 (c_Name c1) (schema.p_C p) /\
         schema.p_Attrs p =
         match indexParts idx1 !! c_Name c1 with
         | Some v => [schema.SubPart v]
         | None => []
         end)
      (i_Columns idx1) parts /\
    schema.p_SeqNo <$> parts =
    seq (length (schema.i_Parts idx2)) (length (i_Columns idx1)).
Proof.
  unfold MySQL_atIndex. rewrite atIndex_loop_traverse.
  destruct (traverse _ (i_Columns idx1)) as [ps|] eqn:Hps; [|discriminate].
  intros [= <-]. destruct (AddParts_fields ps idx2) as (-> & -> & ->).
  split_and!; [done|done|]. eexists. split; [done|].
  apply traverse_Ok in Hps. split.
  - apply Forall2_same_length_lookup_2.
    { rewrite length_imap. by eapply Forall2_length. }
    intros k c1 p Hc1 Hp. apply list_lookup_imap_Some in Hp as (p0 & Hp0 & ->).
    pose proof (Forall2_lookup_lr _ _ _ _ _ _ Hps Hc1 Hp0) as Hpart.
    unfold index_part, lookup_column in Hpart. simpl.
    destruct (schema.Table_Column t2 (c_Name c1)) as [pos|] eqn:Hpos;
      [|discriminate].
    injection Hpart as <-. simpl. split.
    + by apply Table_Column_Some in Hpos as [? _].
    + by destruct (indexParts idx1 !! c_Name c1).
  - apply Forall2_length in Hps. rewrite Hps. clear.
    generalize (length (schema.i_Parts idx2)). induction ps as [|p ps IH];
      intros n; [done|].
    simpl. rewrite Nat.add_0_r. f_equal.
    rewrite <- (IH (S n)). unfold fmap. f_equal. apply imap_ext.
    intros k q _. simpl. f_equal. lia.
Qed.

Lemma atIndex_Err_iff d idx1 t2 idx2 e :
  MySQL_atIndex d idx1 t2 idx2 = Err e <->
  exists c1,
    first_missing t2 (i_Columns idx1) c1 /\
    e = ErrIndexColumn (i_Name idx1) (c_Name c1).
Proof.
  unfold MySQL_atIndex. rewrite atIndex_loop_traverse.
  assert (Hpart : forall c1,
             index_part (indexParts idx1) (i_Name idx1) t2 c1 =
             match schema.Table_Column t2 (c_Name c1) with
             | Some pos =>
                 Ok (schema.mkIndexPart 0 pos
                       match indexParts idx1 !! c_Name c1 with
                       | Some v => [schema.SubPart v]
                       | None => []
                       end)
             | None => Err (ErrIndexColumn (i_Name idx1) (c_Name c1))
             end).
  { intros c1. unfold index_part, lookup_column.
    by destruct (schema.Table_Column t2 (c_Name c1)). }
  split.
  - destruct (traverse _ (i_Columns idx1)) as [ps|e'] eqn:Hps; [done|].
    intros [= ->].
    apply traverse_Err in Hps as (pre & c1 & post & Hsplit & Hpre & Hc1).
    rewrite Hpart in Hc1.
    destruct (schema.Table_Column t2 (c_Name c1)) eqn:Hl; [done|].
    exists c1. split; [|congruence].
    exists pre, post. split_and!; [done| |done].
    eapply Forall_impl; [exact Hpre|]. intros c Hc. cbv beta in Hc.
    rewrite Hpart in Hc.
    destruct (schema.Table_Column t2 (c_Name c)); [by eexists|done].
  - intros (c1 & (pre & post & Hsplit & Hpre & Hc1) & ->).
    assert (Htr : traverse (index_part (indexParts idx1) (i_Name idx1) t2)
                    (i_Columns idx1)
                  = Err (ErrIndexColumn (i_Name idx1) (c_Name c1))).
    { apply traverse_Err. exists pre, c1, post. split_and!; [done| |].
      - eapply Forall_impl; [exact Hpre|]. intros c [pos Hc].
        by rewrite Hpart, Hc.
      - by rewrite Hpart, Hc1. }
    by rewrite Htr.
Qed.

(** X11. The index [atIndex] fills keeps its name and its unique flag and
    gets one part per column of the input index, in their order, after the
    parts it had: each part holds the position of a column of the table
    with the name of the input column, the prefix length of that column
    when [indexParts] has one and no attribute otherwise, and the sequence
    numbers go on from the number of parts the index had. *)
Theorem X11_atIndex_parts d idx1 t2 idx2 idx2' :
  MySQL_atIndex d idx1 t2 idx2 = Ok idx2' ->
  schema.i_Name idx2' = schema.i_Name idx2 /\
  schema.i_Unique idx2' = schema.i_Unique idx2 /\
  exists parts,
    schema.i_Parts idx2' = schema.i_Parts idx2 ++ parts /\
    Forall2
      (fun c1 p =>
         column_at t2 (c_Name c1) (schema.p_C p) /\
         schema.p_Attrs p =
         match indexParts idx1 !! c_Name c1 with
         | Some v => [schema.SubPart v]
         | None => []
         end)
      (i_Columns idx1) parts /\
    schema.p_SeqNo <$> parts =
    seq (length (schema.i_Parts idx2)) (length (i_Columns idx1)).
Proof. apply atIndex_Ok_parts. Qed.

(** X12. [atIndex] fails in one way only: some column of the input index
    has no column of its name in the table.  The error names the index and
    the first such column. *)
Theorem X12_atIndex_error d idx1 t2 idx2 e :
  MySQL_atIndex d idx1 t2 idx2 = Err e <->
  exists c1,
    first_missing t2 (i_Columns idx1) c1 /\
    e = ErrIndexColumn (i_Name idx1) (c_Name c1).
Proof. apply atIndex_Err_iff. Qed.

(** X13. [aIndexes] looks up the primary key first: when a column of the
    primary key has no column of its name in the table, the error names
    the first such column, whatever the builder and the indexes of the
    table are. *)
Theorem X13_primary_key_column_missing b t1 t2 c1 :
  first_missing t2 (t_PrimaryKey t1) c1 ->
  aIndexes b t1 t2 = Err (ErrPrimaryKeyColumn (c_Name c1)).
Proof.
  intros Hmiss. unfold aIndexes. rewrite aPrimaryKey_traverse.
  by rewrite (lookup_columns_first_missing _ _ _ _ Hmiss).
Qed.

(** *** The errors of [aColumns] *)

Lemma aColumn_atTypeC b t1 c1 t2 :
  match atTypeC b c1 (column_new c1) with
  | Ok _ => is_ok (aColumn b t1 c1 t2) = true
  | Err e => aColumn b t1 c1 t2 = Err e
  end.
Proof.
  unfold aColumn, column_new.
  by destruct (atTypeC b c1 _) as [c2|e].
Qed.

(** X14. Whatever the builder, [aColumns] fails only when [atTypeC]
    refuses a column, and then with the error of the first column it
    refuses. *)
Theorem X14_aColumns_error b t1 t2 e :
  aColumns b t1 t2 = Err e <->
  exists pre c1 post,
    t_Columns t1 = pre ++ c1 :: post /\
    Forall (fun c => is_ok (atTypeC b c (column_new c)) = true) pre /\
    atTypeC b c1 (column_new c1) = Err e.
Proof.
  unfold aColumns. generalize (t_Columns t1) as cs. intros cs. revert t2.
  induction cs as [|c cs IH]; intros t2.
  - simpl. split; [done|]. intros (pre & c1 & post & Hsplit & _).
    by destruct pre.
  - cbn [aColumns_loop]. pose proof (aColumn_atTypeC b t1 c t2) as Hc.
    destruct (atTypeC b c (column_new c)) as [c2|e'] eqn:Hty.
    + destruct (aColumn b t1 c t2) as [t2'|] eqn:Hcol; [|done]. cbn [bind].
      rewrite IH. split.
      * intros (pre & c1 & post & -> & Hpre & Hc1).
        exists (c :: pre), c1, post. split_and!; [done| |done].
        constructor; [by rewrite Hty|done].
      * intros (pre & c1 & post & Hsplit & Hpre & Hc1).
        destruct pre as [|c' pre]; simplify_eq/=; [congruence|].
        inversion Hpre; subst. by exists pre, c1, post.
    + rewrite Hc. cbn [bind]. split.
      * intros [= ->]. exists [], c, cs. split_and!; [done|constructor|done].
      * intros (pre & c1 & post & Hsplit & Hpre & Hc1).
        destruct pre as [|c' pre]; simplify_eq/=; [congruence|].
        inversion Hpre as [|? ? Hok]; subst. by rewrite Hty in Hok.
Qed.

(** *** The output holds no position without an object *)

Lemma implicit_indexes_In d t1 cs : forall pos idx,
  In idx (implicit_indexes d t1 cs pos) ->
  exists k c1, cs !! k = Some c1 /\ idx = implicit_index c1 (pos + k).
Proof.
  induction cs as [|c cs IH]; intros pos idx Hin; [done|].
  cbn [implicit_indexes] in Hin. apply in_app_or in Hin as [Hin|Hin].
  - destruct (c_Unique c && negb (explicit_unique d t1 c)); [|done].
    destruct Hin as [<-|[]]. exists 0, c. by rewrite Nat.add_0_r.
  - destruct (IH _ _ Hin) as (k & c1 & Hk & ->).
    exists (S k), c1. split; [done|]. f_equal. lia.
Qed.

Lemma NewPrimaryKey_parts pk :
  schema.p_C <$> schema.i_Parts (schema.NewPrimaryKey pk) = pk.
Proof.
  unfold schema.NewPrimaryKey, schema.Index_AddColumns.
  destruct (AddParts_fields (map (fun c => schema.mkIndexPart 0 c []) pk)
              (schema.mkIndex "" false [])) as (_ & _ & ->).
  simpl. induction pk as [|p pk IH] using rev_ind; [done|].
  rewrite map_app, imap_app, fmap_app, IH. simpl. done.
Qed.

(** X15. In the output of [aTables] under the MySQL builder every part of
    every index and of the primary key of a table holds the position of a
    column of that table. *)
Theorem X15_index_parts_closed m d tables1 conn out conn' i t2 idx :
  aTables m (MySQL_builder d) tables1 conn = (Ok out, conn') ->
  out !! i = Some t2 ->
  In idx (schema.t_Indexes t2) \/ schema.t_PrimaryKey t2 = Some idx ->
  Forall (fun p => is_Some (schema.t_Columns t2 !! schema.p_C p))
    (schema.i_Parts idx).
Proof.
  intros Hout Ht2 Hidx.
  destruct (aTables_Ok_inv _ _ _ _ _ _ Hout) as (_ & _ & Hlen & _).
  destruct (lookup_lt_is_Some_2 tables1 i) as [t1 Ht1].
  { rewrite <- Hlen. by eapply lookup_lt_Some. }
  destruct (aTables_MySQL_Ok_table _ _ _ _ _ _ _ _ _ Hout Ht1 Ht2)
    as (t2b & fk2s & c & Htab & -> & _).
  destruct (table_MySQL_Ok _ _ _ _ _ Htab)
    as (_ & _ & Hcols & (pk & Hpk & Hpks) & (idxs2 & Hidxs & Hidxs2) & _).
  simpl in *. apply traverse_Ok in Hcols.
  destruct Hidx as [Hin|Hprim].
  - rewrite Hidxs in Hin. apply in_app_or in Hin as [Hin|Hin].
    + apply implicit_indexes_In in Hin as (k & c1 & Hk & ->). simpl.
      repeat constructor. simpl. apply lookup_lt_is_Some_2.
      rewrite <- (Forall2_length _ _ _ Hcols). by eapply lookup_lt_Some.
    + apply traverse_Ok in Hidxs2. apply list_elem_of_In in Hin.
      apply list_elem_of_lookup in Hin as [k Hk].
      destruct (Forall2_lookup_r _ _ _ _ _ Hidxs2 Hk) as (idx1 & _ & Hidx1).
      unfold index_MySQL in Hidx1.
      apply atIndex_Ok_parts in Hidx1 as (_ & _ & parts & Hparts & Hall & _).
      rewrite Hparts. simpl.
      eapply Forall2_Forall_r; [exact Hall|]. apply Forall_forall.
      intros c1 _ p [(c2 & Hc2 & _) _]. by eexists.
  - rewrite Hpk in Hprim. injection Hprim as <-.
    apply lookup_columns_Ok in Hpks.
    assert (Hpos : Forall (fun p => is_Some (schema.t_Columns t2b !! p)) pk).
    { eapply Forall2_Forall_r; [exact Hpks|]. apply Forall_forall.
      intros c1 _ p Hp. apply Table_Column_Some in Hp as [(c2 & Hc2 & _) _].
      by eexists. }
    rewrite <- (NewPrimaryKey_parts pk) in Hpos.
    exact (proj1 (Forall_fmap _ _ _) Hpos).
Qed.

(** X16. In the output of [aTables] under the MySQL builder every foreign
    key holds the position of the table it is in, the position of a table
    of the output as the referenced table, and positions of columns of
    these two tables as its local and referenced columns. *)
Theorem X16_foreign_keys_closed m d tables1 conn out conn' i t2 fk2 :
  aTables m (MySQL_builder d) tables1 conn = (Ok out, conn') ->
  out !! i = Some t2 -> In fk2 (schema.t_ForeignKeys t2) ->
  schema.fk_Table fk2 = Some i /\
  Forall (fun p => is_Some (schema.t_Columns t2 !! p)) (schema.fk_Columns fk2) /\
  exists j refT,
    schema.fk_RefTable fk2 = Some j /\ out !! j = Some refT /\
    Forall (fun p => is_Some (schema.t_Columns refT !! p))
      (schema.fk_RefColumns fk2).
Proof.
  intros Hout Ht2 Hin.
  destruct (aTables_Ok_inv _ _ _ _ _ _ Hout) as (_ & _ & Hlen & _).
  destruct (lookup_lt_is_Some_2 tables1 i) as [t1 Ht1].
  { rewrite <- Hlen. by eapply lookup_lt_Some. }
  destruct (aTables_MySQL_Ok_table _ _ _ _ _ _ _ _ _ Hout Ht1 Ht2)
    as (t2b & fk2s & c & Htab & -> & Hfks).
  destruct (table_MySQL_Ok _ _ _ _ _ Htab) as (_ & _ & _ & _ & _ & Hnofk).
  simpl in Hin. rewrite Hnofk in Hin. simpl in Hin.
  apply list_elem_of_In, list_elem_of_lookup in Hin as [k Hk].
  destruct (Forall2_lookup_r _ _ _ _ _ Hfks Hk)
    as (fk1 & _ & _ & _ & _ & Htab' & Hloc & j & refT & Hfind & Hj & Href).
  split_and!; [done| |].
  - eapply Forall2_Forall_r; [exact Hloc|]. apply Forall_forall.
    intros c1 _ p Hp. apply Table_Column_Some in Hp as [(c2 & Hc2 & _) _].
    by eexists.
  - exists j, refT. apply list_find_Some in Hfind as (Hl & _ & _).
    split_and!; [done|done|].
    eapply Forall2_Forall_r; [exact Href|]. apply Forall_forall.
    intros c1 _ p Hp. apply Table_Column_Some in Hp as [(c2 & Hc2 & _) _].
    by eexists.
Qed.

(** *** When the translation succeeds *)

Lemma traverse_is_ok {A B : Type} (f : A -> result B) l :
  (exists l', traverse f l = Ok l') <-> Forall (fun a => is_ok (f a) = true) l.
Proof.
  split.
  - intros [l' H]. apply traverse_Ok in H.
    induction H as [|a b l l' Hab _ IH]; constructor; [by rewrite Hab|done].
  - induction 1 as [|a l Ha _ [l' IH]]; [by exists []|].
    destruct (f a) as [b|e] eqn:Hb; [|done].
    exists (b :: l'). cbn [traverse]. by rewrite Hb, IH.
Qed.

Lemma column_at_is_Some t2 name p :
  column_at t2 name p -> is_Some (schema.Table_Column t2 name).
Proof.
  intros (c2 & Hc2 & <-). apply Table_Column_is_Some.
  apply list_elem_of_In, list_elem_of_fmap. exists c2. split; [done|].
  by eapply list_elem_of_lookup_2.
Qed.

Lemma index_MySQL_is_ok d t2 idx1 :
  is_ok (index_MySQL d t2 idx1) = true <->
  Forall (fun c1 => is_Some (schema.Table_Column t2 (c_Name c1)))
    (i_Columns idx1).
Proof.
  unfold index_MySQL. split.
  - destruct (MySQL_atIndex _ _ _ _) as [idx2|e] eqn:H; [intros _|done].
    apply atIndex_Ok_parts in H as (_ & _ & parts & _ & Hall & _).
    eapply Forall2_Forall_l; [exact Hall|]. apply Forall_forall.
    intros p _ c1 [Hat _]. by eapply column_at_is_Some.
  - intros Hall. destruct (MySQL_atIndex _ _ _ _) as [idx2|e] eqn:H; [done|].
    apply atIndex_Err_iff in H as (c1 & (pre & post & Hcs & _ & Hnone) & _).
    rewrite Hcs in Hall. apply Forall_app in Hall as [_ Hall].
    apply Forall_cons in Hall as [[p Hp] _]. congruence.
Qed.

Lemma same_names_has_column t1 t2 c :
  same_names t1 t2 ->
  is_Some (schema.Table_Column t2 (c_Name c)) <-> has_column t1 c.
Proof.
  intros [_ Hnames]. unfold has_column. rewrite <- Hnames.
  apply Table_Column_is_Some.
Qed.

Lemma table_MySQL_same_names m d t1 conn t2 :
  table_MySQL m d t1 conn = Ok t2 -> same_names t1 t2.
Proof.
  intros H. destruct (table_MySQL_Ok _ _ _ _ _ H) as (Hn & _ & Hcols & _).
  split; [done|]. by eapply columns_MySQL_names.
Qed.

Lemma column_MySQL_is_ok d c1 :
  is_ok (column_MySQL d c1) = is_ok (MySQL_atTypeC d c1 (column_new c1)).
Proof. unfold column_MySQL. by destruct (MySQL_atTypeC _ _ _). Qed.

(** Without [universalID] a table gets through the first loop exactly
    when the type of every column translates and the columns of its
    primary key and of its indexes are columns of the table. *)
Lemma table_MySQL_is_ok m d t1 conn :
  universalID m = false ->
  (exists t2, table_MySQL m d t1 conn = Ok t2) <->
  Forall (fun c1 => is_ok (MySQL_atTypeC d c1 (column_new c1)) = true)
    (t_Columns t1) /\
  Forall (has_column t1) (t_PrimaryKey t1) /\
  Forall (fun idx => Forall (has_column t1) (i_Columns idx)) (t_Indexes t1).
Proof.
  intros Hu. split.
  - intros [t2 H]. pose proof (table_MySQL_same_names _ _ _ _ _ H) as Hsame.
    destruct (table_MySQL_Ok _ _ _ _ _ H)
      as (_ & _ & Hcols & (pk & _ & Hpk) & (idxs2 & _ & Hidxs) & _).
    split_and!.
    + pose proof (proj1 (traverse_is_ok _ _) (ex_intro _ _ Hcols)) as Hall.
      eapply Forall_impl; [exact Hall|]. intros c1 Hc1. cbv beta in Hc1.
      by rewrite column_MySQL_is_ok in Hc1.
    + apply lookup_columns_Ok in Hpk.
      eapply Forall2_Forall_l; [exact Hpk|]. apply Forall_forall.
      intros p _ c1 Hp. apply (same_names_has_column _ _ _ Hsame). by eexists.
    + pose proof (proj1 (traverse_is_ok _ _) (ex_intro _ _ Hidxs)) as Hall.
      eapply Forall_impl; [exact Hall|]. intros idx1 Hidx1. cbv beta in Hidx1.
      apply index_MySQL_is_ok in Hidx1.
      eapply Forall_impl; [exact Hidx1|]. intros c1 Hc1.
      by apply (same_names_has_column _ _ _ Hsame).
  - intros (Hcols & Hpk & Hidxs).
    destruct (proj2 (traverse_is_ok (column_MySQL d) (t_Columns t1)))
      as [cols Hcols'].
    { eapply Forall_impl; [exact Hcols|]. intros c1 Hc1. cbv beta.
      by rewrite column_MySQL_is_ok. }
    pose proof (columns_MySQL_names _ _ _ Hcols') as Hnames.
    unfold table_MySQL. rewrite Hu, Hcols'. cbn [bind].
    match goal with
    | |- context [traverse (lookup_column _ ?t) _] => set (t2 := t)
    end.
    assert (Hsame : same_names t1 t2) by done.
    destruct (lookup_columns_all ErrPrimaryKeyColumn t2 (t_PrimaryKey t1))
      as [pk ->].
    { eapply Forall_impl; [exact Hpk|]. intros c1 Hc1.
      by apply (same_names_has_column _ _ _ Hsame). }
    destruct (proj2 (traverse_is_ok (index_MySQL d t2) (t_Indexes t1)))
      as [idxs2 ->].
    { eapply Forall_impl; [exact Hidxs|]. intros idx1 Hidx1. cbv beta.
      apply index_MySQL_is_ok.
      eapply Forall_impl; [exact Hidx1|]. intros c1 Hc1.
      by apply (same_names_has_column _ _ _ Hsame). }
    by eexists.
Qed.

(** Without [universalID] the first loop sends no query: it is the loop
    over the tables that stops at the first table that does not
    translate, and the connection is left as it was. *)
Lemma aTables_build_traverse m d tables1 conn :
  universalID m = false ->
  aTables_build m (MySQL_builder d) tables1 conn =
  (traverse (fun t1 => table_MySQL m d t1 conn) tables1, conn).
Proof.
  intros Hu. induction tables1 as [|t1 rest IH]; [done|].
  cbn [aTables_build traverse]. rewrite aTable_MySQL, Hu, IH.
  destruct (table_MySQL m d t1 conn) as [t2|e]; [|done].
  cbn [bind]. by destruct (traverse _ rest).
Qed.

Lemma list_find_Forall2 {A B : Type} (P : A -> Prop) (Q : B -> Prop)
    `{!forall x, Decision (P x)} `{!forall y, Decision (Q y)}
    (R : A -> B -> Prop) l k j a :
  Forall2 (fun a b => R a b /\ (P a <-> Q b)) l k ->
  list_find P l = Some (j, a) ->
  exists b, list_find Q k = Some (j, b) /\ R a b.
Proof.
  intros HF (Hj & Ha & Hfirst)%list_find_Some.
  destruct (Forall2_lookup_l _ _ _ _ _ HF Hj) as (b & Hb & HR & HPQ).
  exists b. split; [|done]. apply list_find_Some. split_and!; [done|tauto|].
  intros i y Hy Hlt HQ.
  destruct (Forall2_lookup_r _ _ _ _ _ HF Hy) as (x & Hx & _ & HPQ').
  apply (Hfirst i x Hx Hlt). tauto.
Qed.

(** A foreign key resolves in the tables built by the first loop exactly
    when it resolves by name in the tables they are built from. *)
Lemma fk_resolves_source tables1 built t1 t2 fk1 :
  Forall2 same_names tables1 built -> same_names t1 t2 ->
  fk_resolves built t2 fk1 <->
  Forall (has_column t1) (fk_Columns fk1) /\
  exists j refT,
    list_find (fun t => t_Name t = fk_RefTable fk1) tables1 = Some (j, refT) /\
    Forall (has_column refT) (fk_RefColumns fk1).
Proof.
  intros Hall Hsame. unfold fk_resolves. split.
  - intros (Hloc & j & refT & Hfind & Href). split.
    + eapply Forall_impl; [exact Hloc|]. intros c1 Hc1.
      by apply (same_names_has_column _ _ _ Hsame).
    + destruct (list_find_Forall2
                  (fun t => schema.t_Name t = fk_RefTable fk1)
                  (fun t => t_Name t = fk_RefTable fk1)
                  (fun t2 t1 => same_names t1 t2) built tables1 j refT)
        as (refT1 & Hfind1 & Hsame1); [|exact Hfind|].
      { apply Forall2_flip. eapply Forall2_impl; [exact Hall|].
        intros a b [Hn Hc]. split; [done|]. by rewrite Hn. }
      exists j, refT1. split; [done|].
      eapply Forall_impl; [exact Href|]. intros c1 Hc1.
      by apply (same_names_has_column _ _ _ Hsame1).
  - intros (Hloc & j & refT1 & Hfind1 & Href). split.
    + eapply Forall_impl; [exact Hloc|]. intros c1 Hc1.
      by apply (same_names_has_column _ _ _ Hsame).
    + destruct (list_find_Forall2
                  (fun t => t_Name t = fk_RefTable fk1)
                  (fun t => schema.t_Name t = fk_RefTable fk1)
                  same_names tables1 built j refT1)
        as (refT & Hfind & Hsame1); [|exact Hfind1|].
      { eapply Forall2_impl; [exact Hall|].
        intros a b [Hn Hc]. split; [done|]. by rewrite Hn. }
      exists j, refT. split; [done|].
      eapply Forall_impl; [exact Href|]. intros c1 Hc1.
      by apply (same_names_has_column _ _ _ Hsame1).
Qed.

(** X17. Without [universalID], [aTables] under the MySQL builder returns
    a table set exactly when the input is well formed by name: the type of
    every column translates, the columns of every primary key, index and
    foreign key are columns of their table, every foreign key names a
    table of the input, and its referenced columns are columns of the
    first table of that name.  The connection is returned unchanged. *)
Theorem X17_translation_succeeds m d tables1 conn :
  universalID m = false ->
  wf_input d tables1 <->
  exists out, aTables m (MySQL_builder d) tables1 conn = (Ok out, conn).
Proof.
  intros Hu. unfold aTables. rewrite aTables_build_traverse by done.
  assert (Hshape : forall built,
            traverse (fun t1 => table_MySQL m d t1 conn) tables1 = Ok built ->
            Forall2 same_names tables1 built).
  { intros built Hb%traverse_Ok. eapply Forall2_impl; [exact Hb|].
    intros t1 t2 H. exact (table_MySQL_same_names _ _ _ _ _ H). }
  split.
  - intros Hwf.
    destruct (proj2 (traverse_is_ok (fun t1 => table_MySQL m d t1 conn)
                       tables1)) as [built Hb].
    { eapply Forall_impl; [exact Hwf|]. intros t1 (H1 & H2 & H3 & _).
      destruct (proj2 (table_MySQL_is_ok m d t1 conn Hu)) as [t2 ->]; done. }
    rewrite Hb. pose proof (Hshape _ Hb) as Hsh.
    pose proof (aTables_link_inv built tables1 0 built (same_shape_refl _)
                  (Forall2_length _ _ _ Hsh) (fun _ _ => eq_refl))
      as Hinv.
    destruct (aTables_link tables1 0 built) as [out|e]; [by eexists|].
    exfalso. destruct Hinv as (k & t1 & b & Ht1 & Hbk & Herr & _).
    cbn [Nat.add] in Hbk, Herr.
    destruct (proj2 (traverse_is_ok (aForeignKey built k b)
                       (t_ForeignKeys t1))) as [fk2s Hok]; [|congruence].
    destruct (Forall2_lookup_l _ _ _ _ _ Hsh Ht1) as (b' & Hb' & Hsame).
    assert (b' = b) as -> by congruence.
    destruct (proj1 (Forall_lookup _ _) Hwf k t1 Ht1) as (_ & _ & _ & Hfks).
    eapply Forall_impl; [exact Hfks|]. intros fk1 Hfk1. cbv beta.
    apply aForeignKey_is_ok. by apply (fk_resolves_source tables1 built t1).
  - intros [out Hout].
    destruct (traverse _ tables1) as [built|e] eqn:Hb; [|done].
    injection Hout as Hlink. pose proof (Hshape _ eq_refl) as Hsh.
    pose proof (aTables_link_inv built tables1 0 built (same_shape_refl _)
                  (Forall2_length _ _ _ Hsh) (fun _ _ => eq_refl))
      as Hinv.
    rewrite Hlink in Hinv. destruct Hinv as (_ & _ & Hall).
    apply Forall_lookup. intros k t1 Ht1.
    destruct (Hall k t1 Ht1) as (b & fk2s & Hbk & Hfks & _).
    cbn [Nat.add] in Hbk, Hfks.
    apply traverse_Ok in Hb.
    destruct (Forall2_lookup_l _ _ _ _ _ Hb Ht1) as (b' & Hb' & Htab).
    assert (b' = b) as -> by congruence.
    destruct (proj1 (table_MySQL_is_ok m d t1 conn Hu) (ex_intro _ _ Htab))
      as (H1 & H2 & H3).
    split_and!; [done..|].
    pose proof (proj1 (traverse_is_ok _ _) (ex_intro _ _ Hfks)) as Hres.
    eapply Forall_impl; [exact Hres|]. intros fk1 Hfk1. cbv beta in Hfk1.
    apply aForeignKey_is_ok in Hfk1.
    apply (fk_resolves_source tables1 built t1 b); [done| |done].
    by eapply table_MySQL_same_names.
Qed.

(** *** The default can be read back *)

Lemma unquote_ReplaceAll_quote v : unquote (strings.ReplaceAll_quote v) = v.
Proof.
  induction v as [|a v IH]; [done|].
  cbn [strings.ReplaceAll_quote]. destruct (Ascii.eqb a "'") eqn:Ha.
  - apply Ascii.eqb_eq in Ha as ->. cbn [unquote].
    change (Ascii.eqb "'" "'") with true. cbn [andb]. by rewrite IH.
  - cbn [unquote]. rewrite Ha. cbn [andb].
    destruct (strings.ReplaceAll_quote v) as [|b s'] eqn:Hr.
    + rewrite <- IH. done.
    + by rewrite IH.
Qed.

Lemma append_inj_r (s s' t : string) : s +:+ t = s' +:+ t -> s = s'.
Proof.
  intros H.
  assert (Hl : list_ascii_of_string s ++ list_ascii_of_string t =
               list_ascii_of_string s' ++ list_ascii_of_string t).
  { assert (Happ : forall x y, list_ascii_of_string (x +:+ y) =
                     list_ascii_of_string x ++ list_ascii_of_string y).
    { intros x y. induction x as [|a x IHx]; [done|].
      change (a :: list_ascii_of_string (x +:+ y) =
              a :: (list_ascii_of_string x ++ list_ascii_of_string y)).
      by rewrite IHx. }
    by rewrite <- !Happ, H. }
  apply app_inv_tail in Hl.
  rewrite <- (string_of_list_ascii_of_string s),
          <- (string_of_list_ascii_of_string s'). by rewrite Hl.
Qed.

(** X18. The quoting of string defaults loses nothing: two columns whose
    supported string defaults are quoted (neither column is a UUID or a
    time) get the same default expression only when the two strings are
    the same. *)
Theorem X18_quoted_default_injective c1 c1' c2 c2' v v' :
  c_Default c1 = Some (DefString v) -> c_Default c1' = Some (DefString v') ->
  supportDefault c1 = true -> supportDefault c1' = true ->
  c_Type c1 <> TypeUUID -> c_Type c1 <> TypeTime ->
  c_Type c1' <> TypeUUID -> c_Type c1' <> TypeTime ->
  schema.c_Default (aDefault c1 c2) = schema.c_Default (aDefault c1' c2') ->
  v = v'.
Proof.
  intros Hv Hv' Hs Hs' Hu Ht Hu' Ht'. unfold aDefault.
  rewrite Hv, Hv', Hs, Hs', !bool_decide_eq_true_2 by done.
  cbn [andb schema.SetDefault schema.c_Default]. intros [= H].
  change (strings.ReplaceAll_quote v +:+ "'" =
          strings.ReplaceAll_quote v' +:+ "'") in H.
  apply append_inj_r in H.
  by rewrite <- (unquote_ReplaceAll_quote v), H, unquote_ReplaceAll_quote.
Qed.

(** *** The range of a table *)

Lemma aTables_build_conn m b tables1 : forall conn built conn',
  universalID m = true ->
  aTables_build m b tables1 conn = (Ok built, conn') ->
  conn' = conn_after tables1 conn.
Proof.
  induction tables1 as [|t1 rest IH]; intros conn built conn' Hu H.
  - by injection H as _ <-.
  - cbn [aTables_build] in H.
    pose proof (aTable_range_query m b t1 conn Hu) as Hq.
    destruct (aTable m b t1 conn) as [[t2|e] c1]; [|done]. simpl in Hq.
    destruct (aTables_build m b rest c1) as [[ts|e] c2] eqn:Hr; [|done].
    injection H as _ <-. rewrite (IH _ _ _ Hu Hr), Hq. done.
Qed.

(** X20. With [universalID] set, under the MySQL builder, the last
    attribute of every output table is the auto-increment start that
    [pkRange] answered for that table, asked on the connection left by the
    queries of the tables before it; the connection [aTables] returns is
    the one left by the queries of all the tables. *)
Theorem X20_range_attribute m d pre t1 post conn out conn' t2 :
  universalID m = true ->
  aTables m (MySQL_builder d) (pre ++ t1 :: post) conn = (Ok out, conn') ->
  out !! length pre = Some t2 ->
  exists v,
    fst (pkRange (conn_after pre conn) t1) = Ok v /\
    schema.t_Attrs t2 =
    schema.t_Attrs (MySQL_atTable d t1 (schema.NewTable (t_Name t1)))
    ++ [schema.AutoIncrement v] /\
    conn' = conn_after (pre ++ t1 :: post) conn.
Proof.
  intros Hu Hout Ht2.
  destruct (aTables_Ok_inv _ _ _ _ _ _ Hout) as (built & Hb & _ & _ & Hall).
  pose proof (aTables_build_conn _ _ _ _ _ _ Hu Hb) as Hconn.
  destruct (Hall (length pre) t1) as (t2b & fk2s & Hbi & Hoi & _).
  { by rewrite lookup_app_r, Nat.sub_diag by lia. }
  assert (t2 = schema.AddForeignKeys t2b fk2s) as -> by congruence.
  rewrite aTables_build_app in Hb.
  destruct (aTables_build m (MySQL_builder d) pre conn)
    as [[bpre|e] c] eqn:Hpre; [|done].
  pose proof (aTables_build_conn _ _ _ _ _ _ Hu Hpre) as ->.
  pose proof (aTables_build_length _ _ _ _ _ _ Hpre) as Hlen.
  cbn [aTables_build] in Hb. rewrite aTable_MySQL in Hb.
  destruct (table_MySQL m d t1 (conn_after pre conn)) as [t2'|e] eqn:Htab;
    [|done].
  destruct (aTables_build m (MySQL_builder d) post _) as [[bpost|e] c2];
    [|done].
  injection Hb as <- _.
  rewrite lookup_app_r, <- Hlen, Nat.sub_diag in Hbi by lia.
  injection Hbi as ->.
  unfold table_MySQL in Htab. rewrite Hu in Htab.
  destruct (fst (pkRange (conn_after pre conn) t1)) as [v|e] eqn:Hq; [|done].
  exists v. split_and!; [done| |done].
  cbn [bind] in Htab.
  destruct (traverse (column_MySQL d) (t_Columns t1)) as [cols|e]; [|done].
  cbn [bind] in Htab.
  destruct (traverse (lookup_column _ _) (t_PrimaryKey t1)) as [pk|e]; [|done].
  cbn [bind] in Htab.
  destruct (traverse (index_MySQL d _) (t_Indexes t1)) as [idxs|e]; [|done].
  injection Htab as <-. unfold range_attrs. by rewrite Hu, Hq.
Qed.

(** *** Which error the first loop returns *)

Lemma traverse_columns_Err d cs e :
  traverse (column_MySQL d) cs = Err e <->
  exists pre c1 post,
    cs = pre ++ c1 :: post /\
    Forall (fun c => is_ok (MySQL_atTypeC d c (column_new c)) = true) pre /\
    MySQL_atTypeC d c1 (column_new c1) = Err e.
Proof.
  rewrite traverse_Err. split.
  - intros (pre & c1 & post & Hcs & Hpre & Hc1). exists pre, c1, post.
    split_and!; [done| |].
    + eapply Forall_impl; [exact Hpre|]. intros c Hc. cbv beta in Hc.
      by rewrite column_MySQL_is_ok in Hc.
    + unfold column_MySQL in Hc1.
      by destruct (MySQL_atTypeC d c1 (column_new c1)).
  - intros (pre & c1 & post & Hcs & Hpre & Hc1). exists pre, c1, post.
    split_and!; [done| |].
    + eapply Forall_impl; [exact Hpre|]. intros c Hc. cbv beta.
      by rewrite column_MySQL_is_ok.
    + unfold column_MySQL. by rewrite Hc1.
Qed.

Lemma first_missing_unknown t1 t2 cs c1 :
  same_names t1 t2 -> first_missing t2 cs c1 <-> first_unknown t1 cs c1.
Proof.
  intros Hsame. unfold first_missing, first_unknown. split.
  - intros (pre & post & Hcs & Hpre & Hc1). exists pre, post.
    split_and!; [done| |].
    + eapply Forall_impl; [exact Hpre|]. intros c Hc.
      by apply (same_names_has_column _ _ _ Hsame).
    + intros Hc. apply (same_names_has_column _ _ _ Hsame) in Hc as [p Hp].
      congruence.
  - intros (pre & post & Hcs & Hpre & Hc1). exists pre, post.
    split_and!; [done| |].
    + eapply Forall_impl; [exact Hpre|]. intros c Hc.
      by apply (same_names_has_column _ _ _ Hsame).
    + apply eq_None_not_Some. intros Hc. apply Hc1.
      by apply (same_names_has_column _ _ _ Hsame).
Qed.

Lemma traverse_lookup_Err errorf t1 t2 cs e :
  same_names t1 t2 ->
  traverse (lookup_column errorf t2) cs = Err e <->
  exists c1, first_unknown t1 cs c1 /\ e = errorf (c_Name c1).
Proof.
  intros Hsame. split.
  - intros (c1 & Hc1 & ->)%lookup_columns_Err. exists c1.
    split; [|done]. by apply (first_missing_unknown t1 t2).
  - intros (c1 & Hc1 & ->). apply lookup_columns_first_missing.
    by apply (first_missing_unknown t1 t2).
Qed.

Lemma traverse_index_Err d t1 t2 idxs e :
  same_names t1 t2 ->
  traverse (index_MySQL d t2) idxs = Err e <->
  exists pre idx post c1,
    idxs = pre ++ idx :: post /\
    Forall (fun idx => Forall (has_column t1) (i_Columns idx)) pre /\
    first_unknown t1 (i_Columns idx) c1 /\
    e = ErrIndexColumn (i_Name idx) (c_Name c1).
Proof.
  intros Hsame. rewrite traverse_Err. split.
  - intros (pre & idx & post & Hcs & Hpre & Hidx).
    apply (atIndex_Err_iff d) in Hidx as (c1 & Hc1 & ->).
    exists pre, idx, post, c1. split_and!; [done| | |done].
    + eapply Forall_impl; [exact Hpre|]. intros i Hi. cbv beta in Hi.
      apply index_MySQL_is_ok in Hi.
      eapply Forall_impl; [exact Hi|]. intros c Hc.
      by apply (same_names_has_column _ _ _ Hsame).
    + by apply (first_missing_unknown t1 t2).
  - intros (pre & idx & post & c1 & Hcs & Hpre & Hc1 & ->).
    exists pre, idx, post. split_and!; [done| |].
    + eapply Forall_impl; [exact Hpre|]. intros i Hi. cbv beta.
      apply index_MySQL_is_ok.
      eapply Forall_impl; [exact Hi|]. intros c Hc.
      by apply (same_names_has_column _ _ _ Hsame).
    + apply (atIndex_Err_iff d). exists c1. split; [|done].
      by apply (first_missing_unknown t1 t2).
Qed.

(** X21. Without [universalID], the error of one iteration of the first
    loop of [aTables] under the MySQL builder is, in this order of
    precedence: the error of the first column whose type does not
    translate; else the first column of the primary key that is no column
    of the table; else, for the first index with such a column, that index
    and its first such column.  Nothing else makes the iteration fail. *)
Theorem X21_table_error_precedence m d t1 conn e :
  universalID m = false ->
  fst (aTable m (MySQL_builder d) t1 conn) = Err e <->
  (exists pre c1 post,
     t_Columns t1 = pre ++ c1 :: post /\
     Forall (fun c => is_ok (MySQL_atTypeC d c (column_new c)) = true) pre /\
     MySQL_atTypeC d c1 (column_new c1) = Err e) \/
  (Forall (fun c => is_ok (MySQL_atTypeC d c (column_new c)) = true)
     (t_Columns t1) /\
   ((exists c1,
       first_unknown t1 (t_PrimaryKey t1) c1 /\
       e = ErrPrimaryKeyColumn (c_Name c1)) \/
    (Forall (has_column t1) (t_PrimaryKey t1) /\
     exists pre idx post c1,
       t_Indexes t1 = pre ++ idx :: post /\
       Forall (fun idx => Forall (has_column t1) (i_Columns idx)) pre /\
       first_unknown t1 (i_Columns idx) c1 /\
       e = ErrIndexColumn (i_Name idx) (c_Name c1)))).
Proof.
  intros Hu. rewrite aTable_MySQL. cbn [fst].
  rewrite <- (traverse_columns_Err d (t_Columns t1) e).
  unfold table_MySQL. rewrite Hu. cbn [bind].
  destruct (traverse (column_MySQL d) (t_Columns t1)) as [cols|e0] eqn:Hcols;
    cbn [bind].
  - assert (Hok : Forall (fun c => is_ok (MySQL_atTypeC d c (column_new c))
                                   = true) (t_Columns t1)).
    { pose proof (proj1 (traverse_is_ok _ _) (ex_intro _ _ Hcols)) as Hall.
      eapply Forall_impl; [exact Hall|]. intros c Hc. cbv beta in Hc.
      by rewrite column_MySQL_is_ok in Hc. }
    pose proof (columns_MySQL_names _ _ _ Hcols) as Hnames.
    match goal with
    | |- context [traverse (lookup_column _ ?t) _] => set (t2 := t)
    end.
    assert (Hsame : same_names t1 t2) by done.
    rewrite <- (traverse_lookup_Err ErrPrimaryKeyColumn t1 t2
                  (t_PrimaryKey t1) e Hsame).
    rewrite <- (traverse_index_Err d t1 t2 (t_Indexes t1) e Hsame).
    destruct (traverse (lookup_column ErrPrimaryKeyColumn t2) (t_PrimaryKey t1))
      as [pk|e1] eqn:Hpk; cbn [bind].
    + assert (Hpkok : Forall (has_column t1) (t_PrimaryKey t1)).
      { apply lookup_columns_Ok in Hpk.
        eapply Forall2_Forall_l; [exact Hpk|]. apply Forall_forall.
        intros p _ c1 Hp. apply (same_names_has_column _ _ _ Hsame).
        by eexists. }
      destruct (traverse (index_MySQL d t2) (t_Indexes t1)) as [idxs2|e2];
        cbn [bind].
      * split; [done|]. intros [H|[_ [H|[_ H]]]]; done.
      * split; [intros [= ->]; right; split; [done|]; right; by split|].
        intros [H|[_ [H|[_ H]]]]; [done|done|congruence].
    + split; [intros [= ->]; right; split; [done|]; by left|].
      intros [H|[_ [H|[Hpkok H]]]]; [done|congruence|].
      exfalso. destruct (lookup_columns_all ErrPrimaryKeyColumn t2
                           (t_PrimaryKey t1)) as [pk Hpk']; [|congruence].
      eapply Forall_impl; [exact Hpkok|]. intros c Hc.
      by apply (same_names_has_column _ _ _ Hsame).
  - split; [intros [= ->]; by left|]. intros [H|[Hok _]]; [congruence|].
    exfalso.
    destruct (proj2 (traverse_is_ok (column_MySQL d) (t_Columns t1)))
      as [cols Hcols']; [|congruence].
    eapply Forall_impl; [exact Hok|]. intros c Hc. cbv beta.
    by rewrite column_MySQL_is_ok.
Qed.

End Translation.

(** ** The queries [aTables] sends *)

Section Queries.

Variable supportDefault : Column -> bool.
Variable Conn : Type.
Variable pkRange : Conn -> Table -> result Z * Conn.

(** Each table the first loop goes through adds its name to the log of
    the queries, once. *)
Lemma aTable_logged m b t1 cl :
  universalID m = true ->
  snd (snd (aTable supportDefault (Conn * list string)
              (logged_pkRange Conn pkRange) m b t1 cl)) =
  snd cl ++ [t_Name t1].
Proof.
  intros Hu. rewrite aTable_range_query by done.
  unfold logged_pkRange. by destruct (pkRange cl.1 t1).
Qed.

Lemma aTables_build_logged m b tables1 : forall cl built cl',
  universalID m = true ->
  aTables_build supportDefault (Conn * list string)
    (logged_pkRange Conn pkRange) m b tables1 cl = (Ok built, cl') ->
  snd cl' = snd cl ++ (t_Name <$> tables1).
Proof.
  induction tables1 as [|t1 rest IH]; intros cl built cl' Hu H.
  - simpl in H. injection H as <- <-. by rewrite app_nil_r.
  - cbn [aTables_build] in H.
    pose proof (aTable_logged m b t1 cl Hu) as Hlog.
    destruct (aTable _ _ _ m b t1 cl) as [[t2|e] c1]; [|done].
    simpl in Hlog.
    destruct (aTables_build _ _ _ m b rest c1) as [[ts|e] c2] eqn:Hr; [|done].
    injection H as <- <-. rewrite (IH _ _ _ Hu Hr), Hlog.
    by rewrite <- app_assoc.
Qed.

(** C8. With [universalID] set, [aTables] asks for the range of each
    table once, in the order of the tables, before anything else of the
    table is translated.  When the query fails for a table, its error is
    the result of [aTables], no table set is returned, and no query
    follows: the log holds the tables before it and the table itself. *)
Theorem C8_range_error_surfaced m b tables1 conn :
  universalID m = true ->
  (forall out cl',
     aTables supportDefault (Conn * list string) (logged_pkRange Conn pkRange)
       m b tables1 (conn, []) = (Ok out, cl') ->
     snd cl' = t_Name <$> tables1) /\
  (forall pre t1 post built cl1 e conn2,
     tables1 = pre ++ t1 :: post ->
     aTables_build supportDefault (Conn * list string)
       (logged_pkRange Conn pkRange) m b pre (conn, []) = (Ok built, cl1) ->
     pkRange (fst cl1) t1 = (Err e, conn2) ->
     aTables supportDefault (Conn * list string) (logged_pkRange Conn pkRange)
       m b tables1 (conn, []) =
     (Err e, (conn2, (t_Name <$> pre) ++ [t_Name t1]))).
Proof.
  intros Hu. split.
  - intros out cl' (built & Hbuild & _)%aTables_Ok_inv.
    by rewrite (aTables_build_logged _ _ _ _ _ _ Hu Hbuild).
  - intros pre t1 post built cl1 e conn2 -> Hpre Hq.
    eapply aTables_range_error; [exact Hu|exact Hpre|].
    unfold logged_pkRange. rewrite Hq.
    by rewrite (aTables_build_logged _ _ _ _ _ _ Hu Hpre).
Qed.

(** Without [universalID] the first loop is a loop over the tables that
    never touches the connection. *)
Lemma aTables_build_no_query m b tables1 conn :
  universalID m = false ->
  aTables_build supportDefault Conn pkRange m b tables1 conn =
  (traverse
     (fun t1 =>
        do t2 <- aColumns supportDefault b t1
                   (atTable b t1 (schema.NewTable (t_Name t1)));
        aIndexes b t1 t2)
     tables1, conn).
Proof.
  intros Hu. induction tables1 as [|t1 rest IH]; [done|].
  cbn [aTables_build traverse]. unfold aTable at 1. rewrite Hu, IH.
  cbn [bind].
  destruct (aColumns supportDefault b t1 _) as [t2|e]; [|done]. cbn [bind].
  destruct (aIndexes b t1 t2) as [t2'|e]; [|done]. cbn [bind].
  by destruct (traverse _ rest).
Qed.

(** X19. Without [universalID], [aTables] sends no query, whatever the
    builder: it returns the connection it was given, and its result is the
    same with any other connection and any other [pkRange]. *)
Theorem X19_no_query_without_universal_id (Conn' : Type)
    (pkRange' : Conn' -> Table -> result Z * Conn') m b tables1 conn conn' :
  universalID m = false ->
  snd (aTables supportDefault Conn pkRange m b tables1 conn) = conn /\
  fst (aTables supportDefault Conn pkRange m b tables1 conn) =
  fst (aTables supportDefault Conn' pkRange' m b tables1 conn').
Proof.
  intros Hu. unfold aTables.
  rewrite (aTables_build_no_query m b tables1 conn Hu).
  assert (Hb' : aTables_build supportDefault Conn' pkRange' m b tables1 conn' =
                (traverse
                   (fun t1 =>
                      do t2 <- aColumns supportDefault b t1
                                 (atTable b t1 (schema.NewTable (t_Name t1)));
                      aIndexes b t1 t2)
                   tables1, conn')).
  { clear conn. induction tables1 as [|t1 rest IH]; [done|].
    cbn [aTables_build traverse]. unfold aTable at 1. rewrite Hu, IH.
    cbn [bind].
    destruct (aColumns supportDefault b t1 _) as [t2|e]; [|done]. cbn [bind].
    destruct (aIndexes b t1 t2) as [t2'|e]; [|done]. cbn [bind].
    by destruct (traverse _ rest). }
  rewrite Hb'. by destruct (traverse _ tables1).
Qed.

End Queries.

(** ** The properties on the sample environment *)

Abbreviation sample_atTypeC :=
  (MySQL_atTypeC Sample.ParseType Sample.compareVersions Sample.mariadb
     Sample.defaultSize Sample.scanTypeOr).
Abbreviation sample_builder :=
  (MySQL_builder Sample.ParseType Sample.compareVersions Sample.mariadb
     Sample.defaultSize Sample.scanTypeOr Sample.indexParts).
Abbreviation sample_aTables :=
  (aTables Sample.supportDefault nat Sample.pkRange).
Abbreviation sample_aTables_build :=
  (aTables_build Sample.supportDefault nat Sample.pkRange).
Abbreviation sample_column_MySQL :=
  (column_MySQL Sample.ParseType Sample.compareVersions Sample.mariadb
     Sample.defaultSize Sample.scanTypeOr Sample.supportDefault).
Abbreviation sample_aTable :=
  (aTable Sample.supportDefault nat Sample.pkRange).

(** A bytes column of size 100 is a tinyblob. *)
Lemma C5_bytes_size_tiers_witness :
  c_Type Sample.blob100 = TypeBytes /\
  inferred Sample.blob100 /\
  sample_atTypeC Sample.mysql8 Sample.blob100 (schema.NewColumn "data") =
  Ok (schema.SetType (schema.NewColumn "data")
        (Some (schema.BinaryType "tinyblob"))).
Proof.
  assert (H1 : c_Type Sample.blob100 = TypeBytes) by reflexivity.
  assert (H2 : inferred Sample.blob100) by reflexivity.
  split; [exact H1|]. split; [exact H2|].
  destruct (C5_bytes_size_tiers Sample.ParseType Sample.compareVersions
              Sample.mariadb Sample.defaultSize Sample.scanTypeOr
              Sample.mysql8 Sample.blob100 (schema.NewColumn "data") H1 H2)
    as (t & Heq & Htiny & _).
  rewrite Heq, Htiny; [reflexivity|]. simpl. lia.
Defined.

(** On MySQL 5.7.26 a JSON column is a json column. *)
Lemma C7_json_by_version_witness :
  c_Type Sample.doc = TypeJSON /\
  inferred Sample.doc /\
  Sample.compareVersions (version Sample.mysql57) "5.7.8" <> (-1)%Z /\
  sample_atTypeC Sample.mysql57 Sample.doc (schema.NewColumn "doc") =
  Ok (schema.SetType (schema.NewColumn "doc") (Some (schema.JSONType "json"))).
Proof.
  assert (H1 : c_Type Sample.doc = TypeJSON) by reflexivity.
  assert (H2 : inferred Sample.doc) by reflexivity.
  assert (H3 : Sample.compareVersions (version Sample.mysql57) "5.7.8"
               <> (-1)%Z) by (vm_compute; discriminate).
  split; [exact H1|]. split; [exact H2|]. split; [exact H3|].
  exact (proj2 (C7_json_by_version Sample.ParseType Sample.compareVersions
                  Sample.mariadb Sample.defaultSize Sample.scanTypeOr
                  Sample.mysql57 Sample.doc (schema.NewColumn "doc") H1 H2) H3).
Defined.

(** A bytes column of size 2^32 is accepted and gets no type. *)
Lemma C9_oversized_bytes_nil_type_witness :
  c_Type Sample.blob_huge = TypeBytes /\
  inferred Sample.blob_huge /\
  (2 ^ 32 - 1 < c_Size Sample.blob_huge)%Z /\
  exists c2',
    sample_atTypeC Sample.mysql8 Sample.blob_huge (schema.NewColumn "data")
    = Ok c2' /\
    schema.c_Type c2' = None /\
    c2' = schema.SetType (schema.NewColumn "data") None.
Proof.
  assert (H1 : c_Type Sample.blob_huge = TypeBytes) by reflexivity.
  assert (H2 : inferred Sample.blob_huge) by reflexivity.
  assert (H3 : (2 ^ 32 - 1 < c_Size Sample.blob_huge)%Z) by (simpl; lia).
  split; [exact H1|]. split; [exact H2|]. split; [exact H3|].
  exact (C9_oversized_bytes_nil_type Sample.ParseType Sample.compareVersions
           Sample.mariadb Sample.defaultSize Sample.scanTypeOr
           Sample.mysql8 Sample.blob_huge (schema.NewColumn "data") H1 H2 H3).
Defined.

(** On MariaDB 10.5.8 the column created_at, NOT NULL with a default, is
    made nullable. *)
Lemma C3_mariadb_ignores_default_witness :
  c_Type Sample.created_at = TypeTime /\
  inferred Sample.created_at /\
  snd (Sample.mariadb Sample.maria10) = true /\
  c_Default Sample.created_at = Some (DefOther "CURRENT_TIMESTAMP") /\
  c_Attr Sample.created_at = "" /\
  schema.c_Null (column_new Sample.created_at) = false /\
  exists c2',
    sample_atTypeC Sample.maria10 Sample.created_at
      (column_new Sample.created_at) = Ok c2' /\
    schema.c_Null c2' = true.
Proof.
  assert (H1 : c_Type Sample.created_at = TypeTime) by reflexivity.
  assert (H2 : inferred Sample.created_at) by reflexivity.
  assert (H3 : snd (Sample.mariadb Sample.maria10) = true) by reflexivity.
  assert (H4 : c_Default Sample.created_at
               = Some (DefOther "CURRENT_TIMESTAMP")) by reflexivity.
  assert (H5 : c_Attr Sample.created_at = "") by reflexivity.
  assert (H6 : schema.c_Null (column_new Sample.created_at) = false)
    by reflexivity.
  repeat (split; [assumption|]).
  exact (C3_mariadb_ignores_default Sample.ParseType Sample.compareVersions
           Sample.mariadb Sample.defaultSize Sample.scanTypeOr
           Sample.maria10 Sample.created_at (column_new Sample.created_at)
           (DefOther "CURRENT_TIMESTAMP") H1 H2 H3 H4 H5 H6).
Defined.

(** The table streets translated without the table cities: the foreign
    key to cities is reported, with its symbol and the name of the table. *)
Lemma C1_dangling_foreign_key_fails_witness :
  exists built,
    sample_aTables_build (mkMigrate false) (sample_builder Sample.mysql8)
      [Sample.StreetsTable] 0 = (Ok built, 0) /\
    sample_aTables (mkMigrate false) (sample_builder Sample.mysql8)
      [Sample.StreetsTable] 0 =
    (Err (ErrFkRefTable "streets_cities_streets" "cities"), 0).
Proof.
  pose (built :=
          match fst (sample_aTables_build (mkMigrate false)
                       (sample_builder Sample.mysql8) [Sample.StreetsTable] 0)
          with Ok ts => ts | Err _ => [] end).
  assert (Hbuild : sample_aTables_build (mkMigrate false)
                     (sample_builder Sample.mysql8) [Sample.StreetsTable] 0
                   = (Ok built, 0)) by (vm_compute; reflexivity).
  exists built. split; [exact Hbuild|].
  destruct (C1_dangling_foreign_key_fails _ _ _ _ _ _ _ _ _ Hbuild)
    as (_ & Hnames & _).
  assert (Ht2 : built !! 0 = Some (default (schema.NewTable "") (built !! 0)))
    by (vm_compute; reflexivity).
  destruct (Hnames 0 0 Sample.StreetsTable
              (default (schema.NewTable "") (built !! 0))
              (mkForeignKey "streets_cities_streets" [Sample.city_streets]
                 "cities" [Sample.id] "" "SET NULL")
              eq_refl Ht2 eq_refl) as (_ & Htable & _).
  - intros i' j' t1' t2' fk1' _ _ _ Hlt. lia.
  - apply Htable.
    + repeat constructor. vm_compute. eexists. reflexivity.
    + repeat constructor. vm_compute. discriminate.
Defined.

(** The tables cities and streets translate, streets with its columns in
    the input order. *)
Lemma C4_translation_order_witness :
  exists out,
    sample_aTables (mkMigrate false) (sample_builder Sample.mysql8)
      Sample.Tables 0 = (Ok out, 0) /\
    length out = 2 /\
    forall t2, out !! 1 = Some t2 ->
      schema.c_Name <$> schema.t_Columns t2 = ["id"; "name"; "city_streets"].
Proof.
  pose (out :=
          match fst (sample_aTables (mkMigrate false)
                       (sample_builder Sample.mysql8) Sample.Tables 0)
          with Ok ts => ts | Err _ => [] end).
  assert (Hout : sample_aTables (mkMigrate false)
                   (sample_builder Sample.mysql8) Sample.Tables 0
                 = (Ok out, 0)) by (vm_compute; reflexivity).
  exists out. split; [exact Hout|].
  destruct (proj2 (C4_translation_order Sample.ParseType Sample.compareVersions
                     Sample.mariadb Sample.defaultSize Sample.scanTypeOr
                     Sample.supportDefault Sample.indexParts nat Sample.pkRange
                     (mkMigrate false) Sample.mysql8 Sample.Tables 0)
              out 0 Hout) as (Hlen & Htables).
  split; [exact Hlen|].
  intros t2 Ht2.
  destruct (Htables 1 Sample.StreetsTable t2 eq_refl Ht2) as (_ & _ & Hcols & _).
  exact Hcols.
Defined.

(** The table pets, annotated with a collation only, keeps the default
    charset and takes the collation of the annotation. *)
Lemma C10_mysql_charset_collation_witness :
  exists out t2,
    sample_aTables (mkMigrate true) (sample_builder Sample.mysql8)
      [Sample.PetsTable] 0 = (Ok out, 1) /\
    out !! 0 = Some t2 /\
    charsets t2 = ["utf8mb4"] /\ collations t2 = ["utf8mb4_unicode_ci"].
Proof.
  pose (out :=
          match fst (sample_aTables (mkMigrate true)
                       (sample_builder Sample.mysql8) [Sample.PetsTable] 0)
          with Ok ts => ts | Err _ => [] end).
  assert (Hout : sample_aTables (mkMigrate true)
                   (sample_builder Sample.mysql8) [Sample.PetsTable] 0
                 = (Ok out, 1)) by (vm_compute; reflexivity).
  assert (Ht2 : out !! 0 = Some (default (schema.NewTable "") (out !! 0)))
    by (vm_compute; reflexivity).
  exists out, (default (schema.NewTable "") (out !! 0)).
  split; [exact Hout|]. split; [exact Ht2|].
  exact (proj2 (C10_mysql_charset_collation Sample.ParseType
                  Sample.compareVersions Sample.mariadb Sample.defaultSize
                  Sample.scanTypeOr Sample.supportDefault Sample.indexParts
                  nat Sample.pkRange (mkMigrate true) Sample.mysql8
                  [Sample.PetsTable] 0 out 1 0 Sample.PetsTable _
                  Hout eq_refl Ht2)
           (mkAnnotation "" "utf8mb4_unicode_ci" "" "" empty) eq_refl).
Defined.

(** The default O'Neil of the string column nickname is rendered as
    'O''Neil'. *)
Lemma C6_default_rendering_witness :
  exists out t2 c2,
    sample_aTables (mkMigrate true) (sample_builder Sample.mysql8)
      [Sample.PetsTable] 0 = (Ok out, 1) /\
    out !! 0 = Some t2 /\ schema.t_Columns t2 !! 1 = Some c2 /\
    c_Default Sample.nickname = Some (DefString "O'Neil") /\
    Sample.supportDefault Sample.nickname = true /\
    schema.c_Default c2 = Some (schema.mkRawExpr "'O''Neil'").
Proof.
  pose (out :=
          match fst (sample_aTables (mkMigrate true)
                       (sample_builder Sample.mysql8) [Sample.PetsTable] 0)
          with Ok ts => ts | Err _ => [] end).
  assert (Hout : sample_aTables (mkMigrate true)
                   (sample_builder Sample.mysql8) [Sample.PetsTable] 0
                 = (Ok out, 1)) by (vm_compute; reflexivity).
  set (t2 := default (schema.NewTable "") (out !! 0)).
  set (c2 := default (schema.NewColumn "") (schema.t_Columns t2 !! 1)).
  assert (Ht2 : out !! 0 = Some t2) by (vm_compute; reflexivity).
  assert (Hc2 : schema.t_Columns t2 !! 1 = Some c2)
    by (vm_compute; reflexivity).
  exists out, t2, c2.
  split; [exact Hout|]. split; [exact Ht2|]. split; [exact Hc2|].
  split; [reflexivity|]. split; [reflexivity|].
  refine (proj1 (C6_default_rendering Sample.ParseType
                  Sample.compareVersions Sample.mariadb Sample.defaultSize
                  Sample.scanTypeOr Sample.supportDefault Sample.indexParts
                  nat Sample.pkRange (mkMigrate true) Sample.mysql8
                  [Sample.PetsTable] 0 out 1 0 Sample.PetsTable _ 1
                  Sample.nickname _ (DefString "O'Neil")
                  Hout eq_refl Ht2 eq_refl Hc2 eq_refl eq_refl)
           "O'Neil" eq_refl _ _); simpl; discriminate.
Defined.

(** The table pets declares the unique index nickname itself: the unique
    column nickname gets no implicit index. *)
Lemma C2_implicit_unique_index_witness :
  exists t2',
    c_Unique Sample.nickname = true /\
    aColumn Sample.supportDefault (sample_builder Sample.mysql8)
      Sample.PetsTable Sample.nickname (schema.NewTable "pets") = Ok t2' /\
    schema.t_Indexes t2' = [].
Proof.
  pose (t2' :=
          match aColumn Sample.supportDefault (sample_builder Sample.mysql8)
                  Sample.PetsTable Sample.nickname (schema.NewTable "pets")
          with Ok t => t | Err _ => schema.NewTable "" end).
  assert (Hu : c_Unique Sample.nickname = true) by reflexivity.
  assert (Hcol : aColumn Sample.supportDefault (sample_builder Sample.mysql8)
                   Sample.PetsTable Sample.nickname (schema.NewTable "pets")
                 = Ok t2') by (vm_compute; reflexivity).
  exists t2'. split; [exact Hu|]. split; [exact Hcol|].
  apply (proj1 (C2_implicit_unique_index _ _ _ _ _ _ _ _ _ _ _ _ Hu Hcol)).
  exists (mkIndex "nickname" true [Sample.nickname]).
  split; [left; reflexivity|]. split; [reflexivity|]. left. reflexivity.
Defined.

(** C2 as the specification states it fails on the table "pairs": its one
    explicit unique index is named "c" and covers the columns "a" and "b",
    so no explicit index covers exactly the unique column "c"; the
    translation adds no implicit index for "c" all the same. *)
Lemma C2_counterexample :
  exists t2',
    c_Unique Sample.c = true /\
    aColumn Sample.supportDefault (sample_builder Sample.mysql8)
      Sample.PairTable Sample.c (schema.NewTable "pairs") = Ok t2' /\
    ~ spec_suppressed Sample.PairTable Sample.c /\
    schema.t_Indexes t2' <>
    schema.t_Indexes (schema.NewTable "pairs") ++
    [implicit_index Sample.c
       (length (schema.t_Columns (schema.NewTable "pairs")))].
Proof.
  eexists. split; [reflexivity|]. split; [vm_compute; reflexivity|]. split.
  - intros (idx & Hin & _ & Hcov & _).
    destruct Hin as [<- | []]. discriminate Hcov.
  - discriminate.
Qed.

(** The range of the second of three tables is refused: the error of the
    query is returned, although a column of that table cannot be
    translated either, and the third table is never queried. *)
Lemma C8_range_error_surfaced_witness :
  universalID (mkMigrate true) = true /\
  aTables Sample.supportDefault (nat * list string)
    (logged_pkRange nat Sample.pkRange) (mkMigrate true)
    (sample_builder Sample.mysql8)
    [Sample.CitiesTable; Sample.LockedTable; Sample.StreetsTable] (0, []) =
  (Err (ErrExternal "insert into ent_types"), (2, ["cities"; "locked"])).
Proof.
  assert (Hu : universalID (mkMigrate true) = true) by reflexivity.
  split; [exact Hu|].
  pose (built :=
          match fst (aTables_build Sample.supportDefault (nat * list string)
                       (logged_pkRange nat Sample.pkRange) (mkMigrate true)
                       (sample_builder Sample.mysql8) [Sample.CitiesTable]
                       (0, []))
          with Ok ts => ts | Err _ => [] end).
  assert (Hpre : aTables_build Sample.supportDefault (nat * list string)
                   (logged_pkRange nat Sample.pkRange) (mkMigrate true)
                   (sample_builder Sample.mysql8) [Sample.CitiesTable] (0, [])
                 = (Ok built, (1, ["cities"]))) by (vm_compute; reflexivity).
  exact (proj2 (C8_range_error_surfaced Sample.supportDefault nat
                  Sample.pkRange (mkMigrate true)
                  (sample_builder Sample.mysql8)
                  [Sample.CitiesTable; Sample.LockedTable; Sample.StreetsTable]
                  0 Hu)
           [Sample.CitiesTable] Sample.LockedTable [Sample.StreetsTable]
           built (1, ["cities"]) (ErrExternal "insert into ent_types") 2
           eq_refl Hpre eq_refl).
Defined.

(** ** The further properties on the sample environment *)

(** A bytes column of size 2^32 translates, and is the case that gets no
    type. *)
Lemma X1_known_types_translate_witness :
  inferred Sample.blob_huge /\
  c_Type Sample.blob_huge <> TypeInvalid /\
  c_Type Sample.blob_huge <> TypeOther /\
  exists c2',
    sample_atTypeC Sample.mysql8 Sample.blob_huge (schema.NewColumn "data")
    = Ok c2' /\
    (schema.c_Type c2' = None <->
     c_Type Sample.blob_huge = TypeBytes /\
     (MaxUint32 < c_Size Sample.blob_huge)%Z).
Proof.
  assert (H1 : inferred Sample.blob_huge) by reflexivity.
  assert (H2 : c_Type Sample.blob_huge <> TypeInvalid)
    by (vm_compute; discriminate).
  assert (H3 : c_Type Sample.blob_huge <> TypeOther)
    by (vm_compute; discriminate).
  repeat (split; [assumption|]).
  exact (X1_known_types_translate Sample.ParseType Sample.compareVersions
           Sample.mariadb Sample.defaultSize Sample.scanTypeOr
           Sample.mysql8 Sample.blob_huge (schema.NewColumn "data") H1 H2 H3).
Defined.

(** A column of another type whose type name the parser knows: the
    column is accepted and has no type. *)
Lemma X2_unknown_type_loses_parsed_type_witness :
  inferred Sample.point /\
  (c_Type Sample.point = TypeOther \/ c_Type Sample.point = TypeInvalid) /\
  Sample.ParseType (c_typ Sample.point) = Ok (schema.UnsupportedType "point") /\
  sample_atTypeC Sample.mysql8 Sample.point (schema.NewColumn "at") =
  Ok (schema.SetType (schema.NewColumn "at") None).
Proof.
  assert (H1 : inferred Sample.point) by reflexivity.
  assert (H2 : c_Type Sample.point = TypeOther \/
               c_Type Sample.point = TypeInvalid) by (left; reflexivity).
  split; [exact H1|]. split; [exact H2|]. split; [reflexivity|].
  exact (X2_unknown_type_loses_parsed_type Sample.ParseType
           Sample.compareVersions Sample.mariadb Sample.defaultSize
           Sample.scanTypeOr Sample.mysql8 Sample.point
           (schema.NewColumn "at") H1 H2).
Defined.

(** A time column on MariaDB and a string column on MySQL 8, with the
    overrides "BIGINT" and "bigint": both are bigint columns. *)
Lemma X3_override_short_circuits_witness :
  ~ inferred (Sample.overridden TypeTime "BIGINT") /\
  ~ inferred (Sample.overridden TypeString "bigint") /\
  sample_atTypeC Sample.maria10 (Sample.overridden TypeTime "BIGINT")
    (schema.NewColumn "id") =
  Ok (schema.SetType (schema.NewColumn "id")
        (Some (schema.IntegerType "bigint" false))) /\
  sample_atTypeC Sample.mysql8 (Sample.overridden TypeString "bigint")
    (schema.NewColumn "id") =
  sample_atTypeC Sample.maria10 (Sample.overridden TypeTime "BIGINT")
    (schema.NewColumn "id").
Proof.
  assert (H1 : ~ inferred (Sample.overridden TypeTime "BIGINT"))
    by (vm_compute; discriminate).
  assert (H2 : ~ inferred (Sample.overridden TypeString "bigint"))
    by (vm_compute; discriminate).
  split; [exact H1|]. split; [exact H2|].
  destruct (X3_override_short_circuits Sample.ParseType Sample.compareVersions
              Sample.mariadb Sample.defaultSize Sample.scanTypeOr
              Sample.maria10 (Sample.overridden TypeTime "BIGINT")
              (schema.NewColumn "id") H1) as [Heq Hsame].
  split.
  - rewrite Heq. vm_compute. reflexivity.
  - apply Hsame; [exact H2|]. vm_compute. reflexivity.
Defined.

(** A string column of 100000 characters is a longtext. *)
Lemma X4_string_tiers_witness :
  c_Type Sample.long_text = TypeString /\
  inferred Sample.long_text /\
  sample_atTypeC Sample.mysql8 Sample.long_text (schema.NewColumn "body") =
  Ok (schema.SetType (schema.NewColumn "body")
        (Some (schema.StringType "longtext" 0))).
Proof.
  assert (H1 : c_Type Sample.long_text = TypeString) by reflexivity.
  assert (H2 : inferred Sample.long_text) by reflexivity.
  split; [exact H1|]. split; [exact H2|].
  destruct (X4_string_tiers Sample.ParseType Sample.compareVersions
              Sample.mariadb Sample.defaultSize Sample.scanTypeOr
              Sample.mysql8 Sample.long_text (schema.NewColumn "body") H1 H2)
    as (t & Heq & _ & Hsize).
  rewrite Heq.
  assert (Ht1 : c_typ Sample.long_text <> "tinytext")
    by (vm_compute; discriminate).
  assert (Ht2 : c_typ Sample.long_text <> "text")
    by (vm_compute; discriminate).
  destruct (Hsize Ht1 Ht2 100000%Z eq_refl) as (_ & _ & Hlong).
  rewrite Hlong; [reflexivity|lia|lia].
Defined.

(** On MariaDB the column created_at, declared NOT NULL, comes out
    nullable: it is a time column with no raw attribute. *)
Lemma X5_nullability_witness :
  exists c2,
    sample_column_MySQL Sample.maria10 Sample.created_at = Ok c2 /\
    c_Nullable Sample.created_at = false /\
    schema.c_Null c2 = true.
Proof.
  pose (c2 := match sample_column_MySQL Sample.maria10 Sample.created_at with
              | Ok c => c
              | Err _ => schema.NewColumn ""
              end).
  assert (H : sample_column_MySQL Sample.maria10 Sample.created_at = Ok c2)
    by (vm_compute; reflexivity).
  exists c2. split; [exact H|]. split; [reflexivity|].
  destruct (X5_nullability _ _ _ _ _ _ _ _ _ H) as [Hnull _].
  rewrite Hnull; [reflexivity|reflexivity|reflexivity|].
  left. reflexivity.
Defined.

(** An auto-increment UUID column that asks for utf8mb4_general_ci gets
    utf8mb4_bin, then the auto-increment marker. *)
Lemma X6_column_attributes_witness :
  exists c2,
    sample_column_MySQL Sample.mysql8 Sample.uuid = Ok c2 /\
    schema.c_Attrs c2 =
    [schema.Collation "utf8mb4_bin"; schema.AutoIncrement 0].
Proof.
  pose (c2 := match sample_column_MySQL Sample.mysql8 Sample.uuid with
              | Ok c => c
              | Err _ => schema.NewColumn ""
              end).
  assert (H : sample_column_MySQL Sample.mysql8 Sample.uuid = Ok c2)
    by (vm_compute; reflexivity).
  exists c2. split; [exact H|].
  destruct (X6_column_attributes _ _ _ _ _ _ _ _ _ H)
    as (coll & Hattrs & Huuid & _).
  rewrite Hattrs, (Huuid eq_refl eq_refl). reflexivity.
Defined.

(** The default 0 of an integer column is the expression 0. *)
Lemma X7_default_absent_or_printed_witness :
  exists c2,
    sample_column_MySQL Sample.mysql8 Sample.counter = Ok c2 /\
    schema.c_Default c2 = Some (schema.mkRawExpr "0").
Proof.
  pose (c2 := match sample_column_MySQL Sample.mysql8 Sample.counter with
              | Ok c => c
              | Err _ => schema.NewColumn ""
              end).
  assert (H : sample_column_MySQL Sample.mysql8 Sample.counter = Ok c2)
    by (vm_compute; reflexivity).
  exists c2. split; [exact H|].
  destruct (X7_default_absent_or_printed _ _ _ _ _ _ _ _ _ H) as [_ Hp].
  exact (Hp "0" eq_refl eq_refl).
Defined.

(** The annotated table: charset latin1, the default collation, the
    create options, the unnamed check, then the named checks by name. *)
Lemma X8_atTable_attributes_witness :
  t_Annotation Sample.CheckedTable = Some Sample.checked /\
  exists checks : list (string * string),
    schema.t_Attrs
      (MySQL_atTable Sample.mysql8 Sample.CheckedTable
         (schema.NewTable "checked")) =
    [schema.Charset "latin1"; schema.Collation "utf8mb4_bin";
     schema.CreateOptions "ENGINE = INNODB"; schema.Check "" "price > 0"]
    ++ map (fun ne => schema.Check (fst ne) (snd ne)) checks /\
    Sorted (fun a b => String.leb a b = true) (map fst checks) /\
    NoDup (map fst checks) /\
    forall n e, In (n, e) checks <-> an_Checks Sample.checked !! n = Some e.
Proof.
  split; [reflexivity|].
  exact (proj2 (X8_atTable_attributes Sample.mysql8 Sample.CheckedTable
                  "checked") Sample.checked eq_refl).
Defined.

(** The index c1_11 of the column c1: the suffix "11" is made of
    characters of "c1_", and the name is not recognised. *)
Lemma X9_suffix_of_name_characters_witness :
  MySQL_atImplicitIndexName Sample.mysql8
    (mkIndex "c1_11" true [Sample.column "c1" TypeInt])
    (Sample.column "c1" TypeInt) = false.
Proof.
  apply (X9_suffix_of_name_characters Sample.mysql8
           (mkIndex "c1_11" true [Sample.column "c1" TypeInt])
           (Sample.column "c1" TypeInt) "11"); [reflexivity|].
  intros a. simpl.
  destruct (Ascii.eqb a "1"); [|discriminate].
  intros _. rewrite !orb_true_r. reflexivity.
Defined.


(** The index of streets over name and city_streets, on a table with
    these two columns: the index keeps its name and its unique mark. *)
Lemma X11_atIndex_parts_witness :
  exists idx2',
    MySQL_atIndex Sample.indexParts Sample.mysql8
      (mkIndex "street_name_city_streets" true
         [Sample.name; Sample.city_streets])
      (schema.AddColumns (schema.NewTable "streets")
         [schema.NewColumn "name"; schema.NewColumn "city_streets"])
      (schema.NewUniqueIndex "street_name_city_streets") = Ok idx2' /\
    schema.i_Name idx2' = "street_name_city_streets" /\
    schema.i_Unique idx2' = true.
Proof.
  pose (r := MySQL_atIndex Sample.indexParts Sample.mysql8
               (mkIndex "street_name_city_streets" true
                  [Sample.name; Sample.city_streets])
               (schema.AddColumns (schema.NewTable "streets")
                  [schema.NewColumn "name"; schema.NewColumn "city_streets"])
               (schema.NewUniqueIndex "street_name_city_streets")).
  pose (idx2' := match r with Ok i => i | Err _ => schema.NewIndex "" end).
  assert (H : r = Ok idx2') by (vm_compute; reflexivity).
  exists idx2'. split; [exact H|].
  destruct (X11_atIndex_parts Sample.indexParts Sample.mysql8 _ _ _ _ H)
    as (Hn & Hu & _).
  rewrite Hn, Hu. split; reflexivity.
Defined.

(** An index over a column the table does not have. *)
Lemma X12_atIndex_error_witness :
  MySQL_atIndex Sample.indexParts Sample.mysql8
    (mkIndex "ghosts" false [Sample.id; Sample.column "ghost" TypeInt])
    (schema.AddColumns (schema.NewTable "t") [schema.NewColumn "id"])
    (schema.NewIndex "ghosts") =
  Err (ErrIndexColumn "ghosts" "ghost").
Proof.
  apply (proj2 (X12_atIndex_error Sample.indexParts Sample.mysql8
                  (mkIndex "ghosts" false
                     [Sample.id; Sample.column "ghost" TypeInt])
                  (schema.AddColumns (schema.NewTable "t")
                     [schema.NewColumn "id"])
                  (schema.NewIndex "ghosts")
                  (ErrIndexColumn "ghosts" "ghost"))).
  exists (Sample.column "ghost" TypeInt). split; [|reflexivity].
  exists [Sample.id], []. split; [reflexivity|]. split; [|reflexivity].
  constructor; [|constructor]. exists 0. reflexivity.
Defined.

(** A primary key over a column the table does not have. *)
Lemma X13_primary_key_column_missing_witness :
  first_missing (schema.NewTable "t") [Sample.id] Sample.id /\
  aIndexes (sample_builder Sample.mysql8)
    (mkTable "t" [] [] [Sample.id] [] None) (schema.NewTable "t") =
  Err (ErrPrimaryKeyColumn "id").
Proof.
  assert (H : first_missing (schema.NewTable "t") [Sample.id] Sample.id).
  { exists [], []. split; [reflexivity|]. split; [constructor|reflexivity]. }
  split; [exact H|].
  exact (X13_primary_key_column_missing (sample_builder Sample.mysql8)
           (mkTable "t" [] [] [Sample.id] [] None) (schema.NewTable "t")
           Sample.id H).
Defined.

(** The second column of the table locked has a type the parser
    refuses: its error is the error of [aColumns]. *)
Lemma X14_aColumns_error_witness :
  aColumns Sample.supportDefault (sample_builder Sample.mysql8)
    Sample.LockedTable (schema.NewTable "locked") =
  Err (ErrExternal "empty type").
Proof.
  apply (proj2 (X14_aColumns_error Sample.supportDefault
                  (sample_builder Sample.mysql8) Sample.LockedTable
                  (schema.NewTable "locked") (ErrExternal "empty type"))).
  exists [Sample.id], (Sample.column "shape" TypeOther), [].
  split; [reflexivity|]. split; [|reflexivity].
  constructor; [reflexivity|constructor].
Defined.

(** The primary key of group_users, over its two columns. *)
Lemma X15_index_parts_closed_witness :
  exists out t2 pk,
    sample_aTables (mkMigrate false) (sample_builder Sample.mysql8)
      Sample.Traversal.Tables 0 = (Ok out, 0) /\
    out !! 3 = Some t2 /\
    schema.t_PrimaryKey t2 = Some pk /\
    length (schema.i_Parts pk) = 2 /\
    Forall (fun p => is_Some (schema.t_Columns t2 !! schema.p_C p))
      (schema.i_Parts pk).
Proof.
  pose (out :=
          match fst (sample_aTables (mkMigrate false)
                       (sample_builder Sample.mysql8)
                       Sample.Traversal.Tables 0)
          with Ok ts => ts | Err _ => [] end).
  pose (t2 := default (schema.NewTable "") (out !! 3)).
  pose (pk := default (schema.NewIndex "") (schema.t_PrimaryKey t2)).
  assert (Hout : sample_aTables (mkMigrate false)
                   (sample_builder Sample.mysql8) Sample.Traversal.Tables 0
                 = (Ok out, 0)) by (vm_compute; reflexivity).
  assert (Ht2 : out !! 3 = Some t2) by (vm_compute; reflexivity).
  assert (Hpk : schema.t_PrimaryKey t2 = Some pk) by (vm_compute; reflexivity).
  exists out, t2, pk. split; [exact Hout|]. split; [exact Ht2|].
  split; [exact Hpk|]. split; [vm_compute; reflexivity|].
  exact (X15_index_parts_closed _ _ _ _ _ _ _ _ _ _ _ _ _ _ _ _ _ _
           Hout Ht2 (or_intror Hpk)).
Defined.

(** The foreign key of groups to users: users is the third table. *)
Lemma X16_foreign_keys_closed_witness :
  exists out t2 fk2,
    sample_aTables (mkMigrate false) (sample_builder Sample.mysql8)
      Sample.Traversal.Tables 0 = (Ok out, 0) /\
    out !! 0 = Some t2 /\
    schema.t_ForeignKeys t2 = [fk2] /\
    schema.fk_Table fk2 = Some 0 /\
    Forall (fun p => is_Some (schema.t_Columns t2 !! p))
      (schema.fk_Columns fk2) /\
    exists j refT,
      schema.fk_RefTable fk2 = Some j /\ out !! j = Some refT /\
      Forall (fun p => is_Some (schema.t_Columns refT !! p))
        (schema.fk_RefColumns fk2).
Proof.
  pose (out :=
          match fst (sample_aTables (mkMigrate false)
                       (sample_builder Sample.mysql8)
                       Sample.Traversal.Tables 0)
          with Ok ts => ts | Err _ => [] end).
  pose (t2 := default (schema.NewTable "") (out !! 0)).
  pose (fk2 := default (schema.NewForeignKey "")
                 (head (schema.t_ForeignKeys t2))).
  assert (Hout : sample_aTables (mkMigrate false)
                   (sample_builder Sample.mysql8) Sample.Traversal.Tables 0
                 = (Ok out, 0)) by (vm_compute; reflexivity).
  assert (Ht2 : out !! 0 = Some t2) by (vm_compute; reflexivity).
  assert (Hfks : schema.t_ForeignKeys t2 = [fk2]) by (vm_compute; reflexivity).
  assert (Hin : In fk2 (schema.t_ForeignKeys t2))
    by (rewrite Hfks; left; reflexivity).
  exists out, t2, fk2. split; [exact Hout|]. split; [exact Ht2|].
  split; [exact Hfks|].
  exact (X16_foreign_keys_closed _ _ _ _ _ _ _ _ _ _ _ _ _ _ _ _ _ _
           Hout Ht2 Hin).
Defined.

(** The tables of examples/traversal translate, so they are well formed
    by name. *)
Lemma X17_translation_succeeds_witness :
  universalID (mkMigrate false) = false /\
  wf_input Sample.ParseType Sample.compareVersions Sample.mariadb
    Sample.defaultSize Sample.scanTypeOr Sample.mysql8
    Sample.Traversal.Tables.
Proof.
  split; [reflexivity|].
  apply (proj2 (X17_translation_succeeds Sample.ParseType
                  Sample.compareVersions Sample.mariadb Sample.defaultSize
                  Sample.scanTypeOr Sample.supportDefault Sample.indexParts
                  nat Sample.pkRange (mkMigrate false) Sample.mysql8
                  Sample.Traversal.Tables 0 eq_refl)).
  eexists. vm_compute. reflexivity.
Defined.

(** Two columns with the default O'Neil, a string and an enum. *)
Lemma X18_quoted_default_injective_witness :
  schema.c_Default
    (aDefault Sample.supportDefault Sample.nickname (schema.NewColumn "a")) =
  Some (schema.mkRawExpr "'O''Neil'") /\
  "O'Neil" = "O'Neil".
Proof.
  split; [reflexivity|].
  apply (X18_quoted_default_injective Sample.supportDefault
           Sample.nickname
           (mkColumn "surname" TypeEnum empty "" 0 false false false
              (Some (DefString "O'Neil")) [] "" "")
           (schema.NewColumn "a") (schema.NewColumn "b"));
    try reflexivity; vm_compute; discriminate.
Defined.

(** The tables of examples/traversal on a connection that counts its
    queries, and with no connection at all. *)
Lemma X19_no_query_without_universal_id_witness :
  universalID (mkMigrate false) = false /\
  snd (sample_aTables (mkMigrate false) (sample_builder Sample.mysql8)
         Sample.Traversal.Tables 7) = 7 /\
  fst (sample_aTables (mkMigrate false) (sample_builder Sample.mysql8)
         Sample.Traversal.Tables 7) =
  fst (aTables Sample.supportDefault unit
         (fun c _ => (Err (ErrExternal "no connection"), c))
         (mkMigrate false) (sample_builder Sample.mysql8)
         Sample.Traversal.Tables tt).
Proof.
  split; [reflexivity|].
  exact (X19_no_query_without_universal_id Sample.supportDefault nat
           Sample.pkRange unit
           (fun c _ => (Err (ErrExternal "no connection"), c))
           (mkMigrate false) (sample_builder Sample.mysql8)
           Sample.Traversal.Tables 7 tt eq_refl).
Defined.

(** With [universalID], streets is the second table asked for: its range
    starts at 2^32, and two queries have been answered at the end. *)
Lemma X20_range_attribute_witness :
  exists out t2,
    sample_aTables (mkMigrate true) (sample_builder Sample.mysql8)
      Sample.Tables 0 = (Ok out, 2) /\
    out !! 1 = Some t2 /\
    schema.t_Attrs t2 =
    [schema.Charset "utf8mb4"; schema.Collation "utf8mb4_bin";
     schema.AutoIncrement (2 ^ 32)].
Proof.
  pose (out :=
          match fst (sample_aTables (mkMigrate true)
                       (sample_builder Sample.mysql8) Sample.Tables 0)
          with Ok ts => ts | Err _ => [] end).
  pose (t2 := default (schema.NewTable "") (out !! 1)).
  assert (Hout : sample_aTables (mkMigrate true)
                   (sample_builder Sample.mysql8) Sample.Tables 0
                 = (Ok out, 2)) by (vm_compute; reflexivity).
  assert (Ht2 : out !! 1 = Some t2) by (vm_compute; reflexivity).
  exists out, t2. split; [exact Hout|]. split; [exact Ht2|].
  destruct (X20_range_attribute Sample.ParseType Sample.compareVersions
              Sample.mariadb Sample.defaultSize Sample.scanTypeOr
              Sample.supportDefault Sample.indexParts nat Sample.pkRange
              (mkMigrate true) Sample.mysql8 [Sample.CitiesTable]
              Sample.StreetsTable [] 0 out 2 t2 eq_refl Hout Ht2)
    as (v & Hv & Hattrs & _).
  rewrite Hattrs. injection Hv as <-. reflexivity.
Defined.

(** A table whose only column has a type the parser refuses and whose
    primary key names a column it does not have: the error is that of the
    column type. *)
Lemma X21_table_error_precedence_witness :
  universalID (mkMigrate false) = false /\
  fst (sample_aTable (mkMigrate false) (sample_builder Sample.mysql8)
         (mkTable "t" [Sample.column "shape" TypeOther] []
            [Sample.column "ghost" TypeInt] [] None) 0) =
  Err (ErrExternal "empty type").
Proof.
  split; [reflexivity|].
  apply (proj2 (X21_table_error_precedence Sample.ParseType
                  Sample.compareVersions Sample.mariadb Sample.defaultSize
                  Sample.scanTypeOr Sample.supportDefault Sample.indexParts
                  nat Sample.pkRange (mkMigrate false) Sample.mysql8
                  (mkTable "t" [Sample.column "shape" TypeOther] []
                     [Sample.column "ghost" TypeInt] [] None) 0
                  (ErrExternal "empty type") eq_refl)).
  left. exists [], (Sample.column "shape" TypeOther), [].
  split; [reflexivity|]. split; [constructor|reflexivity].
Defined.
